(** * Chunked event cache of the DLC Sentry payment report

    A shallow embedding of the date-window planner, the chunk store, the
    fetch-and-cache flow ([fetch_payment_data.js]) and of the reader and the
    payment-error aggregator ([process_payment_report.js]), with the
    properties the specification states about them.

    Conventions of the embedding.
    - A JavaScript [Date] is its time value: milliseconds since the epoch,
      UTC, as a [Z].  [Date] and [Planner] model valid dates and leave out
      the ends of the range of a [Date], a hundred million days either side
      of the epoch; [Bounded] is the planner with them, and the two agree
      on every plan whose end date is a chunk or more before the last day.
    - A JavaScript string is a [string]; comparisons are lexicographic on
      the characters, which is what [<=] does on the ASCII date strings and
      file names of this program.
    - A property that may be [undefined], [null] or missing is an
      [option string]; truthiness is written out ([truthy]).
    - A directory is the list of its entries in the order in which
      [readdirSync] returns them.  Node promises no order; where the
      listing comes by ascending name ([dirSorted]), writing a file keeps
      it so.
    - The file system is the map from the paths of the chunk directories
      to their listings.  An issue name is taken to hold no path separator
      (the program passes "Payment Error" and "Payment Success"), so that
      a chunk directory is a child of [data/raw] and [path.join] has
      nothing to normalise.
    - [toLowerCase] is modelled on ASCII letters.
    - Loops that the source does not bound take a [fuel]; running out of it
      is [None]. *)

From Stdlib Require Import ZArith Lia Bool List Sorting.Sorted Permutation.
From Stdlib Require Import Strings.String Strings.Ascii.
From stdpp Require Import gmap strings.
Import ListNotations.

Local Open Scope string_scope.
Local Open Scope list_scope.
Local Open Scope Z_scope.

#[local] Arguments String.append !s1 s2 : simpl nomatch.

(* ===================================================================== *)
(** ** JavaScript primitives *)
(* ===================================================================== *)

Module Js.

(** Truthiness of a value that is a string, [undefined] or [null]:
    only a non-empty string is truthy. *)
Definition truthy (v : option string) : bool :=
  match v with
  | Some s => negb (String.eqb s "")
  | None => false
  end.

(** [a || b]. *)
Definition or (a b : option string) : option string :=
  if truthy a then a else b.

(** [a || 'literal'], whose value is always a string. *)
Definition orDefault (a : option string) (dflt : string) : string :=
  match a with
  | Some s => if String.eqb s "" then dflt else s
  | None => dflt
  end.

(** [a <= b] and [a >= b] on strings. *)
Definition le (a b : string) : bool := String.leb a b.
Definition ge (a b : string) : bool := String.leb b a.

(** [s.endsWith(suffix)]. *)
Definition endsWith (s suffix : string) : bool :=
  let n := String.length s in
  let k := String.length suffix in
  (k <=? n)%nat && String.eqb (substring (n - k) k s) suffix.

(** [s.split('T')[0]]: the part of [s] before its first ['T']. *)
Fixpoint beforeT (s : string) : string :=
  match s with
  | EmptyString => EmptyString
  | String c r => if Ascii.eqb c "T" then EmptyString else String c (beforeT r)
  end.

Definition isDigit (c : ascii) : bool :=
  let n := nat_of_ascii c in (48 <=? n)%nat && (n <=? 57)%nat.

End Js.

(* ===================================================================== *)
(** ** Dates *)
(* ===================================================================== *)

Module Date.

(** Time value of a [Date]: milliseconds since 1970-01-01T00:00:00Z. *)
Abbreviation t := Z.

Definition msPerDay : Z := 86400000.

(** Number of the UTC calendar day a time value falls on. *)
Definition dayOf (d : t) : Z := d / msPerDay.

(** [addDays(date, days)]: [setUTCDate(getUTCDate() + days)] moves the
    time value by whole days and keeps the time of day. *)
Definition addDays (date : t) (days : Z) : t := date + days * msPerDay.

(** Proleptic Gregorian calendar date of a day number. *)
Definition civil (day : Z) : Z * Z * Z :=
  let z := day + 719468 in
  let era := z / 146097 in
  let doe := z - era * 146097 in
  let yoe := (doe - doe / 1460 + doe / 36524 - doe / 146096) / 365 in
  let y := yoe + era * 400 in
  let doy := doe - (365 * yoe + yoe / 4 - yoe / 100) in
  let mp := (5 * doy + 2) / 153 in
  let d := doy - (153 * mp + 2) / 5 + 1 in
  let m := if mp <? 10 then mp + 3 else mp - 9 in
  (if m <=? 2 then y + 1 else y, m, d).

Definition digitChar (n : Z) : ascii := ascii_of_nat (48 + Z.to_nat n).

(** The [k] low decimal digits of [n], most significant first. *)
Fixpoint digits (k : nat) (n : Z) : string :=
  match k with
  | O => EmptyString
  | S k' => digits k' (n / 10) +:+ String (digitChar (n mod 10)) EmptyString
  end.

(** Year of [toISOString()]: four digits for years 0 to 9999, a sign and
    six digits otherwise. *)
Definition isoYear (y : Z) : string :=
  if (0 <=? y) && (y <=? 9999) then digits 4 y
  else (if y <? 0 then "-" else "+") +:+ digits 6 (Z.abs y).

(** [formatDate(date)]: [date.toISOString().split('T')[0]]. *)
Definition formatDate (date : t) : string :=
  let '(y, m, d) := civil (dayOf date) in
  isoYear y +:+ "-" +:+ digits 2 m +:+ "-" +:+ digits 2 d.

(** Day numbers of 0000-01-01 and of 9999-12-31. *)
Definition firstDay : Z := -719528.
Definition lastDay : Z := 2932896.

(** The dates [toISOString()] prints with a four digit year. *)
Definition fourDigitYear (date : t) : Prop :=
  firstDay <= dayOf date <= lastDay.

End Date.

(** A planned window, as the planner pushes it: two date strings. *)
Record DateRange := mkRange { r_start : string; r_end : string }.

Module Planner.
Import Date.

Definition CHUNK_DAYS : Z := 30.

(** [getDateRanges(startDate, endDate, chunkDays)].  [fuel] bounds the
    iterations of the [while] loop. *)
Fixpoint getDateRangesFrom (fuel : nat) (currentStart endDate : Date.t)
    (chunkDays : Z) : option (list DateRange) :=
  match fuel with
  | O => None
  | S fuel' =>
      if currentStart <? endDate then
        let currentEnd := addDays currentStart (chunkDays - 1) in
        let currentEnd := if currentEnd >? endDate then endDate else currentEnd in
        let range := mkRange (formatDate currentStart) (formatDate currentEnd) in
        match getDateRangesFrom fuel' (addDays currentEnd 1) endDate chunkDays with
        | Some ranges => Some (range :: ranges)
        | None => None
        end
      else Some []
  end.

Definition getDateRanges (fuel : nat) (startDate endDate : Date.t)
    (chunkDays : Z) : option (list DateRange) :=
  getDateRangesFrom fuel startDate endDate chunkDays.

(** The [Date] values [currentStart] and [currentEnd] of each iteration,
    before they are formatted. *)
Fixpoint windowsFrom (fuel : nat) (currentStart endDate : Date.t)
    (chunkDays : Z) : option (list (Date.t * Date.t)) :=
  match fuel with
  | O => None
  | S fuel' =>
      if currentStart <? endDate then
        let currentEnd := addDays currentStart (chunkDays - 1) in
        let currentEnd := if currentEnd >? endDate then endDate else currentEnd in
        match windowsFrom fuel' (addDays currentEnd 1) endDate chunkDays with
        | Some ws => Some ((currentStart, currentEnd) :: ws)
        | None => None
        end
      else Some []
  end.

Definition formatWindow (w : Date.t * Date.t) : DateRange :=
  mkRange (formatDate (fst w)) (formatDate (snd w)).

End Planner.

(* ===================================================================== *)
(** ** Events *)
(* ===================================================================== *)

(** An upstream event, as far as the program reads it. *)
Record Tag := mkTag { tag_key : string; tag_value : option string }.

Record User := mkUser {
  user_id : option string;
  user_email : option string;
  user_ip_address : option string
}.

Record RawEvent := mkRawEvent {
  ev_id : option string;
  ev_eventID : option string;
  ev_dateCreated : option string;
  ev_dateReceived : option string;
  ev_user : option User;
  ev_tags : option (list Tag)
}.

(** The minimal event record kept in a chunk. *)
Record MinimalEvent := mkMinimalEvent {
  timestamp : string;
  eventId : option string;
  userId : string;
  paymentErrorReason : option string;
  merchant_id : option string;
  customerId : option string;
  storeState : option string;
  storeId : option string
}.

Module Extract.

Definition noUser : User := mkUser None None None.

(** [user.id || user.email || user.ip_address || 'anonymous']. *)
Definition resolveUserId (user : User) : string :=
  Js.orDefault
    (Js.or (user_id user) (Js.or (user_email user) (user_ip_address user)))
    "anonymous".

Definition setReason (v : string) (m : MinimalEvent) : MinimalEvent :=
  mkMinimalEvent (timestamp m) (eventId m) (userId m) (Some v)
    (merchant_id m) (customerId m) (storeState m) (storeId m).
Definition setMerchant (v : option string) (m : MinimalEvent) : MinimalEvent :=
  mkMinimalEvent (timestamp m) (eventId m) (userId m) (paymentErrorReason m)
    v (customerId m) (storeState m) (storeId m).
Definition setCustomer (v : option string) (m : MinimalEvent) : MinimalEvent :=
  mkMinimalEvent (timestamp m) (eventId m) (userId m) (paymentErrorReason m)
    (merchant_id m) v (storeState m) (storeId m).
Definition setStoreState (v : option string) (m : MinimalEvent) : MinimalEvent :=
  mkMinimalEvent (timestamp m) (eventId m) (userId m) (paymentErrorReason m)
    (merchant_id m) (customerId m) v (storeId m).
Definition setStoreId (v : option string) (m : MinimalEvent) : MinimalEvent :=
  mkMinimalEvent (timestamp m) (eventId m) (userId m) (paymentErrorReason m)
    (merchant_id m) (customerId m) (storeState m) v.

(** The tag loop of a payment error: every tag is visited, a later tag
    of the same key overwrites an earlier one. *)
Fixpoint errorTags (tags : list Tag) (m : MinimalEvent) : MinimalEvent :=
  match tags with
  | [] => m
  | tag :: rest =>
      let k := tag_key tag in
      let m' :=
        if String.eqb k "paymentErrorReason" then
          setReason (Js.orDefault (tag_value tag) "Unknown") m
        else if String.eqb k "merchant_id" then setMerchant (tag_value tag) m
        else if String.eqb k "customerId" then setCustomer (tag_value tag) m
        else if String.eqb k "storeState" then setStoreState (tag_value tag) m
        else if String.eqb k "storeId" then setStoreId (tag_value tag) m
        else m in
      errorTags rest m'
  end.

(** The tag loop of a payment success: it stops at the first
    [merchant_id] tag. *)
Fixpoint successTags (tags : list Tag) (m : MinimalEvent) : MinimalEvent :=
  match tags with
  | [] => m
  | tag :: rest =>
      if String.eqb (tag_key tag) "merchant_id" then
        setMerchant (Some (Js.orDefault (tag_value tag) "Unknown")) m
      else successTags rest m
  end.

(** [extractMinimalEventData(event, issueType)]; [now] is the value of
    [new Date().toISOString()]. *)
Definition extractMinimalEventData (now : string) (event : RawEvent)
    (issueType : string) : MinimalEvent :=
  let user := match ev_user event with Some u => u | None => noUser end in
  let userId := resolveUserId user in
  let minimalEvent :=
    mkMinimalEvent
      (Js.orDefault (Js.or (ev_dateCreated event) (ev_dateReceived event)) now)
      (Js.or (ev_id event) (ev_eventID event))
      userId None None None None None in
  let tags := match ev_tags event with Some l => l | None => [] end in
  if String.eqb issueType "payment_error" then errorTags tags minimalEvent
  else if String.eqb issueType "payment_success" then successTags tags minimalEvent
  else minimalEvent.

End Extract.

(* ===================================================================== *)
(** ** The chunk store *)
(* ===================================================================== *)

(** The record [saveChunk] serialises into a chunk file. *)
Record ChunkData := mkChunkData {
  fetchDate : string;
  issueId : string;
  issueName : string;
  dateRangeStart : string;
  dateRangeEnd : string;
  totalEvents : nat;
  events : list MinimalEvent
}.

(** What a file holds: the JSON of a chunk record, or anything else (on
    which the reader's [JSON.parse] or its walk over [events] throws). *)
Inductive File :=
| Chunk (c : ChunkData)
| Other (content : string).

(** A directory lists its entries in the order in which [readdirSync]
    returns them; every name occurs once. *)
Abbreviation Dir := (list (string * File)).

(** The file system: the directories that exist, by path. *)
Abbreviation FS := (gmap string Dir).

(** A chunk file found on disk. *)
Record ChunkRef := mkChunkRef {
  c_filename : string;
  c_path : string;
  c_start : string;
  c_end : string
}.

Module Store.

Definition RAW_DIR : string := "data/raw".

(** [path.join(a, b)] for the paths of this program: [b] holds no
    separator. *)
Definition join (a b : string) : string := a +:+ "/" +:+ b.

Definition toLower (c : ascii) : ascii :=
  let n := nat_of_ascii c in
  if (65 <=? n)%nat && (n <=? 90)%nat then ascii_of_nat (n + 32) else c.

Definition isSpace (c : ascii) : bool :=
  let n := nat_of_ascii c in
  ((9 <=? n)%nat && (n <=? 13)%nat) || (n =? 32)%nat.

(** [s.toLowerCase().replace(/\s+/g, '_')]: [inRun] tells that the
    previous character was white space. *)
Fixpoint slug (inRun : bool) (s : string) : string :=
  match s with
  | EmptyString => EmptyString
  | String c r =>
      if isSpace c then
        if inRun then slug true r else String "_" (slug true r)
      else String (toLower c) (slug false r)
  end.

(** [getChunkDir(issueId, issueName)]. *)
Definition getChunkDir (issueId issueName : string) : string :=
  join RAW_DIR (slug false issueName +:+ "_" +:+ issueId).

Definition chunkName (startDate endDate : string) : string :=
  startDate +:+ "_to_" +:+ endDate +:+ ".json".

(** [getChunkFilename(chunkDir, startDate, endDate)]. *)
Definition getChunkFilename (chunkDir startDate endDate : string) : string :=
  join chunkDir (chunkName startDate endDate).

(** A string of the shape [\d{4}-\d{2}-\d{2}]. *)
Definition isDateStr (s : string) : bool :=
  match list_ascii_of_string s with
  | [y1; y2; y3; y4; h1; m1; m2; h2; d1; d2] =>
      Js.isDigit y1 && Js.isDigit y2 && Js.isDigit y3 && Js.isDigit y4
      && Ascii.eqb h1 "-" && Js.isDigit m1 && Js.isDigit m2
      && Ascii.eqb h2 "-" && Js.isDigit d1 && Js.isDigit d2
  | _ => false
  end.

(** [f.match(/^(\d{4}-\d{2}-\d{2})_to_(\d{4}-\d{2}-\d{2})\.json$/)]:
    the two captured groups. *)
Definition matchChunkName (f : string) : option (string * string) :=
  let a := substring 0 10 f in
  let b := substring 14 10 f in
  if (String.length f =? 29)%nat && isDateStr a
     && String.eqb (substring 10 4 f) "_to_" && isDateStr b
     && String.eqb (substring 24 5 f) ".json"
  then Some (a, b) else None.

(** [fs.readdirSync(dir)]. *)
Definition readdir (d : Dir) : list string := map fst d.

(** [fs.readFileSync(path)] of an entry of the directory. *)
Fixpoint readFile (name : string) (d : Dir) : option File :=
  match d with
  | [] => None
  | (n, c) :: rest => if String.eqb n name then Some c else readFile name rest
  end.

(** [fs.writeFileSync(path, data)] into a directory: the file is
    replaced when it exists and created at its place by name otherwise. *)
Fixpoint writeFile (name : string) (c : File) (d : Dir) : Dir :=
  match d with
  | [] => [(name, c)]
  | (n, c') :: rest =>
      match String.compare name n with
      | Eq => (name, c) :: rest
      | Lt => (name, c) :: d
      | Gt => (n, c') :: writeFile name c rest
      end
  end.

(** [ensureDir(dir)]: the directory is created when it does not exist.
    Its parents, [data] and [data/raw], hold no chunk and are not in the
    map. *)
Definition ensureDir (fs : FS) (dir : string) : FS :=
  match fs !! dir with
  | Some _ => fs
  | None => <[dir := []]> fs
  end.

(** [loadExistingChunks(issueId, issueName)]. *)
Definition loadExistingChunks (fs : FS) (issueId issueName : string)
    : list ChunkRef :=
  let chunkDir := getChunkDir issueId issueName in
  match fs !! chunkDir with
  | None => []
  | Some d =>
      let files := readdir d in
      omap (fun f =>
              match matchChunkName f with
              | Some (a, b) => Some (mkChunkRef f (join chunkDir f) a b)
              | None => None
              end)
           (List.filter (fun f => Js.endsWith f ".json") files)
  end.

(** [saveChunk(issueId, issueName, startDate, endDate, events)]; [now]
    is the value of [new Date().toISOString()]. *)
Definition saveChunk (now : string) (fs : FS)
    (issueId issueName startDate endDate : string)
    (events : list MinimalEvent) : FS :=
  let chunkDir := getChunkDir issueId issueName in
  let fs := ensureDir fs chunkDir in
  let chunkData :=
    mkChunkData now issueId issueName startDate endDate
      (List.length events) events in
  let d := default [] (fs !! chunkDir) in
  <[chunkDir := writeFile (chunkName startDate endDate) (Chunk chunkData) d]> fs.

End Store.

(* ===================================================================== *)
(** ** The fetcher *)
(* ===================================================================== *)

(** What [fetchWithPagination(url, headers)] settles to: the promise is
    rejected (network error, body that is not JSON), or it resolves to the
    parsed body and the URL that the [rel="next"] pattern captures in the
    [Link] header.  [data] is [None] for a body that is not an array of
    event objects, over which the [for ... of] loop throws. *)
Inductive Response :=
| Rejected
| Resolved (data : option (list RawEvent)) (next : option string).

(** How the [try] block of [fetchDateRangeChunk] ends. *)
Inductive Fetched :=
| Completed (allEvents : list MinimalEvent)
| Failed.

Module Fetcher.
Import Date Planner Store Extract.

Definition hexDigit (n : nat) : ascii :=
  if (n <? 10)%nat then ascii_of_nat (48 + n) else ascii_of_nat (55 + n).

Definition unreserved (c : ascii) : bool :=
  let n := nat_of_ascii c in
  ((48 <=? n)%nat && (n <=? 57)%nat) || ((65 <=? n)%nat && (n <=? 90)%nat)
  || ((97 <=? n)%nat && (n <=? 122)%nat)
  || existsb (Ascii.eqb c) ["-"; "_"; "."; "!"; "~"; "*"; "'"; "("; ")"]%char.

(** [encodeURIComponent(s)], on the bytes of [s]. *)
Fixpoint encodeURIComponent (s : string) : string :=
  match s with
  | EmptyString => EmptyString
  | String c r =>
      if unreserved c then String c (encodeURIComponent r)
      else
        let n := nat_of_ascii c in
        String "%" (String (hexDigit (n / 16)) (String (hexDigit (n mod 16))
          (encodeURIComponent r)))
  end.

Section Upstream.

(** [new Date(s)] on a string: its time value, [None] for an invalid
    date. *)
Variable Date_parse : string -> option Date.t.
(** [ORGANIZATION_SLUG], and the clock read by
    [new Date().toISOString()]. *)
Variable ORGANIZATION_SLUG : string.
Variable now : string.
(** The event search API, by URL. *)
Variable upstream : string -> Response.

(** The body of the [for (const event of data)] loop, over one page.
    [None]: [formatDate] threw on an invalid date. *)
Fixpoint pageEvents (issueType startDate endDate : string)
    (data : list RawEvent) (allEvents : list MinimalEvent)
    : option (list MinimalEvent) :=
  match data with
  | [] => Some allEvents
  | event :: rest =>
      let eventDate := Js.or (ev_dateCreated event) (ev_dateReceived event) in
      if Js.truthy eventDate then
        match Date_parse (default "" eventDate) with
        | None => None
        | Some eventDateObj =>
            let eventDateStr := formatDate eventDateObj in
            if Js.ge eventDateStr startDate && Js.le eventDateStr endDate then
              let minimalEvent := extractMinimalEventData now event issueType in
              pageEvents issueType startDate endDate rest
                (allEvents ++ [minimalEvent])
            else pageEvents issueType startDate endDate rest allEvents
        end
      else pageEvents issueType startDate endDate rest allEvents
  end.

(** The [while (currentUrl)] loop inside the [try]; [calls] logs the
    URLs given to [fetchWithPagination]. *)
Fixpoint fetchPages (fuel : nat) (issueType startDate endDate : string)
    (currentUrl : string) (allEvents : list MinimalEvent)
    (calls : list string) : option (Fetched * list string) :=
  match fuel with
  | O => None
  | S fuel' =>
      let calls := calls ++ [currentUrl] in
      match upstream currentUrl with
      | Rejected => Some (Failed, calls)
      | Resolved None _ => Some (Failed, calls)
      | Resolved (Some data) linkNext =>
          match pageEvents issueType startDate endDate data allEvents with
          | None => Some (Failed, calls)
          | Some allEvents =>
              if (List.length data =? 0)%nat then Some (Completed allEvents, calls)
              else if Js.truthy linkNext then
                fetchPages fuel' issueType startDate endDate
                  (default "" linkNext) allEvents calls
              else Some (Completed allEvents, calls)
          end
      end
  end.

Definition chunkUrl (issueId startDate endDate : string) : string :=
  let startISO := startDate +:+ "T00:00:00Z" in
  let endISO := endDate +:+ "T23:59:59Z" in
  "https://sentry.io/api/0/organizations/" +:+ ORGANIZATION_SLUG
  +:+ "/issues/" +:+ issueId +:+ "/events/?full=true&start="
  +:+ encodeURIComponent startISO +:+ "&end=" +:+ encodeURIComponent endISO.

(** The [try] block of [fetchDateRangeChunk]. *)
Definition tryFetch (fuel : nat) (issueId issueType startDate endDate : string)
    : option (Fetched * list string) :=
  fetchPages fuel issueType startDate endDate
    (chunkUrl issueId startDate endDate) [] [].

(** [fetchDateRangeChunk(issueId, issueName, issueType, startDate,
    endDate)]: the events it returns and the calls it made.  The
    [catch] turns a failure into an empty list. *)
Definition fetchDateRangeChunk (fuel : nat)
    (issueId issueName issueType startDate endDate : string)
    : option (list MinimalEvent * list string) :=
  match tryFetch fuel issueId issueType startDate endDate with
  | None => None
  | Some (Completed allEvents, calls) => Some (allEvents, calls)
  | Some (Failed, calls) => Some ([], calls)
  end.

Definition rangeKey (startDate endDate : string) : string :=
  startDate +:+ "_to_" +:+ endDate.

(** [new Set(existingChunks.map(c => `${c.start}_to_${c.end}`))]. *)
Definition existingRanges (existingChunks : list ChunkRef) : gset string :=
  list_to_set (map (fun c => rangeKey (c_start c) (c_end c)) existingChunks).

(** [allRanges.filter(r => !existingRanges.has(`${r.start}_to_${r.end}`))]. *)
Definition missingRanges (allRanges : list DateRange)
    (existingChunks : list ChunkRef) : list DateRange :=
  List.filter
    (fun r => negb (bool_decide
                      (rangeKey (r_start r) (r_end r) ∈ existingRanges existingChunks)))
    allRanges.

(** The [for] loop over [missingRanges]. *)
Fixpoint fetchEach (fuel : nat) (fs : FS) (issueId issueName issueType : string)
    (missing : list DateRange) (calls : list string)
    : option (FS * list string) :=
  match missing with
  | [] => Some (fs, calls)
  | range :: rest =>
      match fetchDateRangeChunk fuel issueId issueName issueType
              (r_start range) (r_end range) with
      | None => None
      | Some (events, made) =>
          let fs :=
            if (0 <? List.length events)%nat then
              saveChunk now fs issueId issueName (r_start range) (r_end range) events
            else
              saveChunk now fs issueId issueName (r_start range) (r_end range) [] in
          fetchEach fuel fs issueId issueName issueType rest (calls ++ made)
      end
  end.

(** [fetchMissingChunks(issueId, issueName, issueType, startDate,
    endDate)]; [startDate] and [endDate] are the values of
    [parseDate] on the two date strings.  The result is the file system
    after the run and the upstream calls of the run. *)
Definition fetchMissingChunks (fuel : nat) (fs : FS)
    (issueId issueName issueType : string) (startDate endDate : Date.t)
    : option (FS * list string) :=
  match getDateRanges fuel startDate endDate CHUNK_DAYS with
  | None => None
  | Some allRanges =>
      let existingChunks := loadExistingChunks fs issueId issueName in
      let missing := missingRanges allRanges existingChunks in
      if (List.length missing =? 0)%nat then Some (fs, [])
      else fetchEach fuel fs issueId issueName issueType missing []
  end.

End Upstream.

End Fetcher.

(* ===================================================================== *)
(** ** The reader *)
(* ===================================================================== *)

Module Reader.
Import Store.

Definition inRange (startDate endDate : string) (event : MinimalEvent) : bool :=
  let eventDate := Js.beforeT (timestamp event) in
  Js.ge eventDate startDate && Js.le eventDate endDate.

(** The [for (const file of files)] loop; [None] when reading a chunk
    throws. *)
Fixpoint loadFiles (d : Dir) (startDate endDate : string) (files : list string)
    (allEvents : list MinimalEvent) : option (list MinimalEvent) :=
  match files with
  | [] => Some allEvents
  | file :: rest =>
      match matchChunkName file with
      | None => loadFiles d startDate endDate rest allEvents
      | Some (chunkStart, chunkEnd) =>
          if Js.ge chunkEnd startDate && Js.le chunkStart endDate then
            match readFile file d with
            | Some (Chunk chunkData) =>
                loadFiles d startDate endDate rest
                  (allEvents ++ List.filter (inRange startDate endDate) (events chunkData))
            | _ => None
            end
          else loadFiles d startDate endDate rest allEvents
      end
  end.

(** [loadChunksInDateRange(issueId, issueName, startDate, endDate)]. *)
Definition loadChunksInDateRange (fs : FS)
    (issueId issueName startDate endDate : string)
    : option (list MinimalEvent) :=
  let chunkDir := getChunkDir issueId issueName in
  match fs !! chunkDir with
  | None => Some []
  | Some d =>
      let files := List.filter (fun f => Js.endsWith f ".json") (readdir d) in
      loadFiles d startDate endDate files []
  end.

End Reader.

(* ===================================================================== *)
(** ** The payment error aggregator *)
(* ===================================================================== *)

(** One entry of [reasonData]. *)
Record Bucket := mkBucket { b_count : nat; b_users : gset string }.

(** One row of the result. *)
Record ReasonRow := mkRow { reason : string; count : nat; uniqueUsers : nat }.

Module Aggregate.

Definition invalidCardNumberKey : string := "Invalid card number (grouped)".

(** An object created by [{}] and used as a map: its own properties in
    the order of their creation.  Reads also see the properties of
    [Object.prototype]. *)
Abbreviation JsObject := (list (string * Bucket)).

Definition objectPrototypeNames : list string :=
  [ "constructor"; "__defineGetter__"; "__defineSetter__"; "hasOwnProperty";
    "__lookupGetter__"; "__lookupSetter__"; "isPrototypeOf";
    "propertyIsEnumerable"; "toString"; "valueOf"; "__proto__";
    "toLocaleString" ].

Definition inherited (k : string) : bool :=
  existsb (String.eqb k) objectPrototypeNames.

Fixpoint getOwn (o : JsObject) (k : string) : option Bucket :=
  match o with
  | [] => None
  | (k', b) :: rest => if String.eqb k' k then Some b else getOwn rest k
  end.

(** [o[k] = b]: an own property keeps its place, a new one goes last. *)
Fixpoint setOwn (o : JsObject) (k : string) (b : Bucket) : JsObject :=
  match o with
  | [] => [(k, b)]
  | (k', b') :: rest =>
      if String.eqb k' k then (k, b) :: rest else (k', b') :: setOwn rest k b
  end.

Fixpoint allDigits (s : string) : bool :=
  match s with
  | EmptyString => true
  | String c r => Js.isDigit c && allDigits r
  end.

Fixpoint decimal (acc : N) (s : string) : N :=
  match s with
  | EmptyString => acc
  | String c r => decimal (acc * 10 + N.of_nat (nat_of_ascii c - 48)) r
  end.

(** A property name that is an array index: the canonical decimal form
    of an integer from 0 to 2^32 - 2. *)
Definition arrayIndex (k : string) : option N :=
  match k with
  | EmptyString => None
  | String c r =>
      if allDigits k && (negb (Ascii.eqb c "0") || String.eqb r "") then
        let n := decimal 0 k in
        if (n <=? 4294967294)%N then Some n else None
      else None
  end.

Fixpoint insertIndexed {A} (n : N) (x : A) (l : list (N * A)) : list (N * A) :=
  match l with
  | [] => [(n, x)]
  | (m, y) :: rest =>
      if (n <? m)%N then (n, x) :: l else (m, y) :: insertIndexed n x rest
  end.

(** The array-index properties of an object, by ascending index. *)
Fixpoint indexed (o : JsObject) : list (N * (string * Bucket)) :=
  match o with
  | [] => []
  | (k, b) :: rest =>
      match arrayIndex k with
      | Some n => insertIndexed n (k, b) (indexed rest)
      | None => indexed rest
      end
  end.

Definition named (o : JsObject) : JsObject :=
  List.filter (fun kb => match arrayIndex (fst kb) with Some _ => false | None => true end) o.

(** [Object.entries(o)]: array indices in ascending order, then the
    other names in the order of their creation. *)
Definition Object_entries (o : JsObject) : list (string * Bucket) :=
  map snd (indexed o) ++ named o.

(** [results.sort((a, b) => b.count - a.count)]: the sort is stable, so
    its result is that of a stable insertion sort. *)
Fixpoint insertRow (x : ReasonRow) (l : list ReasonRow) : list ReasonRow :=
  match l with
  | [] => [x]
  | y :: rest =>
      if (count y <=? count x)%nat then x :: l else y :: insertRow x rest
  end.

Fixpoint sortRows (l : list ReasonRow) : list ReasonRow :=
  match l with
  | [] => []
  | x :: rest => insertRow x (sortRows rest)
  end.

(** The reason an event counts under. *)
Definition reasonOf (event : MinimalEvent) : string :=
  let reason := Js.orDefault (paymentErrorReason event) "Unknown" in
  if Js.endsWith reason "is not a valid card number" then invalidCardNumberKey
  else reason.

Definition bump (b : Bucket) (user : string) : Bucket :=
  mkBucket (S (b_count b)) ({[user]} ∪ b_users b).

(** The [for (const event of events)] loop.  [None]: a [TypeError] is
    thrown, which happens when the reason names a property of
    [Object.prototype]: [reasonData[reason]] is then truthy and has no
    [users]. *)
Fixpoint collect (events : list MinimalEvent) (reasonData : JsObject)
    : option JsObject :=
  match events with
  | [] => Some reasonData
  | event :: rest =>
      let reason := reasonOf event in
      match getOwn reasonData reason with
      | Some b => collect rest (setOwn reasonData reason (bump b (userId event)))
      | None =>
          if inherited reason then None
          else
            collect rest
              (setOwn reasonData reason (bump (mkBucket 0 ∅) (userId event)))
      end
  end.

(** [processPaymentErrors(events)]. *)
Definition processPaymentErrors (events : list MinimalEvent)
    : option (list ReasonRow) :=
  match collect events [] with
  | None => None
  | Some reasonData =>
      let results :=
        map (fun '(reason, data) => mkRow reason (b_count data) (size (b_users data)))
            (Object_entries reasonData) in
      Some (sortRows results)
  end.

End Aggregate.

(* ===================================================================== *)
(** ** Strings and dates *)
(* ===================================================================== *)

Section StringFacts.

Lemma ascii_compare_refl c : Ascii.compare c c = Eq.
Proof. unfold Ascii.compare. apply N.compare_refl. Qed.

Lemma ascii_compare_lt_trans a b c :
  Ascii.compare a b = Lt -> Ascii.compare b c = Lt -> Ascii.compare a c = Lt.
Proof.
  unfold Ascii.compare. rewrite !N.compare_lt_iff. apply N.lt_trans.
Qed.

Lemma string_compare_refl s : String.compare s s = Eq.
Proof. induction s as [|c s IH]; simpl; [easy|]. now rewrite ascii_compare_refl. Qed.

Lemma string_compare_lt_trans a : forall b c,
  String.compare a b = Lt -> String.compare b c = Lt -> String.compare a c = Lt.
Proof.
  induction a as [|x a IH]; intros [|y b] [|z c]; simpl; try easy.
  destruct (Ascii.compare x y) eqn:Exy; try easy;
    destruct (Ascii.compare y z) eqn:Eyz; try easy; intros H1 H2.
  - apply Ascii.compare_eq_iff in Exy, Eyz; subst.
    rewrite ascii_compare_refl. eauto.
  - apply Ascii.compare_eq_iff in Exy; subst. now rewrite Eyz.
  - apply Ascii.compare_eq_iff in Eyz; subst. now rewrite Exy.
  - now rewrite (ascii_compare_lt_trans _ _ _ Exy Eyz).
Qed.


Lemma string_leb_refl s : String.leb s s = true.
Proof. unfold String.leb. now rewrite string_compare_refl. Qed.

(** Two strings that start with prefixes of one length compare as
    their prefixes do, unless these are equal. *)
Lemma string_compare_app a : forall b r1 r2,
  String.length a = String.length b ->
  String.compare (a +:+ r1) (b +:+ r2) =
    match String.compare a b with
    | Eq => String.compare r1 r2
    | c => c
    end.
Proof.
  induction a as [|x a IH]; intros [|y b] r1 r2 Hlen; simpl in *; try easy.
  destruct (Ascii.compare x y); try easy. apply IH. congruence.
Qed.

Lemma string_app_assoc a : forall b c, (a +:+ b) +:+ c = a +:+ (b +:+ c).
Proof. induction a as [|x a IH]; intros; simpl; [easy|]. now rewrite IH. Qed.

Lemma string_length_app a : forall b,
  String.length (a +:+ b) = (String.length a + String.length b)%nat.
Proof. induction a as [|x a IH]; intros; simpl; [easy|]. now rewrite IH. Qed.

End StringFacts.

Module DateFacts.
Import Date.

Lemma dayOf_addDays date n : dayOf (addDays date n) = dayOf date + n.
Proof.
  unfold dayOf, addDays. apply Z.div_add. unfold msPerDay. lia.
Qed.

Lemma dayOf_mono a b : a <= b -> dayOf a <= dayOf b.
Proof. intros H. unfold dayOf. apply Z.div_le_mono; [unfold msPerDay; lia | exact H]. Qed.

(** Years 0 to 9999 are the days from [firstDay] to [lastDay]. *)
Lemma civil_year day :
  firstDay <= day <= lastDay -> 0 <= fst (fst (civil day)) <= 9999.
Proof.
  unfold firstDay, lastDay. intros H. unfold civil.
  set (z := day + 719468).
  set (era := z / 146097).
  set (doe := z - era * 146097).
  set (yoe := (doe - doe / 1460 + doe / 36524 - doe / 146096) / 365).
  set (doy := doe - (365 * yoe + yoe / 4 - yoe / 100)).
  set (mp := (5 * doy + 2) / 153).
  cbv zeta. simpl fst.
  assert (Hdoe : 0 <= doe <= 146096)
    by (subst doe era; Z.to_euclidean_division_equations; lia).
  assert (Hera : -1 <= era <= 24)
    by (subst era z; Z.to_euclidean_division_equations; lia).
  assert (Hyoe : 0 <= yoe <= 399)
    by (subst yoe; clearbody doe; Z.to_euclidean_division_equations; lia).
  assert (Hlo : era = -1 -> 146037 <= doe)
    by (subst doe era z; Z.to_euclidean_division_equations; lia).
  assert (Hhi : era = 24 -> doe <= 146036)
    by (subst doe era z; Z.to_euclidean_division_equations; lia).
  assert (Hlo' : 146037 <= doe -> yoe = 399 /\ 306 <= doy)
    by (subst doy yoe; clearbody doe; Z.to_euclidean_division_equations; lia).
  assert (Hhi' : doe <= 146036 -> yoe = 399 -> doy <= 305)
    by (subst doy yoe; clearbody doe; Z.to_euclidean_division_equations; lia).
  assert (Hmp1 : 306 <= doy -> 10 <= mp)
    by (subst mp; clearbody doy; Z.to_euclidean_division_equations; lia).
  assert (Hmp2 : doy <= 305 -> mp < 10)
    by (subst mp; clearbody doy; Z.to_euclidean_division_equations; lia).
  assert (Hmp3 : 0 <= doy <= 365 -> 0 <= mp <= 11)
    by (subst mp; clearbody doy; Z.to_euclidean_division_equations; lia).
  assert (Hdoy : 0 <= doy <= 365)
    by (subst doy yoe; clearbody doe; Z.to_euclidean_division_equations; lia).
  clearbody mp doy yoe doe era.
  destruct (Z.ltb_spec mp 10); destruct (Z.leb_spec (mp + 3) 2);
    destruct (Z.leb_spec (mp - 9) 2); lia.
Qed.

(** Months run from 1 to 12 and days from 1 to 31, so that two digits
    print them. *)
Lemma civil_month_day day :
  let '(_, m, d) := civil day in 1 <= m <= 12 /\ 1 <= d <= 31.
Proof.
  unfold civil.
  set (z := day + 719468).
  set (era := z / 146097).
  set (doe := z - era * 146097).
  set (yoe := (doe - doe / 1460 + doe / 36524 - doe / 146096) / 365).
  set (doy := doe - (365 * yoe + yoe / 4 - yoe / 100)).
  set (mp := (5 * doy + 2) / 153).
  cbv zeta.
  assert (Hdoe : 0 <= doe <= 146096)
    by (subst doe era; Z.to_euclidean_division_equations; lia).
  assert (Hdoy : 0 <= doy <= 365)
    by (subst doy yoe; clearbody doe; Z.to_euclidean_division_equations; lia).
  assert (Hmp : 0 <= mp <= 11)
    by (subst mp; clearbody doy; Z.to_euclidean_division_equations; lia).
  assert (Hd : 1 <= doy - (153 * mp + 2) / 5 + 1 <= 31)
    by (subst mp; clearbody doy; Z.to_euclidean_division_equations; lia).
  split; [|exact Hd]. clearbody mp. destruct (Z.ltb_spec mp 10); lia.
Qed.

Lemma digitChar_isDigit n : Js.isDigit (digitChar (n mod 10)) = true.
Proof.
  assert (H : 0 <= n mod 10 < 10) by (apply Z.mod_pos_bound; lia).
  assert (E : exists k, (k < 10)%nat /\ n mod 10 = Z.of_nat k).
  { exists (Z.to_nat (n mod 10)). lia. }
  destruct E as (k & Hk & ->). unfold digitChar. rewrite Nat2Z.id.
  do 10 (destruct k as [|k]; [reflexivity|]). lia.
Qed.

Lemma digits_chars k : forall n,
  exists l, list_ascii_of_string (digits k n) = l /\ List.length l = k
            /\ Forall (fun c => Js.isDigit c = true) l.
Proof.
  induction k as [|k IH]; intros n; simpl.
  - exists []. repeat split; constructor.
  - destruct (IH (n / 10)) as (l & Hl & Hlen & Hall).
    exists (l ++ [digitChar (n mod 10)]). repeat split.
    + rewrite <- Hl. clear. generalize (digits k (n / 10)).
      induction s as [|c s IHs]; simpl; [easy|]. now rewrite IHs.
    + rewrite length_app. simpl. lia.
    + apply Forall_app. split; [easy|]. constructor; [|constructor].
      apply digitChar_isDigit.
Qed.

Lemma list_ascii_app a : forall b,
  list_ascii_of_string (a +:+ b) = list_ascii_of_string a ++ list_ascii_of_string b.
Proof. induction a as [|c a IH]; intros; simpl; [easy|]. now rewrite IH. Qed.

(** A date of a four digit year is printed in the shape
    [\d{4}-\d{2}-\d{2}]. *)
Lemma formatDate_shape date :
  fourDigitYear date -> Store.isDateStr (formatDate date) = true.
Proof.
  intros H. apply civil_year in H. unfold formatDate.
  destruct (civil (dayOf date)) as [[y m] d]. simpl in H.
  unfold isoYear.
  replace ((0 <=? y) && (y <=? 9999)) with true
    by (symmetry; apply andb_true_iff; split; apply Z.leb_le; lia).
  unfold Store.isDateStr. rewrite !list_ascii_app.
  destruct (digits_chars 4 y) as (ly & -> & Hly & Hy).
  destruct (digits_chars 2 m) as (lm & -> & Hlm & Hm).
  destruct (digits_chars 2 d) as (ld & -> & Hld & Hd).
  do 5 (destruct ly as [|? ly]; try discriminate Hly).
  do 3 (destruct lm as [|? lm]; try discriminate Hlm).
  do 3 (destruct ld as [|? ld]; try discriminate Hld).
  repeat match goal with H : Forall _ (_ :: _) |- _ => inversion_clear H end.
  simpl. repeat match goal with H : Js.isDigit _ = true |- _ => rewrite H; clear H end.
  reflexivity.
Qed.

End DateFacts.

(* ===================================================================== *)
(** ** The window planner *)
(* ===================================================================== *)

Module PlannerFacts.
Import Date Planner DateFacts.

(** The ranges are the formatted windows. *)
Lemma getDateRangesFrom_windows fuel : forall currentStart endDate chunkDays,
  getDateRangesFrom fuel currentStart endDate chunkDays =
  option_map (map formatWindow) (windowsFrom fuel currentStart endDate chunkDays).
Proof.
  induction fuel as [|fuel IH]; intros; simpl; [reflexivity|].
  destruct (currentStart <? endDate); [|reflexivity].
  rewrite IH. now destruct (windowsFrom fuel _ _ _).
Qed.

(** More fuel does not change a result. *)
Lemma windowsFrom_fuel fuel : forall fuel' currentStart endDate chunkDays ws,
  windowsFrom fuel currentStart endDate chunkDays = Some ws ->
  (fuel <= fuel')%nat ->
  windowsFrom fuel' currentStart endDate chunkDays = Some ws.
Proof.
  induction fuel as [|fuel IH]; intros fuel' cs e d ws H Hle; [discriminate|].
  destruct fuel' as [|fuel']; [lia|]. simpl in *.
  destruct (cs <? e); [|exact H].
  destruct (windowsFrom fuel _ _ _) as [ws'|] eqn:E; [|discriminate].
  erewrite IH; eauto. lia.
Qed.

(** The [i]-th window of size [d] from [startDate]. *)
Definition nthWindow (startDate : Date.t) (d : Z) (i : nat) : Date.t * Date.t :=
  (addDays startDate (Z.of_nat i * d), addDays startDate (Z.of_nat i * d + (d - 1))).

(** On a range of [k] times [d] days the loop runs [k] times and never
    truncates. *)
Lemma windowsFrom_multiple k : forall fuel currentStart endDate d,
  0 < d ->
  endDate - currentStart = Z.of_nat k * d * msPerDay ->
  (k < fuel)%nat ->
  windowsFrom fuel currentStart endDate d =
  Some (map (nthWindow currentStart d) (seq 0 k)).
Proof.
  induction k as [|k IH]; intros fuel cs e d Hd He Hfuel;
    (destruct fuel as [|fuel]; [lia|]); simpl.
  - replace (cs <? e) with false; [reflexivity|].
    symmetry. apply Z.ltb_ge. simpl in He. lia.
  - assert (Hkd : 0 <= Z.of_nat k * d) by nia.
    assert (Hexp : e - cs = Z.of_nat k * d * msPerDay + d * msPerDay) by lia.
    unfold msPerDay in *. unfold addDays, msPerDay.
    replace (cs <? e) with true by (symmetry; apply Z.ltb_lt; lia).
    replace (cs + (d - 1) * 86400000 >? e) with false
      by (symmetry; rewrite Z.gtb_ltb; apply Z.ltb_ge; lia).
    rewrite (IH fuel (cs + (d - 1) * 86400000 + 1 * 86400000) e d) by lia.
    f_equal. f_equal.
    + unfold nthWindow, addDays, msPerDay. f_equal; lia.
    + rewrite <- seq_shift, map_map. apply map_ext. intros i.
      unfold nthWindow, addDays, msPerDay. f_equal; lia.
Qed.

Lemma nthWindow_days startDate d i :
  dayOf (fst (nthWindow startDate d i)) = dayOf startDate + Z.of_nat i * d /\
  dayOf (snd (nthWindow startDate d i)) = dayOf startDate + Z.of_nat i * d + (d - 1).
Proof. unfold nthWindow. simpl. rewrite !dayOf_addDays. lia. Qed.

(** Every window of a run lies between the start and the end date, when
    the chunk size is positive. *)
Lemma windowsFrom_bounds fuel : forall currentStart endDate d ws,
  0 < d ->
  windowsFrom fuel currentStart endDate d = Some ws ->
  Forall (fun w => currentStart <= fst w <= endDate /\ currentStart <= snd w <= endDate) ws.
Proof.
  induction fuel as [|fuel IH]; intros cs e d ws Hd H; [discriminate|].
  simpl in H. destruct (Z.ltb_spec cs e) as [Hlt|Hge].
  - destruct (windowsFrom fuel _ _ _) as [ws'|] eqn:E; [|discriminate].
    injection H as <-. apply IH in E; [|exact Hd].
    assert (Hd' : 0 <= (d - 1) * msPerDay) by (unfold msPerDay; lia).
    constructor.
    + simpl. unfold addDays.
      destruct (Z.gtb_spec (cs + (d - 1) * msPerDay) e); lia.
    + eapply List.Forall_impl; [|exact E]. simpl. intros w.
      unfold addDays, msPerDay in *.
      destruct (Z.gtb_spec (cs + (d - 1) * 86400000) e); lia.
  - injection H as <-. constructor.
Qed.

Lemma windowsFrom_step fuel currentStart endDate d :
  windowsFrom (S fuel) currentStart endDate d =
  if currentStart <? endDate then
    let currentEnd := addDays currentStart (d - 1) in
    let currentEnd := if currentEnd >? endDate then endDate else currentEnd in
    match windowsFrom fuel (addDays currentEnd 1) endDate d with
    | Some ws => Some ((currentStart, currentEnd) :: ws)
    | None => None
    end
  else Some [].
Proof. reflexivity. Qed.

(** With a positive chunk size the loop ends: one iteration for each day
    of the range, at most, and one more for the last test. *)
Lemma windowsFrom_terminates fuel : forall currentStart endDate d,
  0 < d ->
  endDate - currentStart <= Z.of_nat fuel * msPerDay ->
  exists ws, windowsFrom (S fuel) currentStart endDate d = Some ws.
Proof.
  induction fuel as [|fuel IH]; intros cs e d Hd H.
  - simpl. replace (cs <? e) with false; [now exists []|].
    symmetry. apply Z.ltb_ge. lia.
  - rewrite windowsFrom_step. cbv zeta.
    destruct (Z.ltb_spec cs e) as [Hlt|Hge]; [|now exists []].
    set (currentEnd := if addDays cs (d - 1) >? e then e else addDays cs (d - 1)).
    destruct (IH (addDays currentEnd 1) e d Hd) as [ws Hws].
    { subst currentEnd. unfold addDays, msPerDay in *.
      destruct (Z.gtb_spec (cs + (d - 1) * 86400000) e); lia. }
    rewrite Hws. eauto.
Qed.

End PlannerFacts.

(* ===================================================================== *)
(** ** The chunk store *)
(* ===================================================================== *)

Module StoreFacts.
Import Store.

(** The names of a directory are listed in strictly ascending order. *)
Definition dirSorted (d : Dir) : Prop :=
  StronglySorted (fun x y => String.compare (fst x) (fst y) = Lt) d.

(** A date-shaped string has ten characters, none of them an
    underscore. *)
Definition dateChar (c : ascii) : bool := Js.isDigit c || Ascii.eqb c "-".

Fixpoint dateChars (s : string) : bool :=
  match s with
  | EmptyString => true
  | String c r => dateChar c && dateChars r
  end.

Tactic Notation "string_cases" ident(s) integer(n) :=
  do n (destruct s as [|? s]; [discriminate|]); destruct s; [|discriminate].

Lemma isDateStr_length s : isDateStr s = true -> String.length s = 10%nat.
Proof. unfold isDateStr. intros H. string_cases s 10. reflexivity. Qed.

Lemma isDateStr_chars s : isDateStr s = true -> dateChars s = true.
Proof.
  unfold isDateStr. intros H. string_cases s 10.
  cbn [list_ascii_of_string] in H. unfold dateChars, dateChar.
  repeat (apply andb_true_iff in H; destruct H as [H ?]).
  repeat match goal with E : _ = true |- _ => rewrite E; clear E end.
  unfold Js.isDigit at 1. rewrite H, H9. now rewrite ?orb_true_r.
Qed.

Lemma length_exact s n :
  String.length s = S n -> exists c r, s = String c r /\ String.length r = n.
Proof. destruct s as [|c r]; [discriminate|]. simpl. intros [= H]. eauto. Qed.

(** The pattern of chunk file names matches the names that
    [getChunkFilename] builds from two date-shaped strings, and only
    them. *)
Lemma matchChunkName_chunkName a b :
  isDateStr a = true -> isDateStr b = true ->
  matchChunkName (chunkName a b) = Some (a, b).
Proof.
  intros Ha Hb. unfold matchChunkName, chunkName.
  pose proof Ha as Ha'. pose proof Hb as Hb'.
  unfold isDateStr in Ha', Hb'.
  string_cases a 10. string_cases b 10. clear Ha' Hb'.
  cbn -[isDateStr]. rewrite Ha, Hb. reflexivity.
Qed.

Lemma matchChunkName_inv f a b :
  matchChunkName f = Some (a, b) ->
  f = chunkName a b /\ isDateStr a = true /\ isDateStr b = true.
Proof.
  unfold matchChunkName. intros H.
  destruct (String.length f =? 29)%nat eqn:Hlen; [|discriminate].
  destruct (isDateStr (substring 0 10 f)) eqn:Ha; [|discriminate].
  destruct (String.eqb (substring 10 4 f) "_to_") eqn:Hsep; [|discriminate].
  destruct (isDateStr (substring 14 10 f)) eqn:Hb; [|discriminate].
  destruct (String.eqb (substring 24 5 f) ".json") eqn:Hext; [|discriminate].
  simpl in H. injection H as <- <-. repeat split; try assumption.
  apply Nat.eqb_eq in Hlen. apply String.eqb_eq in Hsep, Hext.
  clear Ha Hb.
  do 29 (apply length_exact in Hlen; destruct Hlen as (? & ? & -> & Hlen)).
  match goal with E : String.length ?r = 0%nat |- _ =>
    destruct r; [clear E|discriminate E] end.
  simpl in Hsep, Hext. injection Hsep as -> -> -> ->.
  injection Hext as -> -> -> -> ->. reflexivity.
Qed.

Lemma matchChunkName_json f p :
  matchChunkName f = Some p -> Js.endsWith f ".json" = true.
Proof.
  unfold matchChunkName, Js.endsWith. intros H.
  destruct (String.length f =? 29)%nat eqn:Hlen; [|discriminate].
  apply Nat.eqb_eq in Hlen. rewrite Hlen.
  destruct (isDateStr (substring 0 10 f)); [|discriminate].
  destruct (String.eqb (substring 10 4 f) "_to_"); [|discriminate].
  destruct (isDateStr (substring 14 10 f)); [|discriminate].
  simpl in *. destruct (String.eqb (substring 24 5 f) ".json"); [reflexivity|discriminate].
Qed.

(** *** Writing and reading a directory *)

Lemma readdir_writeFile name c d n :
  In n (readdir (writeFile name c d)) <-> n = name \/ In n (readdir d).
Proof.
  unfold readdir. induction d as [|[m c'] d IH]; simpl.
  - intuition.
  - destruct (String.compare name m) eqn:E; simpl.
    + apply String.compare_eq_iff in E. subst. intuition.
    + intuition.
    + rewrite IH. intuition.
Qed.

Lemma readFile_writeFile name c d :
  readFile name (writeFile name c d) = Some c.
Proof.
  induction d as [|[m c'] d IH]; simpl.
  - now rewrite String.eqb_refl.
  - destruct (String.compare name m) eqn:E; simpl.
    + now rewrite String.eqb_refl.
    + now rewrite String.eqb_refl.
    + destruct (String.eqb_spec m name) as [->|Hne]; [|exact IH].
      rewrite string_compare_refl in E. discriminate.
Qed.

Lemma readFile_writeFile_other name c d n :
  n <> name -> readFile n (writeFile name c d) = readFile n d.
Proof.
  intros Hne. induction d as [|[m c'] d IH]; simpl.
  - destruct (String.eqb_spec name n); congruence.
  - destruct (String.compare name m) eqn:E; simpl.
    + apply String.compare_eq_iff in E. subst m.
      destruct (String.eqb_spec name n); congruence.
    + destruct (String.eqb_spec name n); congruence.
    + destruct (String.eqb_spec m n); congruence.
Qed.

Lemma readFile_In name d c : readFile name d = Some c -> In name (readdir d).
Proof.
  unfold readdir. induction d as [|[m c'] d IH]; simpl; [discriminate|].
  destruct (String.eqb_spec m name); intuition.
Qed.

Lemma In_readFile name d : In name (readdir d) -> exists c, readFile name d = Some c.
Proof.
  unfold readdir. induction d as [|[m c'] d IH]; simpl; [easy|].
  destruct (String.eqb_spec m name); intros [H|H]; eauto; congruence.
Qed.




End StoreFacts.

(* ===================================================================== *)
(** ** Claims about the window planner *)
(* ===================================================================== *)

Section PlannerClaims.
Import Date Planner DateFacts PlannerFacts.

(** A window as a set of calendar days, both ends included. *)
Definition spansDays (d : Z) (w : Date.t * Date.t) : Prop :=
  dayOf (snd w) - dayOf (fst w) + 1 = d.

Definition coversDay (day : Z) (w : Date.t * Date.t) : Prop :=
  dayOf (fst w) <= day <= dayOf (snd w).

(** Each window ends before every later window starts. *)
Definition disjointInOrder (ws : list (Date.t * Date.t)) : Prop :=
  forall i j w1 w2, (i < j)%nat ->
    nth_error ws i = Some w1 -> nth_error ws j = Some w2 ->
    dayOf (snd w1) < dayOf (fst w2).

(** The planner's result on a range whose length is a multiple of the
    chunk size, with the range read as including its end date. *)
Definition plansInclusiveRange (startDate endDate : Date.t) (d : Z) : Prop :=
  exists fuel ws,
    windowsFrom fuel startDate endDate d = Some ws
    /\ Z.of_nat (List.length ws) = (dayOf endDate - dayOf startDate) / d
    /\ Forall (spansDays d) ws
    /\ disjointInOrder ws
    /\ forall day, dayOf startDate <= day <= dayOf endDate ->
                   Exists (coversDay day) ws.

Lemma nth_error_windows startDate d k i w :
  nth_error (map (nthWindow startDate d) (seq 0 k)) i = Some w ->
  (i < k)%nat /\ w = nthWindow startDate d i.
Proof.
  rewrite nth_error_map, nth_error_seq.
  destruct (Nat.ltb_spec i k); simpl; [|discriminate].
  intros [= <-]. split; [assumption|reflexivity].
Qed.

Lemma In_windows startDate d k w :
  In w (map (nthWindow startDate d) (seq 0 k)) <->
  exists i, (i < k)%nat /\ w = nthWindow startDate d i.
Proof.
  rewrite in_map_iff. split.
  - intros (i & <- & Hi). apply in_seq in Hi. exists i. split; [lia|reflexivity].
  - intros (i & Hi & ->). exists i. split; [reflexivity|]. apply in_seq. lia.
Qed.

(** C2, as amended: on a range of [k] times [d] days the planner returns
    [k] windows of [d] days each, in order and disjoint, and the days
    they cover are those from the start date up to the day before the
    end date. *)
Theorem planner_exact_multiple (startDate endDate : Date.t) (d : Z) (k fuel : nat) :
  0 < d ->
  endDate - startDate = Z.of_nat k * d * msPerDay ->
  (k < fuel)%nat ->
  exists ws,
    windowsFrom fuel startDate endDate d = Some ws
    /\ getDateRanges fuel startDate endDate d = Some (map formatWindow ws)
    /\ List.length ws = k
    /\ Forall (spansDays d) ws
    /\ disjointInOrder ws
    /\ forall day, dayOf startDate <= day < dayOf endDate <->
                   Exists (coversDay day) ws.
Proof.
  intros Hd Hlen Hfuel.
  pose proof (windowsFrom_multiple k fuel startDate endDate d Hd Hlen Hfuel) as Hws.
  exists (map (nthWindow startDate d) (seq 0 k)).
  split; [exact Hws|]. split.
  { unfold getDateRanges. now rewrite getDateRangesFrom_windows, Hws. }
  split. { now rewrite length_map, length_seq. }
  assert (Hend : dayOf endDate = dayOf startDate + Z.of_nat k * d).
  { replace endDate with (addDays startDate (Z.of_nat k * d))
      by (unfold addDays; lia).
    apply dayOf_addDays. }
  split.
  { apply List.Forall_forall. intros w Hw. apply In_windows in Hw.
    destruct Hw as (i & _ & ->). unfold spansDays.
    destruct (nthWindow_days startDate d i) as [-> ->]. lia. }
  split.
  { intros i j w1 w2 Hij H1 H2.
    apply nth_error_windows in H1, H2.
    destruct H1 as [_ ->], H2 as [_ ->].
    destruct (nthWindow_days startDate d i) as [_ ->].
    destruct (nthWindow_days startDate d j) as [-> _]. nia. }
  intros day. rewrite Hend, List.Exists_exists. split.
  - intros Hday.
    set (q := (day - dayOf startDate) / d).
    assert (Hq : 0 <= q < Z.of_nat k /\ q * d <= day - dayOf startDate < q * d + d).
    { subst q. split.
      - split; [apply Z.div_pos; lia|]. apply Z.div_lt_upper_bound; nia.
      - pose proof (Z.mul_div_le (day - dayOf startDate) d Hd).
        pose proof (Z.mul_succ_div_gt (day - dayOf startDate) d Hd). nia. }
    exists (nthWindow startDate d (Z.to_nat q)). split.
    + apply In_windows. exists (Z.to_nat q). split; [lia|reflexivity].
    + unfold coversDay.
      destruct (nthWindow_days startDate d (Z.to_nat q)) as [-> ->].
      rewrite Z2Nat.id by lia. lia.
  - intros (w & Hw & Hcov). apply In_windows in Hw.
    destruct Hw as (i & Hi & ->). unfold coversDay in Hcov.
    destruct (nthWindow_days startDate d i) as [E1 E2].
    rewrite E1, E2 in Hcov. nia.
Qed.

(** A range of two chunks of seven days. *)
Lemma planner_exact_multiple_witness :
  exists ws,
    windowsFrom 3 0 (14 * msPerDay) 7 = Some ws
    /\ getDateRanges 3 0 (14 * msPerDay) 7 = Some (map formatWindow ws)
    /\ List.length ws = 2%nat
    /\ Forall (spansDays 7) ws
    /\ disjointInOrder ws
    /\ forall day, dayOf 0 <= day < dayOf (14 * msPerDay) <->
                   Exists (coversDay day) ws.
Proof.
  apply (planner_exact_multiple 0 (14 * msPerDay) 7 2 3);
    [lia | reflexivity | lia].
Defined.

(** C2, as stated, fails: from day 0 to day 7 with chunks of seven days
    the only window is day 0 to day 6, and day 7 is not covered. *)
Lemma planner_inclusive_counterexample :
  ~ plansInclusiveRange 0 (7 * msPerDay) 7.
Proof.
  intros (fuel & ws & Hws & _ & _ & _ & Hcov).
  assert (E : ws = [(0, 6 * msPerDay)]).
  { destruct fuel as [|[|fuel]]; try discriminate Hws.
    rewrite windowsFrom_step in Hws. cbv zeta in Hws.
    change (0 <? 7 * msPerDay) with true in Hws. cbv iota in Hws.
    change (addDays 0 (7 - 1) >? 7 * msPerDay) with false in Hws. cbv iota in Hws.
    rewrite windowsFrom_step in Hws.
    change (addDays (addDays 0 (7 - 1)) 1 <? 7 * msPerDay) with false in Hws.
    cbv iota in Hws. now injection Hws as <-. }
  subst ws. specialize (Hcov 7).
  apply List.Exists_exists in Hcov; [|vm_compute; split; discriminate].
  destruct Hcov as (w & [<-|[]] & Hw). vm_compute in Hw.
  destruct Hw as [_ Hw]. now apply Hw.
Qed.

(** The planner's result on a range of a single day as the claim reads
    it: one window. *)
Definition plansOneWindow (startDate : Date.t) (d : Z) : Prop :=
  exists fuel range, getDateRanges fuel startDate startDate d = Some [range].

(** C7, as amended: on a range whose end date is not after its start
    date, and so on every range of a single day, the loop test fails at
    once and the planner returns no window. *)
Theorem planner_single_day_empty (fuel : nat) (startDate endDate : Date.t) (d : Z) :
  endDate <= startDate ->
  getDateRanges (S fuel) startDate endDate d = Some []
  /\ windowsFrom (S fuel) startDate endDate d = Some [].
Proof.
  intros H. unfold getDateRanges. simpl.
  replace (startDate <? endDate) with false by (symmetry; apply Z.ltb_ge; lia).
  now split.
Qed.

(** The range of the single day 2025-09-09, in chunks of thirty days. *)
Lemma planner_single_day_empty_witness :
  getDateRanges 1 (20340 * msPerDay) (20340 * msPerDay) CHUNK_DAYS = Some []
  /\ windowsFrom 1 (20340 * msPerDay) (20340 * msPerDay) CHUNK_DAYS = Some [].
Proof.
  apply (planner_single_day_empty 0 (20340 * msPerDay) (20340 * msPerDay) CHUNK_DAYS).
  lia.
Defined.

(** C7, as stated, fails: for the single day 2025-09-09 the planner
    returns no window, whatever the number of iterations it is given. *)
Lemma planner_single_day_counterexample :
  ~ plansOneWindow (20340 * msPerDay) CHUNK_DAYS.
Proof.
  intros (fuel & range & H). destruct fuel as [|fuel]; [discriminate H|].
  unfold getDateRanges in H. simpl in H. discriminate H.
Qed.

(** The scenario of the specification: 2025-09-09 is day 20340. *)
Example planner_scenario :
  getDateRanges 6 (20340 * msPerDay) (20370 * msPerDay) 7 =
  Some [ mkRange "2025-09-09" "2025-09-15"; mkRange "2025-09-16" "2025-09-22";
         mkRange "2025-09-23" "2025-09-29"; mkRange "2025-09-30" "2025-10-06";
         mkRange "2025-10-07" "2025-10-09" ].
Proof. reflexivity. Qed.

(** A range of thirty days in chunks of thirty days: the window ends the
    day before the end date. *)
Example planner_thirty_days :
  getDateRanges 3 (20340 * msPerDay) (20370 * msPerDay) CHUNK_DAYS =
  Some [ mkRange "2025-09-09" "2025-10-08" ].
Proof. reflexivity. Qed.

End PlannerClaims.

(* ===================================================================== *)
(** ** Claims about the minimal event record *)
(* ===================================================================== *)

Section ExtractClaims.
Import Extract.

Lemma userId_errorTags tags : forall m, userId (errorTags tags m) = userId m.
Proof.
  induction tags as [|tag tags IH]; intros m; simpl; [reflexivity|].
  rewrite IH.
  repeat match goal with |- context [if ?b then _ else _] => destruct b end;
    reflexivity.
Qed.

Lemma userId_successTags tags : forall m, userId (successTags tags m) = userId m.
Proof.
  induction tags as [|tag tags IH]; intros m; simpl; [reflexivity|].
  destruct (String.eqb (tag_key tag) "merchant_id"); [reflexivity|apply IH].
Qed.

Lemma userId_extract now event issueType :
  userId (extractMinimalEventData now event issueType) =
  resolveUserId (match ev_user event with Some u => u | None => noUser end).
Proof.
  unfold extractMinimalEventData.
  destruct (String.eqb issueType "payment_error");
    [now rewrite userId_errorTags|].
  destruct (String.eqb issueType "payment_success");
    [now rewrite userId_successTags|reflexivity].
Qed.

(** The value of a truthy property. *)
Definition valueOf (v : option string) : string :=
  match v with Some s => s | None => "" end.

(** C9: the user identifier of the minimal record is the user's id when
    it is present (truthy: a non-empty string), else the email, else the
    IP address, else ["anonymous"]; a user with only the IP address
    ["1.2.3.4"] resolves to it, a user with none of the three fields and
    an event without a user resolve to ["anonymous"]. *)
Theorem resolved_user_identifier (now : string) (event : RawEvent) (issueType : string) :
  let user := match ev_user event with Some u => u | None => noUser end in
  userId (extractMinimalEventData now event issueType) =
    (if Js.truthy (user_id user) then valueOf (user_id user)
     else if Js.truthy (user_email user) then valueOf (user_email user)
     else if Js.truthy (user_ip_address user) then valueOf (user_ip_address user)
     else "anonymous")
  /\ (forall id eventID created received tags,
        userId (extractMinimalEventData now
                  (mkRawEvent id eventID created received
                     (Some (mkUser None None (Some "1.2.3.4"))) tags)
                  issueType) = "1.2.3.4")
  /\ (forall id eventID created received tags,
        userId (extractMinimalEventData now
                  (mkRawEvent id eventID created received
                     (Some (mkUser None None None)) tags)
                  issueType) = "anonymous")
  /\ (forall id eventID created received tags,
        userId (extractMinimalEventData now
                  (mkRawEvent id eventID created received None tags)
                  issueType) = "anonymous").
Proof.
  split; [|repeat split; intros; now rewrite userId_extract].
  rewrite userId_extract. cbv zeta.
  destruct (ev_user event) as [[uid email ip]|]; simpl; [|reflexivity].
  destruct uid as [[|c1 uid]|], email as [[|c2 email]|], ip as [[|c3 ip]|];
    reflexivity.
Qed.

End ExtractClaims.

(* ===================================================================== *)
(** ** Claims about the gap detector *)
(* ===================================================================== *)

Section GapClaims.
Import Store StoreFacts Fetcher.

Lemma dateChars_underscore x : forall y, dateChars (x +:+ String "_" y) = false.
Proof.
  induction x as [|c x IH]; intros y; simpl; [reflexivity|].
  rewrite IH. apply andb_false_r.
Qed.

(** The key of a window on disk is the key of no other pair of strings. *)
Lemma rangeKey_inj s2 : forall s1 e1 e2,
  dateChars s2 = true -> dateChars e2 = true ->
  rangeKey s1 e1 = rangeKey s2 e2 -> s1 = s2 /\ e1 = e2.
Proof.
  unfold rangeKey. induction s2 as [|c s2 IH]; intros s1 e1 e2 Hs He H.
  - simpl in H. destruct s1 as [|a s1]; [simpl in H; now injection H|].
    exfalso. simpl in H. injection H as -> H.
    destruct s1 as [|a s1]; [discriminate H|]. simpl in H. injection H as -> H.
    destruct s1 as [|a s1]; [discriminate H|]. simpl in H. injection H as -> H.
    destruct s1 as [|a s1].
    + simpl in H. injection H as H. subst e2. discriminate He.
    + simpl in H. injection H as -> H. subst e2.
      now rewrite dateChars_underscore in He.
  - simpl in Hs. apply andb_true_iff in Hs. destruct Hs as [Hc Hs].
    destruct s1 as [|a s1]; simpl in H.
    + injection H as <- _. discriminate Hc.
    + injection H as -> H. destruct (IH _ _ _ Hs He H) as [-> ->]. now split.
Qed.

Lemma In_omap {A B} (f : A -> option B) l y :
  In y (omap f l) <-> exists x, In x l /\ f x = Some y.
Proof.
  rewrite <- list_elem_of_In, list_elem_of_omap.
  split; intros (x & Hx & Hf); exists x; split; try assumption;
    now apply list_elem_of_In.
Qed.

(** The chunks found on disk are the files of the directory whose names
    match the pattern. *)
Lemma loadExistingChunks_spec fs issueId issueName c :
  In c (loadExistingChunks fs issueId issueName) <->
  exists d, fs !! getChunkDir issueId issueName = Some d
    /\ In (c_filename c) (readdir d)
    /\ matchChunkName (c_filename c) = Some (c_start c, c_end c)
    /\ c_path c = join (getChunkDir issueId issueName) (c_filename c).
Proof.
  unfold loadExistingChunks.
  destruct (fs !! getChunkDir issueId issueName) as [d|].
  - rewrite In_omap. split.
    + intros (f & Hf & Hm). apply filter_In in Hf. destruct Hf as [Hf _].
      destruct (matchChunkName f) as [[a b]|] eqn:E; [|discriminate].
      injection Hm as <-. simpl. eauto 6.
    + intros (d' & [= <-] & Hin & Hm & Hp). exists (c_filename c). split.
      * apply filter_In. split; [assumption|]. eapply matchChunkName_json; eauto.
      * rewrite Hm. destruct c; simpl in *. now subst.
  - split; [easy|]. now intros (d & [=] & _).
Qed.

Lemma loadExistingChunks_dates fs issueId issueName c :
  In c (loadExistingChunks fs issueId issueName) ->
  isDateStr (c_start c) = true /\ isDateStr (c_end c) = true.
Proof.
  intros H. apply loadExistingChunks_spec in H.
  destruct H as (d & _ & _ & Hm & _). now apply matchChunkName_inv in Hm.
Qed.

(** A planned window is on disk when a chunk there has its two date
    strings. *)
Definition onDisk (existingChunks : list ChunkRef) (r : DateRange) : Prop :=
  exists c, In c existingChunks /\ c_start c = r_start r /\ c_end c = r_end r.

Definition onDiskb (existingChunks : list ChunkRef) (r : DateRange) : bool :=
  existsb (fun c => String.eqb (c_start c) (r_start r)
                    && String.eqb (c_end c) (r_end r)) existingChunks.

Lemma onDiskb_spec existingChunks r :
  onDiskb existingChunks r = true <-> onDisk existingChunks r.
Proof.
  unfold onDiskb, onDisk. rewrite existsb_exists.
  split; intros (c & Hc & H); exists c; split; try assumption.
  - apply andb_true_iff in H. now rewrite !String.eqb_eq in H.
  - apply andb_true_iff. now rewrite !String.eqb_eq.
Qed.

Lemma has_key_onDisk fs issueId issueName r :
  let existingChunks := loadExistingChunks fs issueId issueName in
  rangeKey (r_start r) (r_end r) ∈ existingRanges existingChunks <->
  onDisk existingChunks r.
Proof.
  cbv zeta. unfold existingRanges, onDisk.
  rewrite elem_of_list_to_set, list_elem_of_In, in_map_iff. split.
  - intros (c & Hkey & Hc). exists c. split; [assumption|].
    destruct (loadExistingChunks_dates _ _ _ _ Hc) as [Hs He].
    apply isDateStr_chars in Hs, He. symmetry in Hkey.
    destruct (rangeKey_inj _ _ _ _ Hs He Hkey) as [-> ->]. now split.
  - intros (c & Hc & <- & <-). eauto.
Qed.

Lemma missingRanges_filter fs issueId issueName allRanges :
  let existingChunks := loadExistingChunks fs issueId issueName in
  missingRanges allRanges existingChunks =
  List.filter (fun r => negb (onDiskb existingChunks r)) allRanges.
Proof.
  cbv zeta. unfold missingRanges. apply filter_ext. intros r. f_equal.
  apply eq_true_iff_eq. rewrite bool_decide_eq_true, onDiskb_spec.
  apply has_key_onDisk.
Qed.

Lemma missingRanges_In fs issueId issueName allRanges r :
  In r (missingRanges allRanges (loadExistingChunks fs issueId issueName)) <->
  In r allRanges /\ ~ onDisk (loadExistingChunks fs issueId issueName) r.
Proof.
  rewrite (missingRanges_filter fs issueId issueName allRanges), filter_In.
  rewrite negb_true_iff, <- not_true_iff_false, onDiskb_spec. reflexivity.
Qed.

Lemma missingRanges_none fs issueId issueName allRanges :
  (forall r, In r allRanges -> onDisk (loadExistingChunks fs issueId issueName) r) ->
  missingRanges allRanges (loadExistingChunks fs issueId issueName) = [].
Proof.
  intros Hall.
  destruct (missingRanges allRanges _) as [|r l] eqn:E; [reflexivity|].
  exfalso. assert (Hr : In r (r :: l)) by now left.
  rewrite <- E in Hr. apply missingRanges_In in Hr.
  destruct Hr as [Hr Hn]. now apply Hn, Hall.
Qed.

Lemma missing_length_mono (existingChunks more : list ChunkRef) allRanges :
  (forall r, onDisk existingChunks r -> onDisk more r) ->
  (List.length (List.filter (fun r => negb (onDiskb more r)) allRanges)
   <= List.length (List.filter (fun r => negb (onDiskb existingChunks r)) allRanges))%nat.
Proof.
  intros Hmore. induction allRanges as [|r l IH]; simpl; [lia|].
  destruct (onDiskb existingChunks r) eqn:E1; simpl.
  - apply onDiskb_spec, Hmore, onDiskb_spec in E1. now rewrite E1.
  - destruct (onDiskb more r); simpl; lia.
Qed.

(** The disk holds the chunk of a planned window: the directory of the
    issue lists a file named after the two date strings of the window, of
    ten characters each, as the pattern of the chunk names asks. *)
Definition fileOnDisk (fs : FS) (issueId issueName : string) (r : DateRange) : Prop :=
  isDateStr (r_start r) = true /\ isDateStr (r_end r) = true
  /\ exists d, fs !! getChunkDir issueId issueName = Some d
       /\ In (chunkName (r_start r) (r_end r)) (readdir d).

Definition fileOnDiskb (fs : FS) (issueId issueName : string) (r : DateRange) : bool :=
  isDateStr (r_start r) && isDateStr (r_end r)
  && match fs !! getChunkDir issueId issueName with
     | Some d => existsb (String.eqb (chunkName (r_start r) (r_end r))) (readdir d)
     | None => false
     end.

Lemma fileOnDiskb_spec fs issueId issueName r :
  fileOnDiskb fs issueId issueName r = true <-> fileOnDisk fs issueId issueName r.
Proof.
  unfold fileOnDiskb, fileOnDisk. rewrite !andb_true_iff.
  destruct (fs !! getChunkDir issueId issueName) as [d|].
  - rewrite existsb_exists. split.
    + intros [[Ha Hb] (f & Hf & E)]. apply String.eqb_eq in E. subst f. eauto.
    + intros (Ha & Hb & d' & [= <-] & Hf). split; [now split|].
      eexists. split; [exact Hf|]. apply String.eqb_refl.
  - split; [now intros [_ ?]|]. now intros (_ & _ & d & [=] & _).
Qed.

(** The chunks that the loader finds are those whose file is on disk. *)
Lemma onDisk_fileOnDisk fs issueId issueName r :
  onDisk (loadExistingChunks fs issueId issueName) r <->
  fileOnDisk fs issueId issueName r.
Proof.
  unfold onDisk, fileOnDisk. split.
  - intros (c & Hc & Hs & He). apply loadExistingChunks_spec in Hc.
    destruct Hc as (d & Hd & Hin & Hm & _).
    apply matchChunkName_inv in Hm. destruct Hm as (Hf & Ha & Hb).
    rewrite <- Hs, <- He. repeat split; try assumption.
    exists d. split; [assumption|]. now rewrite <- Hf.
  - intros (Ha & Hb & d & Hd & Hin).
    exists (mkChunkRef (chunkName (r_start r) (r_end r))
              (join (getChunkDir issueId issueName) (chunkName (r_start r) (r_end r)))
              (r_start r) (r_end r)).
    split; [|now split]. apply loadExistingChunks_spec. exists d. simpl.
    repeat split; try assumption. now apply matchChunkName_chunkName.
Qed.

Lemma onDiskb_fileOnDiskb fs issueId issueName r :
  onDiskb (loadExistingChunks fs issueId issueName) r = fileOnDiskb fs issueId issueName r.
Proof.
  apply eq_true_iff_eq. rewrite onDiskb_spec, fileOnDiskb_spec.
  apply onDisk_fileOnDisk.
Qed.

(** C4: the gap detector returns the planned windows, in their order,
    for which the directory of the issue lists no file named after their
    pair of date strings; it returns none when the file of every window is
    there; and on a disk that holds these files and more, no window is
    added to the missing ones. *)
Theorem gap_detector_exact_and_monotonic (fs : FS) (issueId issueName : string)
    (allRanges : list DateRange) :
  let missing := missingRanges allRanges (loadExistingChunks fs issueId issueName) in
  missing = List.filter (fun r => negb (fileOnDiskb fs issueId issueName r)) allRanges
  /\ (forall r, In r missing <->
                In r allRanges /\ ~ fileOnDisk fs issueId issueName r)
  /\ ((forall r, In r allRanges -> fileOnDisk fs issueId issueName r) -> missing = [])
  /\ (forall fs' : FS,
        let missing' := missingRanges allRanges (loadExistingChunks fs' issueId issueName) in
        (forall r, fileOnDisk fs issueId issueName r -> fileOnDisk fs' issueId issueName r) ->
        (forall r, In r missing' -> In r missing)
        /\ (List.length missing' <= List.length missing)%nat).
Proof.
  cbv zeta.
  split.
  { rewrite (missingRanges_filter fs issueId issueName allRanges).
    apply filter_ext. intros r. now rewrite onDiskb_fileOnDiskb. }
  split.
  { intros r. rewrite missingRanges_In, onDisk_fileOnDisk. reflexivity. }
  split.
  { intros Hall. apply missingRanges_none. intros r Hr.
    now apply onDisk_fileOnDisk, Hall. }
  intros fs' Hmore.
  assert (Hmore' : forall r, onDisk (loadExistingChunks fs issueId issueName) r ->
                             onDisk (loadExistingChunks fs' issueId issueName) r).
  { intros r Hr. now apply onDisk_fileOnDisk, Hmore, onDisk_fileOnDisk. }
  split.
  - intros r Hr. apply missingRanges_In in Hr. apply missingRanges_In.
    destruct Hr as [Hr Hn]. split; [assumption|]. intros Hd. now apply Hn, Hmore'.
  - rewrite !(missingRanges_filter _ issueId issueName allRanges).
    now apply missing_length_mono.
Qed.

End GapClaims.

(* ===================================================================== *)
(** ** Claims about the fetch-and-cache flow *)
(* ===================================================================== *)

Section StoreStep.
Import Store StoreFacts Fetcher.

(** The directory holds a chunk under a name. *)
Definition chunkFile (fs : FS) (dir name : string) (c : ChunkData) : Prop :=
  exists d, fs !! dir = Some d /\ readFile name d = Some (Chunk c).

Lemma ensureDir_lookup (fs : FS) dir :
  ensureDir fs dir !! dir = Some (default [] (fs !! dir)).
Proof.
  unfold ensureDir. destruct (fs !! dir) as [d|] eqn:E; simpl.
  - exact E.
  - apply lookup_insert_eq.
Qed.

Lemma ensureDir_lookup_other (fs : FS) dir dir' :
  dir <> dir' -> ensureDir fs dir !! dir' = fs !! dir'.
Proof.
  intros Hne. unfold ensureDir. destruct (fs !! dir); [reflexivity|].
  now apply lookup_insert_ne.
Qed.

(** What [saveChunk] leaves in the directory of the issue, and that it
    touches no other directory. *)
Lemma saveChunk_lookup now (fs : FS) issueId issueName startDate endDate events :
  saveChunk now fs issueId issueName startDate endDate events
    !! getChunkDir issueId issueName =
  Some (writeFile (chunkName startDate endDate)
          (Chunk (mkChunkData now issueId issueName startDate endDate
                    (List.length events) events))
          (default [] (fs !! getChunkDir issueId issueName))).
Proof.
  unfold saveChunk. rewrite lookup_insert_eq, ensureDir_lookup. reflexivity.
Qed.

Lemma saveChunk_lookup_other now (fs : FS) issueId issueName startDate endDate events dir :
  dir <> getChunkDir issueId issueName ->
  saveChunk now fs issueId issueName startDate endDate events !! dir = fs !! dir.
Proof.
  intros Hne. unfold saveChunk.
  rewrite lookup_insert_ne by congruence. apply ensureDir_lookup_other. congruence.
Qed.

Lemma saveChunk_chunkFile now fs issueId issueName startDate endDate events dir name c :
  chunkFile (saveChunk now fs issueId issueName startDate endDate events) dir name c ->
  chunkFile fs dir name c
  \/ c = mkChunkData now issueId issueName startDate endDate (List.length events) events.
Proof.
  intros (d & Hd & Hread).
  destruct (String.eqb_spec dir (getChunkDir issueId issueName)) as [->|Hne].
  - rewrite saveChunk_lookup in Hd. injection Hd as <-.
    destruct (String.eqb_spec name (chunkName startDate endDate)) as [->|Hn].
    + rewrite readFile_writeFile in Hread. right. congruence.
    + rewrite readFile_writeFile_other in Hread by assumption. left.
      destruct (fs !! getChunkDir issueId issueName) as [d0|] eqn:E;
        [|discriminate Hread].
      now exists d0.
  - rewrite saveChunk_lookup_other in Hd by assumption. left. now exists d.
Qed.

(** After [saveChunk] the window is on disk, when its two strings have
    the shape of a date; and every window on disk before still is. *)
Lemma saveChunk_onDisk now fs issueId issueName startDate endDate events :
  isDateStr startDate = true -> isDateStr endDate = true ->
  onDisk (loadExistingChunks
            (saveChunk now fs issueId issueName startDate endDate events)
            issueId issueName)
         (mkRange startDate endDate).
Proof.
  intros Hs He.
  set (f := chunkName startDate endDate).
  exists (mkChunkRef f (join (getChunkDir issueId issueName) f) startDate endDate).
  split; [|now split]. apply loadExistingChunks_spec. simpl.
  eexists. split; [apply saveChunk_lookup|].
  split; [apply readdir_writeFile; now left|].
  split; [now apply matchChunkName_chunkName|reflexivity].
Qed.

Lemma saveChunk_keeps_onDisk now fs issueId issueName startDate endDate events r :
  onDisk (loadExistingChunks fs issueId issueName) r ->
  onDisk (loadExistingChunks
            (saveChunk now fs issueId issueName startDate endDate events)
            issueId issueName) r.
Proof.
  intros (c & Hc & Hs & He). exists c. split; [|now split].
  apply loadExistingChunks_spec in Hc. apply loadExistingChunks_spec.
  destruct Hc as (d & Hd & Hin & Hm & Hp).
  eexists. split; [rewrite saveChunk_lookup, Hd; reflexivity|]. simpl.
  split; [apply readdir_writeFile; now right|]. now split.
Qed.

End StoreStep.

Section FetcherClaims.
Import Date Planner Store StoreFacts Fetcher Extract DateFacts PlannerFacts.

Variable Date_parse : string -> option Date.t.
Variable ORGANIZATION_SLUG : string.
Variable now : string.
Variable upstream : string -> Response.

(** The date the fetcher reads on an upstream event. *)
Definition eventDate (event : RawEvent) : option string :=
  Js.or (ev_dateCreated event) (ev_dateReceived event).

(** An event that some page of the upstream API holds. *)
Definition served (event : RawEvent) : Prop :=
  exists url data next, upstream url = Resolved (Some data) next /\ In event data.

(** A minimal record that was made from an upstream event whose date was
    read, parsed and found within the bounds of the window. *)
Definition comparedInWindow (issueType startDate endDate : string)
    (m : MinimalEvent) : Prop :=
  exists event ds t,
    served event
    /\ eventDate event = Some ds /\ Js.truthy (Some ds) = true
    /\ Date_parse ds = Some t
    /\ Js.ge (formatDate t) startDate = true
    /\ Js.le (formatDate t) endDate = true
    /\ m = extractMinimalEventData now event issueType.

Lemma pageEvents_undated issueType startDate endDate event pre : forall post allEvents,
  Js.truthy (ev_dateCreated event) = false ->
  Js.truthy (ev_dateReceived event) = false ->
  pageEvents Date_parse now issueType startDate endDate (pre ++ event :: post) allEvents =
  pageEvents Date_parse now issueType startDate endDate (pre ++ post) allEvents.
Proof.
  intros post allEvents Hc Hr. revert allEvents.
  induction pre as [|e pre IH]; intros allEvents; simpl.
  - unfold Js.or. rewrite Hc, Hr. reflexivity.
  - repeat match goal with
           | |- context [if ?b then _ else _] => destruct b
           | |- context [match ?o with Some _ => _ | None => _ end] => destruct o
           end; auto.
Qed.

Lemma pageEvents_kept issueType startDate endDate data : forall allEvents out,
  (forall event, In event data -> served event) ->
  pageEvents Date_parse now issueType startDate endDate data allEvents = Some out ->
  Forall (comparedInWindow issueType startDate endDate) allEvents ->
  Forall (comparedInWindow issueType startDate endDate) out.
Proof.
  induction data as [|event data IH]; intros allEvents out Hserved H Hall; simpl in H.
  - now injection H as <-.
  - assert (Hrest : forall e, In e data -> served e) by (intros; apply Hserved; now right).
    destruct (Js.truthy (Js.or (ev_dateCreated event) (ev_dateReceived event))) eqn:Ht;
      [|eauto].
    destruct (Js.or (ev_dateCreated event) (ev_dateReceived event)) as [ds|] eqn:Ed;
      [|discriminate Ht].
    simpl in H. destruct (Date_parse ds) as [t|] eqn:Ep; [|discriminate H].
    destruct (Js.ge (formatDate t) startDate) eqn:Hge; simpl in H; [|eauto].
    destruct (Js.le (formatDate t) endDate) eqn:Hle; [|eauto].
    eapply IH; [exact Hrest|exact H|].
    apply Forall_app. split; [assumption|]. constructor; [|constructor].
    exists event, ds, t. repeat split; try assumption.
    apply Hserved. now left.
Qed.

Lemma fetchPages_kept fuel issueType startDate endDate :
  forall currentUrl allEvents calls out calls',
  fetchPages Date_parse now upstream fuel issueType startDate endDate
    currentUrl allEvents calls = Some (Completed out, calls') ->
  Forall (comparedInWindow issueType startDate endDate) allEvents ->
  Forall (comparedInWindow issueType startDate endDate) out.
Proof.
  induction fuel as [|fuel IH]; intros url allEvents calls out calls' H Hall;
    [discriminate|].
  simpl in H.
  destruct (upstream url) as [|[data|] next] eqn:Eu; try discriminate H.
  destruct (pageEvents _ _ _ _ _ data allEvents) as [evs|] eqn:Ep; [|discriminate H].
  assert (Hevs : Forall (comparedInWindow issueType startDate endDate) evs).
  { eapply pageEvents_kept; [|exact Ep|exact Hall].
    intros event Hin. now exists url, data, next. }
  destruct (List.length data =? 0)%nat; [now injection H as <- _|].
  destruct (Js.truthy next); [eauto|now injection H as <- _].
Qed.

Lemma fetchDateRangeChunk_kept fuel issueId issueName issueType startDate endDate evs calls :
  fetchDateRangeChunk Date_parse ORGANIZATION_SLUG now upstream fuel
    issueId issueName issueType startDate endDate = Some (evs, calls) ->
  Forall (comparedInWindow issueType startDate endDate) evs.
Proof.
  unfold fetchDateRangeChunk, tryFetch. intros H.
  destruct (fetchPages _ _ _ _ _ _ _ _ _ _) as [[[out|] calls']|] eqn:E;
    try discriminate H; injection H as <- <-.
  - eapply fetchPages_kept; [exact E|constructor].
  - constructor.
Qed.

(** A chunk of the store is as it was before the run, or holds events
    that were all compared against its window. *)
Definition storedCompared (issueType : string) (fs fs' : FS) : Prop :=
  forall dir name c,
    chunkFile fs' dir name c ->
    chunkFile fs dir name c
    \/ Forall (comparedInWindow issueType (dateRangeStart c) (dateRangeEnd c)) (events c).

Lemma fetchEach_stored fuel issueId issueName issueType missing :
  forall fs calls fs' calls',
  fetchEach Date_parse ORGANIZATION_SLUG now upstream fuel fs
    issueId issueName issueType missing calls = Some (fs', calls') ->
  storedCompared issueType fs fs'.
Proof.
  induction missing as [|range rest IH]; intros fs calls fs' calls' H; simpl in H.
  - injection H as <- _. intros dir name c Hc. now left.
  - destruct (fetchDateRangeChunk _ _ _ _ _ _ _ _ _ _) as [[evs made]|] eqn:E;
      [|discriminate H].
    apply fetchDateRangeChunk_kept in E.
    intros dir name c Hc. apply (IH _ _ _ _ H) in Hc.
    destruct Hc as [Hc|Hc]; [|now right].
    destruct (0 <? List.length evs)%nat;
      apply saveChunk_chunkFile in Hc; destruct Hc as [Hc| ->]; auto;
      right; simpl; first [exact E|constructor].
Qed.

(** C10: an event with neither date is passed over without any effect
    on the page loop; every event that [fetchDateRangeChunk] returns, and
    every event of a chunk that a run of [fetchMissingChunks] writes, was
    made from an upstream event whose date was read and compared against
    the bounds of the window. *)
Theorem undated_events_never_stored :
  (forall issueType startDate endDate pre event post allEvents,
     Js.truthy (ev_dateCreated event) = false ->
     Js.truthy (ev_dateReceived event) = false ->
     pageEvents Date_parse now issueType startDate endDate (pre ++ event :: post) allEvents =
     pageEvents Date_parse now issueType startDate endDate (pre ++ post) allEvents)
  /\ (forall fuel issueId issueName issueType startDate endDate evs calls,
        fetchDateRangeChunk Date_parse ORGANIZATION_SLUG now upstream fuel
          issueId issueName issueType startDate endDate = Some (evs, calls) ->
        Forall (comparedInWindow issueType startDate endDate) evs)
  /\ (forall fuel fs issueId issueName issueType startDate endDate fs' calls,
        fetchMissingChunks Date_parse ORGANIZATION_SLUG now upstream fuel fs
          issueId issueName issueType startDate endDate = Some (fs', calls) ->
        storedCompared issueType fs fs').
Proof.
  split; [intros; now apply pageEvents_undated|].
  split; [intros; eapply fetchDateRangeChunk_kept; eauto|].
  intros fuel fs issueId issueName issueType startDate endDate fs' calls H.
  unfold fetchMissingChunks in H.
  destruct (getDateRanges fuel startDate endDate CHUNK_DAYS) as [allRanges|];
    [|discriminate H].
  destruct (List.length _ =? 0)%nat.
  - injection H as <- _. intros dir name c Hc. now left.
  - eapply fetchEach_stored; eauto.
Qed.

(** *** A window whose fetch fails *)

(** The [catch] turns the failure into an empty result, and the loop over
    the missing windows saves it as the chunk of the window. *)
Lemma failed_window_is_saved fuel fs issueId issueName issueType range rest calls made :
  tryFetch Date_parse ORGANIZATION_SLUG now upstream fuel issueId issueType
    (r_start range) (r_end range) = Some (Failed, made) ->
  fetchEach Date_parse ORGANIZATION_SLUG now upstream fuel fs
    issueId issueName issueType (range :: rest) calls =
  fetchEach Date_parse ORGANIZATION_SLUG now upstream fuel
    (saveChunk now fs issueId issueName (r_start range) (r_end range) [])
    issueId issueName issueType rest (calls ++ made).
Proof.
  intros H. simpl. unfold fetchDateRangeChunk. now rewrite H.
Qed.

(** *** The second run *)

Lemma fetchEach_onDisk fuel issueId issueName issueType missing :
  forall fs calls fs' calls',
  Forall (fun r => isDateStr (r_start r) = true /\ isDateStr (r_end r) = true) missing ->
  fetchEach Date_parse ORGANIZATION_SLUG now upstream fuel fs
    issueId issueName issueType missing calls = Some (fs', calls') ->
  forall r,
    In r missing \/ onDisk (loadExistingChunks fs issueId issueName) r ->
    onDisk (loadExistingChunks fs' issueId issueName) r.
Proof.
  induction missing as [|range rest IH]; intros fs calls fs' calls' Hshape H r Hr;
    simpl in H.
  - injection H as <- _. destruct Hr as [[]|Hr]. exact Hr.
  - destruct (fetchDateRangeChunk _ _ _ _ _ _ _ _ _ _) as [[evs made]|];
      [|discriminate H].
    inversion Hshape as [|? ? [Hs He] Hrest]; subst.
    eapply IH; [exact Hrest|exact H|].
    destruct Hr as [[<-|Hr]|Hr]; [right|now left|right].
    + destruct range as [s e]. simpl in *.
      destruct (0 <? List.length evs)%nat; now apply saveChunk_onDisk.
    + destruct (0 <? List.length evs)%nat; now apply saveChunk_keeps_onDisk.
Qed.

End FetcherClaims.

Section SecondRun.
Import Date Planner Store StoreFacts Fetcher DateFacts PlannerFacts.

(** The planned windows of a range within the years 0000 to 9999 are
    pairs of date-shaped strings. *)
Lemma planned_shapes fuel startDate endDate d allRanges :
  0 < d ->
  fourDigitYear startDate -> fourDigitYear endDate ->
  getDateRanges fuel startDate endDate d = Some allRanges ->
  Forall (fun r => isDateStr (r_start r) = true /\ isDateStr (r_end r) = true) allRanges.
Proof.
  intros Hd Hs He H. unfold getDateRanges in H.
  rewrite getDateRangesFrom_windows in H.
  destruct (windowsFrom fuel startDate endDate d) as [ws|] eqn:E; [|discriminate H].
  injection H as <-. apply windowsFrom_bounds in E; [|exact Hd].
  apply Forall_map. eapply List.Forall_impl; [|exact E].
  intros [a b]. simpl. intros [[Ha1 Ha2] [Hb1 Hb2]].
  unfold fourDigitYear in *.
  split; apply formatDate_shape; unfold fourDigitYear;
    (split; [eapply Z.le_trans; [apply Hs|now apply dayOf_mono]
            |eapply Z.le_trans; [apply dayOf_mono; eassumption|apply He]]).
Qed.

(** C5: after a run of the fetch-and-cache flow over a range, a second
    run over the same range, whatever the upstream API and the clock then
    are, finds every planned window on disk, makes no upstream call and
    leaves the store as it is. *)
Theorem second_run_fetches_nothing
    (Date_parse Date_parse2 : string -> option Date.t)
    (org org2 now now2 : string) (upstream upstream2 : string -> Response)
    (fuel : nat) (fs fs1 : FS) (issueId issueName issueType : string)
    (startDate endDate : Date.t) (calls1 : list string) :
  fourDigitYear startDate -> fourDigitYear endDate ->
  fetchMissingChunks Date_parse org now upstream fuel fs
    issueId issueName issueType startDate endDate = Some (fs1, calls1) ->
  fetchMissingChunks Date_parse2 org2 now2 upstream2 fuel fs1
    issueId issueName issueType startDate endDate = Some (fs1, []).
Proof.
  intros Hs He H. unfold fetchMissingChunks in *.
  destruct (getDateRanges fuel startDate endDate CHUNK_DAYS) as [allRanges|] eqn:Eplan;
    [|discriminate H].
  assert (Hpos : 0 < CHUNK_DAYS) by (unfold CHUNK_DAYS; lia).
  pose proof (planned_shapes _ _ _ _ _ Hpos Hs He Eplan) as Hshape.
  pose proof (missingRanges_In fs issueId issueName allRanges) as Hmiss.
  assert (Hall : forall r, In r allRanges ->
            onDisk (loadExistingChunks fs1 issueId issueName) r).
  { intros r Hr.
    assert (Hsh : Forall (fun r => isDateStr (r_start r) = true /\ isDateStr (r_end r) = true)
                    (missingRanges allRanges (loadExistingChunks fs issueId issueName))).
    { rewrite List.Forall_forall in Hshape |- *.
      intros x Hx. apply Hshape. now apply Hmiss in Hx. }
    destruct (onDiskb (loadExistingChunks fs issueId issueName) r) eqn:Eb.
    - apply onDiskb_spec in Eb.
      destruct (List.length _ =? 0)%nat in H.
      + now injection H as <- _.
      + eapply fetchEach_onDisk; [exact Hsh|exact H|now right].
    - assert (Hin : In r (missingRanges allRanges (loadExistingChunks fs issueId issueName))).
      { apply Hmiss. split; [assumption|]. rewrite <- onDiskb_spec. congruence. }
      destruct (List.length _ =? 0)%nat eqn:El in H.
      + apply Nat.eqb_eq, length_zero_iff_nil in El. rewrite El in Hin. destruct Hin.
      + eapply fetchEach_onDisk; [exact Hsh|exact H|now left]. }
  rewrite (missingRanges_none _ _ _ _ Hall). reflexivity.
Qed.

End SecondRun.

(* ===================================================================== *)
(** ** Worked runs *)
(* ===================================================================== *)

Module Examples.
Import Date Store.

(** Day number of a calendar date. *)
Definition daysFromCivil (y m d : Z) : Z :=
  let y' := if m <=? 2 then y - 1 else y in
  let era := y' / 400 in
  let yoe := y' - era * 400 in
  let doy := (153 * (if m >? 2 then m - 3 else m + 9) + 2) / 5 + d - 1 in
  let doe := yoe * 365 + yoe / 4 - yoe / 100 + doy in
  era * 146097 + doe - 719468.

(** The value of [parseDate] on the date string of a calendar date. *)
Definition midnight (y m d : Z) : Date.t := daysFromCivil y m d * msPerDay.

Definition number (s : string) : option Z :=
  if Aggregate.allDigits s then Some (Z.of_N (Aggregate.decimal 0 s)) else None.

(** [new Date(s)] on the timestamps of the form [YYYY-MM-DDTHH:MM:SSZ];
    every other string is taken as an invalid date. *)
Definition parseTimestamp (s : string) : option Date.t :=
  if (String.length s =? 20)%nat && isDateStr (substring 0 10 s)
     && String.eqb (substring 10 1 s) "T" && String.eqb (substring 13 1 s) ":"
     && String.eqb (substring 16 1 s) ":" && String.eqb (substring 19 1 s) "Z"
  then
    match number (substring 0 4 s), number (substring 5 2 s),
          number (substring 8 2 s), number (substring 11 2 s),
          number (substring 14 2 s), number (substring 17 2 s) with
    | Some y, Some m, Some d, Some h, Some mi, Some sec =>
        if (1 <=? m) && (m <=? 12) && (1 <=? d) && (d <=? 31)
           && (h <? 24) && (mi <? 60) && (sec <? 60)
        then Some (midnight y m d + h * 3600000 + mi * 60000 + sec * 1000)
        else None
    | _, _, _, _, _, _ => None
    end
  else None.

Definition errorIssue : string := "6722248692".

Definition rawEvent (id : string) (created : option string) (user : User)
    (reason : string) : RawEvent :=
  mkRawEvent (Some id) None created None (Some user)
    (Some [mkTag "paymentErrorReason" (Some reason)]).

(** An upstream API with one page of four events for the window from
    2025-09-09 to 2025-09-16, followed by an empty page: the second event
    is outside the window and the third has no date. *)
Definition firstPage : string :=
  "https://sentry.io/api/0/organizations/xajeet/issues/6722248692/events/?full=true&start=2025-09-09T00%3A00%3A00Z&end=2025-09-16T23%3A59%3A59Z".

Definition secondPage : string := "https://sentry.io/api/0/cursor=0:100:0".

Definition healthy (url : string) : Response :=
  if String.eqb url firstPage then
    Resolved
      (Some [ rawEvent "a1" (Some "2025-09-10T08:15:00Z")
                (mkUser (Some "u1") None None) "Insufficient Funds";
              rawEvent "a2" (Some "2025-09-17T00:00:01Z")
                (mkUser None (Some "x@example.org") None) "CVV2 Value Invalid";
              rawEvent "a3" None (mkUser None None None) "Insufficient Funds";
              rawEvent "a4" (Some "2025-09-16T23:59:59Z")
                (mkUser None None (Some "1.2.3.4")) "Insufficient Funds" ])
      (Some secondPage)
  else if String.eqb url secondPage then Resolved (Some []) (Some secondPage)
  else Rejected.

(** An upstream API that is down. *)
Definition down (url : string) : Response := Rejected.

End Examples.

Section WorkedRuns.
Import Date Planner Store StoreFacts Fetcher Examples.

Definition keptEvents : list MinimalEvent :=
  [ mkMinimalEvent "2025-09-10T08:15:00Z" (Some "a1") "u1"
      (Some "Insufficient Funds") None None None None;
    mkMinimalEvent "2025-09-16T23:59:59Z" (Some "a4") "1.2.3.4"
      (Some "Insufficient Funds") None None None None ].

(** The store after a run against the healthy upstream, and after a run
    while the upstream is down. *)
Definition afterHealthyRun : FS :=
  saveChunk "2025-09-17T06:00:00.000Z" ∅ errorIssue "Payment Error"
    "2025-09-09" "2025-09-16" keptEvents.

Definition afterFailedRun : FS :=
  saveChunk "2025-09-17T06:00:00.000Z" ∅ errorIssue "Payment Error"
    "2025-09-09" "2025-09-16" [].

Example run_of_the_healthy_upstream :
  fetchMissingChunks parseTimestamp "xajeet" "2025-09-17T06:00:00.000Z" healthy
    4 ∅ errorIssue "Payment Error" "payment_error"
    (midnight 2025 9 9) (midnight 2025 9 16)
  = Some (afterHealthyRun, [firstPage; secondPage]).
Proof. reflexivity. Qed.

(** C1: the upstream API is down while the window from 2025-09-09 to
    2025-09-16 is fetched.  The [try] block fails, and the run still
    writes a chunk for the window, with no events; a later run, with any
    upstream API, finds the window on disk and does not fetch it again. *)
Theorem failed_window_gets_empty_chunk :
  let startDate := midnight 2025 9 9 in
  let endDate := midnight 2025 9 16 in
  let now := "2025-09-17T06:00:00.000Z" in
  tryFetch parseTimestamp "xajeet" now down 4 errorIssue "payment_error"
    "2025-09-09" "2025-09-16" = Some (Failed, [firstPage])
  /\ fetchMissingChunks parseTimestamp "xajeet" now down 4 ∅
       errorIssue "Payment Error" "payment_error" startDate endDate
     = Some (afterFailedRun, [firstPage])
  /\ chunkFile afterFailedRun (getChunkDir errorIssue "Payment Error")
       "2025-09-09_to_2025-09-16.json"
       (mkChunkData now errorIssue "Payment Error" "2025-09-09" "2025-09-16" 0 [])
  /\ forall Date_parse2 org2 now2 upstream2,
       fetchMissingChunks Date_parse2 org2 now2 upstream2 4 afterFailedRun
         errorIssue "Payment Error" "payment_error" startDate endDate
       = Some (afterFailedRun, []).
Proof.
  cbv zeta.
  assert (Hrun : fetchMissingChunks parseTimestamp "xajeet" "2025-09-17T06:00:00.000Z"
                   down 4 ∅ errorIssue "Payment Error" "payment_error"
                   (midnight 2025 9 9) (midnight 2025 9 16)
                 = Some (afterFailedRun, [firstPage]))
    by reflexivity.
  split; [reflexivity|].
  split; [exact Hrun|].
  split.
  - eexists. split; [apply saveChunk_lookup|]. apply readFile_writeFile.
  - intros. reflexivity.
Qed.

(** A first run against the healthy upstream, then a second run while
    the upstream is down. *)
Lemma second_run_fetches_nothing_witness :
  fourDigitYear (midnight 2025 9 9) /\ fourDigitYear (midnight 2025 9 16)
  /\ fetchMissingChunks parseTimestamp "xajeet" "2025-09-17T06:00:00.000Z" healthy
       4 ∅ errorIssue "Payment Error" "payment_error"
       (midnight 2025 9 9) (midnight 2025 9 16)
     = Some (afterHealthyRun, [firstPage; secondPage])
  /\ fetchMissingChunks parseTimestamp "xajeet" "2025-09-18T06:00:00.000Z" down
       4 afterHealthyRun errorIssue "Payment Error" "payment_error"
       (midnight 2025 9 9) (midnight 2025 9 16) = Some (afterHealthyRun, []).
Proof.
  assert (H1 : fourDigitYear (midnight 2025 9 9))
    by (unfold fourDigitYear; vm_compute; split; discriminate).
  assert (H2 : fourDigitYear (midnight 2025 9 16))
    by (unfold fourDigitYear; vm_compute; split; discriminate).
  assert (H3 : fetchMissingChunks parseTimestamp "xajeet" "2025-09-17T06:00:00.000Z"
                 healthy 4 ∅ errorIssue "Payment Error" "payment_error"
                 (midnight 2025 9 9) (midnight 2025 9 16)
               = Some (afterHealthyRun, [firstPage; secondPage]))
    by reflexivity.
  split; [exact H1|]. split; [exact H2|]. split; [exact H3|].
  exact (second_run_fetches_nothing parseTimestamp parseTimestamp
           "xajeet" "xajeet" "2025-09-17T06:00:00.000Z" "2025-09-18T06:00:00.000Z"
           healthy down 4 ∅ afterHealthyRun errorIssue "Payment Error" "payment_error"
           (midnight 2025 9 9) (midnight 2025 9 16) [firstPage; secondPage] H1 H2 H3).
Defined.

End WorkedRuns.

(* ===================================================================== *)
(** ** Claims about the reader *)
(* ===================================================================== *)

Section ReaderClaims.
Import Store StoreFacts Reader.

(** The window of a chunk file overlaps the requested range. *)
Definition overlaps (startDate endDate chunkStart chunkEnd : string) : bool :=
  Js.ge chunkEnd startDate && Js.le chunkStart endDate.


(** Every chunk file that overlaps the range holds a chunk record. *)
Definition readable (d : Dir) (startDate endDate : string) (files : list string) : Prop :=
  forall file chunkStart chunkEnd,
    In file files -> matchChunkName file = Some (chunkStart, chunkEnd) ->
    overlaps startDate endDate chunkStart chunkEnd = true ->
    exists chunkData, readFile file d = Some (Chunk chunkData).



Lemma StronglySorted_omap {A B} (R : A -> A -> Prop) (S : B -> B -> Prop)
    (f : A -> option B) l :
  (forall x y a b, R x y -> f x = Some a -> f y = Some b -> S a b) ->
  StronglySorted R l -> StronglySorted S (omap f l).
Proof.
  intros HRS. induction 1 as [|x l Hl IH Hall]; simpl; [constructor|].
  destruct (f x) as [a|] eqn:Ex; [|exact IH].
  constructor; [exact IH|]. apply List.Forall_forall. intros b Hb.
  apply list_elem_of_In, list_elem_of_omap in Hb. destruct Hb as (y & Hy & Ey).
  apply list_elem_of_In in Hy. rewrite List.Forall_forall in Hall. eauto.
Qed.

Lemma StronglySorted_filter {A} (R : A -> A -> Prop) (p : A -> bool) l :
  StronglySorted R l -> StronglySorted R (List.filter p l).
Proof.
  induction 1 as [|x l Hl IH Hall]; simpl; [constructor|].
  destruct (p x); [|exact IH]. constructor; [exact IH|].
  rewrite List.Forall_forall in *. intros y Hy. apply filter_In in Hy. now apply Hall.
Qed.

Lemma dirSorted_readdir d :
  dirSorted d -> StronglySorted (fun x y => String.compare x y = Lt) (readdir d).
Proof.
  unfold dirSorted, readdir. induction 1 as [|x l Hl IH Hall]; simpl; constructor.
  - exact IH.
  - apply Forall_map. exact Hall.
Qed.

(** Chunk files come in the order of their start dates. *)
Lemma chunk_names_order f1 f2 a1 b1 a2 b2 :
  matchChunkName f1 = Some (a1, b1) -> matchChunkName f2 = Some (a2, b2) ->
  String.compare f1 f2 = Lt -> String.leb a1 a2 = true.
Proof.
  intros H1 H2 Hlt.
  apply matchChunkName_inv in H1, H2.
  destruct H1 as (-> & Ha1 & _), H2 as (-> & Ha2 & _).
  apply isDateStr_length in Ha1, Ha2. unfold chunkName in Hlt.
  rewrite string_compare_app in Hlt by congruence.
  unfold String.leb. destruct (String.compare a1 a2); try reflexivity. discriminate.
Qed.

(** A file of the directory is named as a chunk whose window overlaps the
    requested range. *)
Definition overlappingChunk (startDate endDate file : string) : bool :=
  match matchChunkName file with
  | Some (chunkStart, chunkEnd) =>
      String.leb startDate chunkEnd && String.leb chunkStart endDate
  | None => false
  end.

(** The start date in the name of a chunk file. *)
Definition windowStart (file : string) : string :=
  match matchChunkName file with
  | Some (chunkStart, _) => chunkStart
  | None => ""
  end.

(** The date of an event, its timestamp up to the [T], lies in the range. *)
Definition dateWithin (startDate endDate : string) (event : MinimalEvent) : bool :=
  String.leb startDate (Js.beforeT (timestamp event))
  && String.leb (Js.beforeT (timestamp event)) endDate.

(** What the reader takes from one file of the directory: its name and
    its chunk record, when its window overlaps the range. *)
Definition loadedFile (d : Dir) (startDate endDate : string) (file : string)
    : option (string * ChunkData) :=
  if overlappingChunk startDate endDate file then
    match readFile file d with
    | Some (Chunk chunkData) => Some (file, chunkData)
    | _ => None
    end
  else None.

Definition eventsWithin (startDate endDate : string)
    (x : string * ChunkData) : list MinimalEvent :=
  List.filter (dateWithin startDate endDate) (events (snd x)).

Lemma loadFiles_files d startDate endDate files : forall allEvents,
  readable d startDate endDate files ->
  loadFiles d startDate endDate files allEvents =
  Some (allEvents ++ flat_map (eventsWithin startDate endDate)
                      (omap (loadedFile d startDate endDate) files)).
Proof.
  induction files as [|file rest IH]; intros allEvents Hread; simpl.
  - now rewrite app_nil_r.
  - assert (Hrest : readable d startDate endDate rest).
    { intros f a b Hin. apply Hread. now right. }
    unfold loadedFile at 1, overlappingChunk at 1.
    destruct (matchChunkName file) as [[a b]|] eqn:Em; [|now apply IH].
    unfold Js.ge, Js.le.
    destruct (String.leb startDate b && String.leb a endDate) eqn:Eo; [|now apply IH].
    destruct (Hread file a b (or_introl eq_refl) Em Eo) as [c ->].
    rewrite IH by assumption. simpl. unfold eventsWithin at 2. simpl.
    now rewrite app_assoc.
Qed.

Lemma loadedFile_names d startDate endDate files :
  readable d startDate endDate files ->
  map fst (omap (loadedFile d startDate endDate)
             (List.filter (fun f => Js.endsWith f ".json") files)) =
  List.filter (overlappingChunk startDate endDate) files.
Proof.
  induction files as [|file rest IH]; intros Hread; [reflexivity|].
  assert (Hrest : readable d startDate endDate rest).
  { intros f a b Hin. apply Hread. now right. }
  specialize (IH Hrest). cbn [List.filter].
  destruct (overlappingChunk startDate endDate file) eqn:Eo.
  - pose proof Eo as Eo'. unfold overlappingChunk in Eo'.
    destruct (matchChunkName file) as [[a b]|] eqn:Em; [|discriminate].
    rewrite (matchChunkName_json _ _ Em). cbn [omap list_omap].
    unfold loadedFile at 1. rewrite Eo.
    destruct (Hread file a b (or_introl eq_refl) Em Eo') as [c ->].
    cbn [map fst]. now rewrite <- IH.
  - destruct (Js.endsWith file ".json"); [|exact IH].
    cbn [omap list_omap]. unfold loadedFile at 1. rewrite Eo. exact IH.
Qed.

Lemma loadedFile_reads d startDate endDate files :
  Forall (fun x => readFile (fst x) d = Some (Chunk (snd x)))
    (omap (loadedFile d startDate endDate) files).
Proof.
  apply List.Forall_forall. intros [f c] Hx. apply In_omap in Hx.
  destruct Hx as (file & _ & Hl). unfold loadedFile in Hl.
  destruct (overlappingChunk startDate endDate file); [|discriminate].
  destruct (readFile file d) as [[c'|]|] eqn:Er; try discriminate.
  injection Hl as <- <-. exact Er.
Qed.

Lemma overlappingChunk_spec startDate endDate file :
  overlappingChunk startDate endDate file = true <->
  exists chunkStart chunkEnd,
    file = chunkName chunkStart chunkEnd
    /\ isDateStr chunkStart = true /\ isDateStr chunkEnd = true
    /\ String.leb startDate chunkEnd = true
    /\ String.leb chunkStart endDate = true.
Proof.
  unfold overlappingChunk. split.
  - destruct (matchChunkName file) as [[a b]|] eqn:Em; [|discriminate].
    intros H. apply andb_true_iff in H. apply matchChunkName_inv in Em.
    exists a, b. tauto.
  - intros (a & b & -> & Ha & Hb & H1 & H2).
    rewrite (matchChunkName_chunkName a b Ha Hb). now rewrite H1, H2.
Qed.

Lemma StronglySorted_within {A} (R S : A -> A -> Prop) l :
  (forall x y, In x l -> In y l -> R x y -> S x y) ->
  StronglySorted R l -> StronglySorted S l.
Proof.
  intros HRS Hl. induction Hl as [|x l Hl IH Hall]; constructor.
  - apply IH. intros a b Ha Hb. apply HRS; now right.
  - rewrite List.Forall_forall in *. intros y Hy.
    apply HRS; [now left|now right|now apply Hall].
Qed.

(** The reading of C3 as it is stated: the chunks that overlap the range
    are loaded in ascending order of their start dates, and the events are
    those of their dates in the range, chunk after chunk. *)
Definition readsInStartOrder (fs : FS)
    (issueId issueName startDate endDate : string) : Prop :=
  let d := default [] (fs !! getChunkDir issueId issueName) in
  exists loaded : list (string * ChunkData),
    (forall file chunkData,
       In (file, chunkData) loaded <->
       overlappingChunk startDate endDate file = true
       /\ readFile file d = Some (Chunk chunkData))
    /\ StronglySorted
         (fun x y => String.leb (windowStart (fst x)) (windowStart (fst y)) = true)
         loaded
    /\ loadChunksInDateRange fs issueId issueName startDate endDate =
       Some (flat_map (eventsWithin startDate endDate) loaded).

(** C3, as amended: the reader loads the files of the directory that are
    named as a chunk whose window overlaps the requested range, these and
    no others, each once, in the order in which the directory lists them;
    it returns, chunk after chunk in that order, the events of each chunk
    whose date lies in the range, in the order the chunk holds them.  The
    program does not sort: the chunks come in ascending order of their
    start dates when the directory lists its files by ascending name. *)
Theorem reader_loads_overlapping_chunks (fs : FS)
    (issueId issueName startDate endDate : string) :
  let d := default [] (fs !! getChunkDir issueId issueName) in
  readable d startDate endDate (readdir d) ->
  exists (loaded : list (string * ChunkData)) (result : list MinimalEvent),
    loadChunksInDateRange fs issueId issueName startDate endDate = Some result
    /\ map fst loaded = List.filter (overlappingChunk startDate endDate) (readdir d)
    /\ (forall file,
          In file (map fst loaded) <->
          In file (readdir d)
          /\ exists chunkStart chunkEnd,
               file = chunkName chunkStart chunkEnd
               /\ isDateStr chunkStart = true /\ isDateStr chunkEnd = true
               /\ String.leb startDate chunkEnd = true
               /\ String.leb chunkStart endDate = true)
    /\ Forall (fun x => readFile (fst x) d = Some (Chunk (snd x))) loaded
    /\ result =
       flat_map (fun x => List.filter (dateWithin startDate endDate) (events (snd x)))
         loaded
    /\ Forall (fun event =>
                 String.leb startDate (Js.beforeT (timestamp event)) = true
                 /\ String.leb (Js.beforeT (timestamp event)) endDate = true)
         result
    /\ (dirSorted d ->
          StronglySorted (fun f g => String.compare f g = Lt) (map fst loaded)
          /\ StronglySorted
               (fun f g => String.leb (windowStart f) (windowStart g) = true)
               (map fst loaded)).
Proof.
  intros d Hread.
  set (files := List.filter (fun f => Js.endsWith f ".json") (readdir d)).
  set (loaded := omap (loadedFile d startDate endDate) files).
  assert (Hnames : map fst loaded =
                   List.filter (overlappingChunk startDate endDate) (readdir d))
    by now apply loadedFile_names.
  exists loaded, (flat_map (eventsWithin startDate endDate) loaded).
  split; [|split; [exact Hnames|split; [|split; [|split; [reflexivity|split]]]]].
  - unfold loadChunksInDateRange. subst loaded files d.
    destruct (fs !! getChunkDir issueId issueName) as [d|] eqn:E; simpl in *.
    + rewrite loadFiles_files; [reflexivity|].
      intros f a b Hin. apply filter_In in Hin. now apply Hread.
    + reflexivity.
  - intros file. rewrite Hnames, filter_In, overlappingChunk_spec. reflexivity.
  - apply loadedFile_reads.
  - apply List.Forall_forall. intros event He. apply in_flat_map in He.
    destruct He as (x & _ & He). apply filter_In in He. destruct He as [_ He].
    now apply andb_true_iff in He.
  - intros Hsorted.
    assert (Hlt : StronglySorted (fun f g => String.compare f g = Lt) (map fst loaded)).
    { rewrite Hnames. now apply StronglySorted_filter, dirSorted_readdir. }
    split; [exact Hlt|].
    apply (StronglySorted_within (fun f g => String.compare f g = Lt)); [|exact Hlt].
    intros f g Hf Hg. rewrite Hnames in Hf, Hg.
    apply filter_In in Hf, Hg. destruct Hf as [_ Hf], Hg as [_ Hg].
    unfold overlappingChunk in Hf, Hg. unfold windowStart.
    destruct (matchChunkName f) as [[a1 b1]|] eqn:E1; [|discriminate].
    destruct (matchChunkName g) as [[a2 b2]|] eqn:E2; [|discriminate].
    eapply chunk_names_order; eauto.
Qed.

End ReaderClaims.

Section RoundTrip.
Import Store StoreFacts Reader Examples.


Lemma filter_all {A} (p : A -> bool) l :
  Forall (fun x => p x = true) l -> List.filter p l = l.
Proof. induction 1 as [|x l Hx _ IH]; simpl; [reflexivity|]. now rewrite Hx, IH. Qed.




Definition inWindowEvent : MinimalEvent :=
  mkMinimalEvent "2025-09-10T08:15:00Z" (Some "a1") "u1"
    (Some "Insufficient Funds") None None None None.

Definition lateEvent : MinimalEvent :=
  mkMinimalEvent "2025-10-01T00:00:00Z" (Some "a9") "u9"
    (Some "Insufficient Funds") None None None None.



End RoundTrip.

Section ReaderRun.
Import Store StoreFacts Reader Examples.

(** A store with the chunks of two weeks, the later one saved first. *)
Definition twoWeeks : FS :=
  saveChunk "2025-09-24T06:00:00.000Z"
    (saveChunk "2025-09-23T06:00:00.000Z" ∅ errorIssue "Payment Error"
       "2025-09-16" "2025-09-22" [lateEvent; inWindowEvent])
    errorIssue "Payment Error" "2025-09-09" "2025-09-15" [inWindowEvent].

Example reading_two_weeks :
  loadChunksInDateRange twoWeeks errorIssue "Payment Error" "2025-09-10" "2025-09-16"
  = Some [inWindowEvent; inWindowEvent].
Proof. reflexivity. Qed.

(** A range that overlaps both chunks of the store; the later chunk
    holds an event dated after the range. *)
Lemma reader_loads_overlapping_chunks_witness :
  let d := default [] (twoWeeks !! getChunkDir errorIssue "Payment Error") in
  readable d "2025-09-10" "2025-09-16" (readdir d)
  /\ exists (loaded : list (string * ChunkData)) (result : list MinimalEvent),
       loadChunksInDateRange twoWeeks errorIssue "Payment Error"
         "2025-09-10" "2025-09-16" = Some result
       /\ map fst loaded =
          List.filter (overlappingChunk "2025-09-10" "2025-09-16") (readdir d)
       /\ (forall file,
             In file (map fst loaded) <->
             In file (readdir d)
             /\ exists chunkStart chunkEnd,
                  file = chunkName chunkStart chunkEnd
                  /\ isDateStr chunkStart = true /\ isDateStr chunkEnd = true
                  /\ String.leb "2025-09-10" chunkEnd = true
                  /\ String.leb chunkStart "2025-09-16" = true)
       /\ Forall (fun x => readFile (fst x) d = Some (Chunk (snd x))) loaded
       /\ result =
          flat_map
            (fun x => List.filter (dateWithin "2025-09-10" "2025-09-16") (events (snd x)))
            loaded
       /\ Forall (fun event =>
                    String.leb "2025-09-10" (Js.beforeT (timestamp event)) = true
                    /\ String.leb (Js.beforeT (timestamp event)) "2025-09-16" = true)
            result
       /\ (dirSorted d ->
             StronglySorted (fun f g => String.compare f g = Lt) (map fst loaded)
             /\ StronglySorted
                  (fun f g => String.leb (windowStart f) (windowStart g) = true)
                  (map fst loaded)).
Proof.
  cbv zeta.
  assert (H : readable (default [] (twoWeeks !! getChunkDir errorIssue "Payment Error"))
                 "2025-09-10" "2025-09-16"
                 (readdir (default [] (twoWeeks !! getChunkDir errorIssue "Payment Error")))).
  { intros f a b Hf Hm Ho. vm_compute in Hf.
    destruct Hf as [<-|[<-|[]]]; eexists; vm_compute; reflexivity. }
  split; [exact H|].
  exact (reader_loads_overlapping_chunks twoWeeks errorIssue "Payment Error"
           "2025-09-10" "2025-09-16" H).
Defined.

Definition laterEvent : MinimalEvent :=
  mkMinimalEvent "2025-09-17T10:00:00Z" (Some "a2") "u2"
    (Some "Card Declined") None None None None.

Definition laterWeek : ChunkData :=
  mkChunkData "2025-09-23T06:00:00.000Z" errorIssue "Payment Error"
    "2025-09-16" "2025-09-22" 1 [laterEvent].

Definition earlierWeek : ChunkData :=
  mkChunkData "2025-09-24T06:00:00.000Z" errorIssue "Payment Error"
    "2025-09-09" "2025-09-15" 1 [inWindowEvent].

(** A store whose directory lists the chunk of the later week first. *)
Definition laterWeekFirst : FS :=
  {[ getChunkDir errorIssue "Payment Error" :=
       [ (chunkName "2025-09-16" "2025-09-22", Chunk laterWeek);
         (chunkName "2025-09-09" "2025-09-15", Chunk earlierWeek) ] ]}.

Example reading_in_listing_order :
  loadChunksInDateRange laterWeekFirst errorIssue "Payment Error"
    "2025-09-09" "2025-09-22"
  = Some [laterEvent; inWindowEvent].
Proof. reflexivity. Qed.

(** C3, as stated, fails: the reader does not sort, and where the
    directory lists the later chunk first, the events of the later chunk
    come first. *)
Lemma reader_order_counterexample :
  ~ readsInStartOrder laterWeekFirst errorIssue "Payment Error"
      "2025-09-09" "2025-09-22".
Proof.
  unfold readsInStartOrder. cbv zeta.
  intros (loaded & Hmem & Hsort & Hload).
  rewrite reading_in_listing_order in Hload. injection Hload as Hload.
  assert (Hone : forall x, In x loaded ->
            x = (chunkName "2025-09-16" "2025-09-22", laterWeek)
            \/ x = (chunkName "2025-09-09" "2025-09-15", earlierWeek)).
  { intros [file c] Hx. apply Hmem in Hx. destruct Hx as [_ Hr].
    unfold laterWeekFirst in Hr. rewrite lookup_singleton_eq in Hr.
    cbn [from_option id readFile] in Hr.
    destruct (String.eqb_spec (chunkName "2025-09-16" "2025-09-22") file) as [<-|_].
    { left. congruence. }
    destruct (String.eqb_spec (chunkName "2025-09-09" "2025-09-15") file) as [<-|_].
    { right. congruence. }
    discriminate Hr. }
  destruct loaded as [|x1 [|x2 [|x3 rest]]].
  - discriminate Hload.
  - destruct (Hone x1 (or_introl eq_refl)) as [->| ->]; discriminate Hload.
  - destruct (Hone x1 (or_introl eq_refl)) as [->| ->];
      destruct (Hone x2 (or_intror (or_introl eq_refl))) as [->| ->];
      try discriminate Hload.
    inversion Hsort as [|? ? _ Hall]. inversion Hall as [|? ? Hle _].
    discriminate Hle.
  - destruct (Hone x1 (or_introl eq_refl)) as [->| ->];
      destruct (Hone x2 (or_intror (or_introl eq_refl))) as [->| ->];
      destruct (Hone x3 (or_intror (or_intror (or_introl eq_refl)))) as [->| ->];
      discriminate Hload.
Qed.

(** Three planned windows and a fourth of other bounds, on a disk that
    holds the chunks of the first two: the third and the fourth are
    missing. *)
Lemma gap_detector_exact_and_monotonic_witness :
  let allRanges :=
    [ mkRange "2025-09-09" "2025-09-15"; mkRange "2025-09-16" "2025-09-22";
      mkRange "2025-09-23" "2025-09-29"; mkRange "2025-09-09" "2025-09-22" ] in
  let missing :=
    Fetcher.missingRanges allRanges
      (loadExistingChunks twoWeeks errorIssue "Payment Error") in
  missing = [ mkRange "2025-09-23" "2025-09-29"; mkRange "2025-09-09" "2025-09-22" ]
  /\ missing =
     List.filter (fun r => negb (fileOnDiskb twoWeeks errorIssue "Payment Error" r))
       allRanges
  /\ (forall r, In r missing <->
                In r allRanges /\ ~ fileOnDisk twoWeeks errorIssue "Payment Error" r)
  /\ ((forall r, In r allRanges -> fileOnDisk twoWeeks errorIssue "Payment Error" r) ->
      missing = [])
  /\ (forall fs' : FS,
        let missing' :=
          Fetcher.missingRanges allRanges
            (loadExistingChunks fs' errorIssue "Payment Error") in
        (forall r, fileOnDisk twoWeeks errorIssue "Payment Error" r ->
                   fileOnDisk fs' errorIssue "Payment Error" r) ->
        (forall r, In r missing' -> In r missing)
        /\ (List.length missing' <= List.length missing)%nat).
Proof.
  cbv zeta. split; [reflexivity|].
  exact (gap_detector_exact_and_monotonic twoWeeks errorIssue "Payment Error"
           [ mkRange "2025-09-09" "2025-09-15"; mkRange "2025-09-16" "2025-09-22";
             mkRange "2025-09-23" "2025-09-29"; mkRange "2025-09-09" "2025-09-22" ]).
Defined.

(** A chunk of other bounds does not stand for a planned window, even
    when it covers the same days. *)
Example other_bounds_do_not_match :
  let fs := saveChunk "2025-09-23T06:00:00.000Z" ∅ errorIssue "Payment Error"
              "2025-09-09" "2025-09-22" [] in
  Fetcher.missingRanges
    [ mkRange "2025-09-09" "2025-09-15"; mkRange "2025-09-16" "2025-09-22" ]
    (loadExistingChunks fs errorIssue "Payment Error")
  = [ mkRange "2025-09-09" "2025-09-15"; mkRange "2025-09-16" "2025-09-22" ].
Proof. reflexivity. Qed.

End ReaderRun.

(* ===================================================================== *)
(** ** Claims about the payment error aggregator *)
(* ===================================================================== *)

Section AggregateClaims.
Import Aggregate.

(** The reasons of the events, in their order, and the distinct ones in
    the order in which they are first seen. *)
Definition reasons (events : list MinimalEvent) : list string := map reasonOf events.

Fixpoint firstSeen (l : list string) : list string :=
  match l with
  | [] => []
  | k :: rest => k :: List.filter (fun k' => negb (String.eqb k' k)) (firstSeen rest)
  end.

(** The events of a group, their number and their distinct users. *)
Definition eventsOf (k : string) (events : list MinimalEvent) : list MinimalEvent :=
  List.filter (fun event => String.eqb (reasonOf event) k) events.

Definition occurrences (k : string) (events : list MinimalEvent) : nat :=
  List.length (eventsOf k events).

Definition usersOf (k : string) (events : list MinimalEvent) : gset string :=
  list_to_set (map userId (eventsOf k events)).

Definition distinctUsers (k : string) (events : list MinimalEvent) : nat :=
  List.length (remove_dups (map userId (eventsOf k events))).

(** A reason that is neither the name of a property of
    [Object.prototype] nor an array index. *)
Definition plainReason (k : string) : Prop :=
  inherited k = false /\ arrayIndex k = None.

Definition bucketOf (events : list MinimalEvent) (k : string) : Bucket :=
  mkBucket (occurrences k events) (usersOf k events).

Definition rowOf (events : list MinimalEvent) (k : string) : ReasonRow :=
  mkRow k (occurrences k events) (distinctUsers k events).

Definition member (k : string) (l : list string) : bool := existsb (String.eqb k) l.

Lemma member_In k l : member k l = true <-> In k l.
Proof.
  unfold member. rewrite existsb_exists. split.
  - intros (x & Hx & E). apply String.eqb_eq in E. now subst.
  - intros H. exists k. split; [assumption|apply String.eqb_refl].
Qed.

Lemma In_firstSeen k l : In k (firstSeen l) <-> In k l.
Proof.
  induction l as [|a l IH]; simpl; [reflexivity|].
  rewrite filter_In, IH, negb_true_iff, String.eqb_neq.
  destruct (string_dec a k); intuition congruence.
Qed.

Lemma firstSeen_NoDup l : List.NoDup (firstSeen l).
Proof.
  induction l as [|a l IH]; simpl; constructor.
  - rewrite filter_In, negb_true_iff, String.eqb_neq. tauto.
  - now apply List.NoDup_filter.
Qed.

Lemma firstSeen_snoc k l :
  firstSeen (l ++ [k]) = if member k l then firstSeen l else firstSeen l ++ [k].
Proof.
  induction l as [|a l IH]; simpl; [reflexivity|]. rewrite IH.
  destruct (String.eqb_spec k a) as [->|Hne]; simpl.
  - destruct (member a l); [reflexivity|].
    rewrite List.filter_app. simpl. rewrite String.eqb_refl. simpl. now rewrite app_nil_r.
  - destruct (member k l); [reflexivity|].
    rewrite List.filter_app. simpl.
    destruct (String.eqb_spec k a); [contradiction|reflexivity].
Qed.

Lemma getOwn_map (g : string -> Bucket) k l :
  getOwn (map (fun k' => (k', g k')) l) k = if member k l then Some (g k) else None.
Proof.
  induction l as [|a l IH]; simpl; [reflexivity|].
  rewrite (String.eqb_sym k a).
  destruct (String.eqb_spec a k) as [->|Hne]; simpl; [reflexivity|exact IH].
Qed.

Lemma setOwn_map_new (g : string -> Bucket) k b l :
  member k l = false ->
  setOwn (map (fun k' => (k', g k')) l) k b = map (fun k' => (k', g k')) l ++ [(k, b)].
Proof.
  induction l as [|a l IH]; simpl; [reflexivity|].
  rewrite (String.eqb_sym k a).
  destruct (String.eqb a k); simpl; [discriminate|]. intros H. now rewrite IH.
Qed.

Lemma setOwn_map_old (g : string -> Bucket) k b l :
  List.NoDup l -> member k l = true ->
  setOwn (map (fun k' => (k', g k')) l) k b =
  map (fun k' => (k', if String.eqb k' k then b else g k')) l.
Proof.
  induction 1 as [|a l Ha Hnd IH]; simpl; [discriminate|].
  rewrite (String.eqb_sym k a).
  destruct (String.eqb_spec a k) as [->|Hne]; simpl.
  - intros _. f_equal. apply map_ext_in. intros x Hx.
    destruct (String.eqb_spec x k); [congruence|reflexivity].
  - intros H. now rewrite IH.
Qed.

Lemma eventsOf_snoc k events event :
  eventsOf k (events ++ [event]) =
  eventsOf k events ++ (if String.eqb (reasonOf event) k then [event] else []).
Proof. unfold eventsOf. now rewrite List.filter_app. Qed.

Lemma eventsOf_unseen k events :
  member k (reasons events) = false -> eventsOf k events = [].
Proof.
  unfold reasons, eventsOf. induction events as [|e l IH]; simpl; [reflexivity|].
  rewrite (String.eqb_sym k). destruct (String.eqb (reasonOf e) k); simpl; [discriminate|].
  exact IH.
Qed.

Lemma bucketOf_snoc events event k :
  bucketOf (events ++ [event]) k =
  if String.eqb k (reasonOf event) then bump (bucketOf events k) (userId event)
  else bucketOf events k.
Proof.
  unfold bucketOf, occurrences, usersOf. rewrite eventsOf_snoc.
  rewrite (String.eqb_sym k).
  destruct (String.eqb (reasonOf event) k); [|now rewrite app_nil_r].
  unfold bump. simpl. rewrite length_app, map_app. simpl. f_equal; [lia|].
  rewrite list_to_set_snoc_L. apply union_comm_L.
Qed.

Lemma collect_app l1 : forall l2 o,
  collect (l1 ++ l2) o =
  match collect l1 o with Some o' => collect l2 o' | None => None end.
Proof.
  induction l1 as [|e l1 IH]; intros l2 o; simpl; [reflexivity|].
  destruct (getOwn o (reasonOf e)); [apply IH|].
  destruct (inherited (reasonOf e)); [reflexivity|apply IH].
Qed.

(** The object that the loop builds: one property for each reason, in
    the order in which the reasons are first seen. *)
Lemma collect_spec events :
  Forall (fun event => inherited (reasonOf event) = false) events ->
  collect events [] =
  Some (map (fun k => (k, bucketOf events k)) (firstSeen (reasons events))).
Proof.
  induction events as [|event events IH] using rev_ind; intros Hall; [reflexivity|].
  apply Forall_app in Hall. destruct Hall as [Hall Hev].
  inversion_clear Hev as [|? ? Hinh _].
  rewrite collect_app, (IH Hall). simpl.
  unfold reasons. rewrite map_app. simpl. fold (reasons events).
  rewrite firstSeen_snoc, getOwn_map.
  assert (Hmem : member (reasonOf event) (firstSeen (reasons events))
                 = member (reasonOf event) (reasons events)).
  { apply eq_true_iff_eq. rewrite !member_In. apply In_firstSeen. }
  rewrite Hmem. destruct (member (reasonOf event) (reasons events)) eqn:Em.
  - rewrite setOwn_map_old by (rewrite ?Hmem; auto using firstSeen_NoDup).
    f_equal. apply map_ext. intros k. rewrite bucketOf_snoc.
    destruct (String.eqb_spec k (reasonOf event)) as [->|]; reflexivity.
  - rewrite Hinh, setOwn_map_new by now rewrite Hmem.
    f_equal. rewrite map_app. simpl. f_equal.
    + apply map_ext_in. intros k Hk. rewrite bucketOf_snoc.
      destruct (String.eqb_spec k (reasonOf event)) as [->|]; [|reflexivity].
      apply (proj1 (In_firstSeen _ _)), (proj2 (member_In _ _)) in Hk. congruence.
    + rewrite bucketOf_snoc, String.eqb_refl. do 2 f_equal.
      unfold bucketOf, occurrences, usersOf. now rewrite eventsOf_unseen.
Qed.

Lemma indexed_plain (o : JsObject) :
  Forall (fun kb => arrayIndex (fst kb) = None) o -> indexed o = [].
Proof.
  induction 1 as [|[k b] o Hk _ IH]; [reflexivity|].
  simpl in *. now rewrite Hk.
Qed.

Lemma named_plain (o : JsObject) :
  Forall (fun kb => arrayIndex (fst kb) = None) o -> named o = o.
Proof.
  unfold named. induction 1 as [|[k b] o Hk _ IH]; [reflexivity|].
  simpl in *. rewrite Hk. now f_equal.
Qed.

Lemma Object_entries_plain (o : JsObject) :
  Forall (fun kb => arrayIndex (fst kb) = None) o -> Object_entries o = o.
Proof.
  intros H. unfold Object_entries. now rewrite indexed_plain, named_plain.
Qed.

(** *** The sort *)

Lemma insertRow_perm x l : Permutation (insertRow x l) (x :: l).
Proof.
  induction l as [|y l IH]; simpl; [reflexivity|].
  destruct (count y <=? count x)%nat; [reflexivity|].
  rewrite IH. apply perm_swap.
Qed.

Lemma sortRows_perm l : Permutation (sortRows l) l.
Proof.
  induction l as [|x l IH]; simpl; [reflexivity|].
  rewrite insertRow_perm. now constructor.
Qed.

Definition descending (a b : ReasonRow) : Prop := (count b <= count a)%nat.

Lemma insertRow_sorted x l :
  StronglySorted descending l -> StronglySorted descending (insertRow x l).
Proof.
  induction 1 as [|y l Hl IH Hall]; simpl; [repeat constructor|].
  destruct (Nat.leb_spec (count y) (count x)) as [Hle|Hgt].
  - constructor; [now constructor|]. constructor; [exact Hle|].
    eapply List.Forall_impl; [|exact Hall]. unfold descending. intros; lia.
  - constructor; [exact IH|].
    apply List.Forall_forall. intros z Hz.
    apply (Permutation_in _ (insertRow_perm x l)) in Hz. destruct Hz as [<-|Hz].
    + unfold descending. lia.
    + rewrite List.Forall_forall in Hall. now apply Hall.
Qed.

Lemma sortRows_sorted l : StronglySorted descending (sortRows l).
Proof.
  induction l as [|x l IH]; simpl; [constructor|]. now apply insertRow_sorted.
Qed.

(** The sort is stable: the rows of one count keep their order. *)
Lemma insertRow_stable c x l :
  List.filter (fun r => (count r =? c)%nat) (insertRow x l) =
  List.filter (fun r => (count r =? c)%nat) (x :: l).
Proof.
  induction l as [|y l IH]; [reflexivity|]. simpl.
  destruct (Nat.leb_spec (count y) (count x)) as [Hle|Hgt]; [reflexivity|].
  simpl in *. rewrite IH.
  destruct (Nat.eqb_spec (count x) c), (Nat.eqb_spec (count y) c);
    try reflexivity. lia.
Qed.

Lemma sortRows_stable c l :
  List.filter (fun r => (count r =? c)%nat) (sortRows l) =
  List.filter (fun r => (count r =? c)%nat) l.
Proof.
  induction l as [|x l IH]; [reflexivity|]. simpl.
  rewrite insertRow_stable. simpl. now rewrite IH.
Qed.

Lemma size_distinct (l : list string) :
  size (list_to_set l : gset string) = List.length (remove_dups l).
Proof.
  rewrite <- (size_list_to_set (C := gset string) (remove_dups l))
    by apply NoDup_remove_dups.
  f_equal. apply set_eq. intros x.
  now rewrite !elem_of_list_to_set, elem_of_remove_dups.
Qed.

(** The aggregator on events with plain reasons: the rows of the groups
    in first-seen order, sorted. *)
Lemma processPaymentErrors_plain events :
  Forall (fun event => plainReason (reasonOf event)) events ->
  processPaymentErrors events =
  Some (sortRows (map (rowOf events) (firstSeen (reasons events)))).
Proof.
  intros Hplain. unfold processPaymentErrors.
  rewrite collect_spec
    by (eapply List.Forall_impl; [|exact Hplain]; now intros e [H _]).
  rewrite Object_entries_plain.
  - rewrite map_map. do 2 f_equal. apply map_ext. intros k.
    unfold rowOf, bucketOf. simpl. f_equal. apply size_distinct.
  - apply Forall_map. apply List.Forall_forall. intros k Hk. simpl.
    apply (proj1 (In_firstSeen _ _)) in Hk. unfold reasons in Hk.
    apply in_map_iff in Hk.
    destruct Hk as (e & <- & He).
    rewrite List.Forall_forall in Hplain. now destruct (Hplain e He).
Qed.

Lemma filter_rows c events ks :
  map reason (List.filter (fun r => (count r =? c)%nat) (map (rowOf events) ks)) =
  List.filter (fun k => (occurrences k events =? c)%nat) ks.
Proof.
  induction ks as [|k ks IH]; [reflexivity|]. simpl.
  destruct (occurrences k events =? c)%nat; simpl; now rewrite IH.
Qed.

(** The rows of one count come in the order in which their reasons are
    first seen among the events. *)
Definition tiesInFirstSeenOrder (events : list MinimalEvent)
    (results : list ReasonRow) : Prop :=
  forall c,
    map reason (List.filter (fun r => (count r =? c)%nat) results) =
    List.filter (fun k => (occurrences k events =? c)%nat) (firstSeen (reasons events)).

Definition withReason (r : string) (m : MinimalEvent) : MinimalEvent :=
  Extract.setReason r m.

(** C8, as amended: on events whose reasons are neither array indices
    nor names of properties of [Object.prototype], the aggregator returns
    one row for each reason, a reason ending in "is not a valid card
    number" counting as the grouped reason; a row holds the number of
    events of its reason and the number of their distinct users; the rows
    are sorted by descending count, and rows of one count are in
    first-seen order.  The three reasons of the scenario give the grouped
    row with count 2, then Insufficient Funds with count 1. *)
Theorem aggregator_groups_counts_sorts (events : list MinimalEvent) :
  Forall (fun event => plainReason (reasonOf event)) events ->
  exists results,
    processPaymentErrors events = Some results
    /\ Permutation (map reason results) (firstSeen (reasons events))
    /\ Forall (fun r => count r = occurrences (reason r) events
                        /\ uniqueUsers r = distinctUsers (reason r) events) results
    /\ StronglySorted descending results
    /\ tiesInFirstSeenOrder events results
    /\ (forall m1 m2 m3,
          option_map (map (fun r => (reason r, count r)))
            (processPaymentErrors
               [ withReason "Card XXXX is not a valid card number" m1;
                 withReason "Insufficient Funds" m2;
                 withReason "Card YYYY is not a valid card number" m3 ])
          = Some [ (invalidCardNumberKey, 2%nat); ("Insufficient Funds", 1%nat) ]).
Proof.
  intros Hplain.
  exists (sortRows (map (rowOf events) (firstSeen (reasons events)))).
  split; [now apply processPaymentErrors_plain|].
  split.
  { rewrite sortRows_perm, map_map. simpl. now rewrite map_id. }
  split.
  { apply List.Forall_forall. intros r Hr.
    apply (Permutation_in _ (sortRows_perm _)), in_map_iff in Hr.
    destruct Hr as (k & <- & _). now split. }
  split; [apply sortRows_sorted|].
  split.
  { intros c. rewrite sortRows_stable. apply filter_rows. }
  intros m1 m2 m3. reflexivity.
Qed.

Definition failedPayment (r user : string) : MinimalEvent :=
  mkMinimalEvent "2025-09-10T08:15:00Z" None user (Some r) None None None None.

Definition sampleEvents : list MinimalEvent :=
  [ failedPayment "Card 4111 is not a valid card number" "u1";
    failedPayment "Insufficient Funds" "u2";
    failedPayment "CVV2 Value Invalid" "u3";
    failedPayment "Card 5500 is not a valid card number" "u1";
    failedPayment "Insufficient Funds" "u4" ].

Example aggregate_of_the_sample :
  processPaymentErrors sampleEvents =
  Some [ mkRow invalidCardNumberKey 2 1; mkRow "Insufficient Funds" 2 2;
         mkRow "CVV2 Value Invalid" 1 1 ].
Proof. reflexivity. Qed.

Lemma aggregator_groups_counts_sorts_witness :
  Forall (fun event => plainReason (reasonOf event)) sampleEvents
  /\ exists results,
       processPaymentErrors sampleEvents = Some results
       /\ Permutation (map reason results) (firstSeen (reasons sampleEvents))
       /\ Forall (fun r => count r = occurrences (reason r) sampleEvents
                           /\ uniqueUsers r = distinctUsers (reason r) sampleEvents) results
       /\ StronglySorted descending results
       /\ tiesInFirstSeenOrder sampleEvents results
       /\ (forall m1 m2 m3,
             option_map (map (fun r => (reason r, count r)))
               (processPaymentErrors
                  [ withReason "Card XXXX is not a valid card number" m1;
                    withReason "Insufficient Funds" m2;
                    withReason "Card YYYY is not a valid card number" m3 ])
             = Some [ (invalidCardNumberKey, 2%nat); ("Insufficient Funds", 1%nat) ]).
Proof.
  assert (H : Forall (fun event => plainReason (reasonOf event)) sampleEvents)
    by (repeat constructor).
  split; [exact H|]. exact (aggregator_groups_counts_sorts sampleEvents H).
Defined.

(** The aggregator as C8 states it, for every list of events: it
    returns rows, and rows of one count are in first-seen order. *)
Definition aggregatesInFirstSeenOrder (events : list MinimalEvent) : Prop :=
  exists results,
    processPaymentErrors events = Some results
    /\ tiesInFirstSeenOrder events results.

(** C8, as stated, fails: a reason that is an array index, here the
    response code 51, comes before the reasons seen earlier. *)
Lemma aggregator_ties_counterexample :
  ~ aggregatesInFirstSeenOrder
      [ failedPayment "Do Not Honor" "u1"; failedPayment "51" "u2" ].
Proof.
  intros (results & H & Hties).
  replace (processPaymentErrors _)
    with (Some [mkRow "51" 1 1; mkRow "Do Not Honor" 1 1]) in H by reflexivity.
  injection H as <-. specialize (Hties 1%nat). discriminate Hties.
Qed.

(** A reason that names a property of [Object.prototype] makes the
    aggregator throw. *)
Example aggregate_throws_on_inherited_name :
  processPaymentErrors [ failedPayment "constructor" "u1" ] = None.
Proof. reflexivity. Qed.

End AggregateClaims.

(* ===================================================================== *)
(** * Further properties of the code *)
(* ===================================================================== *)

(* ===================================================================== *)
(** ** Objects used as maps *)
(* ===================================================================== *)

Section ObjectFacts.
Import Aggregate.

Lemma insertIndexed_perm {A} (n : N) (x : A) l :
  Permutation (insertIndexed n x l) ((n, x) :: l).
Proof.
  induction l as [|[m y] l IH]; simpl; [reflexivity|].
  destruct (n <? m)%N; [reflexivity|]. rewrite IH. apply perm_swap.
Qed.

(** [Object.entries] lists every own property once. *)
Lemma Object_entries_perm (o : JsObject) : Permutation (Object_entries o) o.
Proof.
  unfold Object_entries, named. induction o as [|[k b] o IH]; [reflexivity|].
  simpl. destruct (arrayIndex k) as [n|]; simpl.
  - rewrite insertIndexed_perm. simpl. now constructor.
  - rewrite <- Permutation_middle. now constructor.
Qed.

(** The array indices come first, in ascending order. *)
Definition ascendingIndex {A} (l : list (N * A)) : Prop :=
  StronglySorted (fun x y => (fst x <= fst y)%N) l.

Lemma insertIndexed_sorted {A} (n : N) (x : A) l :
  ascendingIndex l -> ascendingIndex (insertIndexed n x l).
Proof.
  unfold ascendingIndex. induction 1 as [|[m y] l Hl IH Hall]; simpl.
  - repeat constructor.
  - destruct (N.ltb_spec n m) as [Hlt|Hge].
    + constructor; [now constructor|]. constructor; [simpl; lia|].
      eapply List.Forall_impl; [|exact Hall]. simpl. intros; lia.
    + constructor; [exact IH|]. apply List.Forall_forall. intros z Hz.
      apply (Permutation_in _ (insertIndexed_perm n x l)) in Hz.
      destruct Hz as [<-|Hz]; [simpl; lia|].
      rewrite List.Forall_forall in Hall. now apply Hall.
Qed.

Lemma indexed_sorted (o : JsObject) : ascendingIndex (indexed o).
Proof.
  induction o as [|[k b] o IH]; simpl; [constructor|].
  destruct (arrayIndex k); [now apply insertIndexed_sorted|exact IH].
Qed.

Lemma indexed_keys (o : JsObject) :
  Forall (fun e => arrayIndex (fst (snd e)) = Some (fst e)) (indexed o).
Proof.
  induction o as [|[k b] o IH]; simpl; [constructor|].
  destruct (arrayIndex k) as [n|] eqn:E; [|exact IH].
  apply List.Forall_forall. intros z Hz.
  apply (Permutation_in _ (insertIndexed_perm _ _ _)) in Hz.
  destruct Hz as [<-|Hz]; [exact E|].
  rewrite List.Forall_forall in IH. now apply IH.
Qed.

End ObjectFacts.

(* ===================================================================== *)
(** ** Grouping events under a key *)
(* ===================================================================== *)

Section GroupBy.
Import Aggregate.

Variable key : MinimalEvent -> string.

(** The loop that fills an object with one bucket for each key. *)
Fixpoint collectBy (events : list MinimalEvent) (data : JsObject) : option JsObject :=
  match events with
  | [] => Some data
  | event :: rest =>
      match getOwn data (key event) with
      | Some b => collectBy rest (setOwn data (key event) (bump b (userId event)))
      | None =>
          if inherited (key event) then None
          else collectBy rest (setOwn data (key event) (bump (mkBucket 0 ∅) (userId event)))
      end
  end.

Definition groupOf (k : string) (events : list MinimalEvent) : list MinimalEvent :=
  List.filter (fun event => String.eqb (key event) k) events.

Definition groupBucket (events : list MinimalEvent) (k : string) : Bucket :=
  mkBucket (List.length (groupOf k events)) (list_to_set (map userId (groupOf k events))).

Lemma groupOf_unseen k events :
  member k (map key events) = false -> groupOf k events = [].
Proof.
  unfold groupOf. induction events as [|e l IH]; simpl; [reflexivity|].
  rewrite (String.eqb_sym k). destruct (String.eqb (key e) k); simpl; [discriminate|].
  exact IH.
Qed.

Lemma groupBucket_snoc events event k :
  groupBucket (events ++ [event]) k =
  if String.eqb k (key event) then bump (groupBucket events k) (userId event)
  else groupBucket events k.
Proof.
  unfold groupBucket, groupOf. rewrite List.filter_app. simpl.
  rewrite (String.eqb_sym k).
  destruct (String.eqb (key event) k); [|now rewrite app_nil_r].
  unfold bump. simpl. rewrite length_app, map_app. simpl. f_equal; [lia|].
  rewrite list_to_set_snoc_L. apply union_comm_L.
Qed.

Lemma collectBy_app l1 : forall l2 o,
  collectBy (l1 ++ l2) o =
  match collectBy l1 o with Some o' => collectBy l2 o' | None => None end.
Proof.
  induction l1 as [|e l1 IH]; intros l2 o; simpl; [reflexivity|].
  destruct (getOwn o (key e)); [apply IH|].
  destruct (inherited (key e)); [reflexivity|apply IH].
Qed.

(** Without inherited names the loop ends with one bucket for each key,
    in first-seen order. *)
Lemma collectBy_spec events :
  Forall (fun event => inherited (key event) = false) events ->
  collectBy events [] =
  Some (map (fun k => (k, groupBucket events k)) (firstSeen (map key events))).
Proof.
  induction events as [|event events IH] using rev_ind; intros Hall; [reflexivity|].
  apply Forall_app in Hall. destruct Hall as [Hall Hev].
  inversion_clear Hev as [|? ? Hinh _].
  rewrite collectBy_app, (IH Hall). simpl.
  rewrite map_app. simpl.
  rewrite firstSeen_snoc, getOwn_map.
  assert (Hmem : member (key event) (firstSeen (map key events))
                 = member (key event) (map key events)).
  { apply eq_true_iff_eq. rewrite !member_In. apply In_firstSeen. }
  rewrite Hmem. destruct (member (key event) (map key events)) eqn:Em.
  - rewrite setOwn_map_old by (rewrite ?Hmem; auto using firstSeen_NoDup).
    f_equal. apply map_ext. intros k. rewrite groupBucket_snoc.
    destruct (String.eqb_spec k (key event)) as [->|]; reflexivity.
  - rewrite Hinh, setOwn_map_new by now rewrite Hmem.
    f_equal. rewrite map_app. simpl. f_equal.
    + apply map_ext_in. intros k Hk. rewrite groupBucket_snoc.
      destruct (String.eqb_spec k (key event)) as [->|]; [|reflexivity].
      apply (proj1 (In_firstSeen _ _)), (proj2 (member_In _ _)) in Hk. congruence.
    + rewrite groupBucket_snoc, String.eqb_refl. do 2 f_equal.
      unfold groupBucket. now rewrite groupOf_unseen.
Qed.

Lemma first_inherited events :
  Exists (fun event => inherited (key event) = true) events ->
  exists pre event post,
    events = pre ++ event :: post
    /\ Forall (fun e => inherited (key e) = false) pre
    /\ inherited (key event) = true.
Proof.
  induction events as [|e l IH]; intros H; [inversion H|].
  destruct (inherited (key e)) eqn:E.
  - exists [], e, l. repeat split; [constructor|exact E].
  - inversion H as [? ? He|? ? Hl]; subst; [congruence|].
    destruct (IH Hl) as (pre & x & post & -> & Hpre & Hx).
    exists (e :: pre), x, post. repeat split; [now constructor|exact Hx].
Qed.

Lemma inherited_or_not events :
  Forall (fun event => inherited (key event) = false) events
  \/ Exists (fun event => inherited (key event) = true) events.
Proof.
  induction events as [|e l [IH|IH]]; [left; constructor| |right; now constructor].
  destruct (inherited (key e)) eqn:E; [right|left]; now constructor.
Qed.

(** The loop throws exactly when a key names an inherited property. *)
Lemma collectBy_throws events :
  collectBy events [] = None <->
  Exists (fun event => inherited (key event) = true) events.
Proof.
  split.
  - intros H. destruct (inherited_or_not events) as [Hall|Hex]; [|exact Hex].
    rewrite (collectBy_spec _ Hall) in H. discriminate.
  - intros H. destruct (first_inherited _ H) as (pre & e & post & -> & Hpre & He).
    rewrite collectBy_app, (collectBy_spec pre Hpre). simpl.
    rewrite getOwn_map.
    destruct (member (key e) (firstSeen (map key pre))) eqn:Em; [|now rewrite He].
    exfalso. apply member_In, In_firstSeen, in_map_iff in Em.
    destruct Em as (x & Hk & Hx). rewrite List.Forall_forall in Hpre.
    specialize (Hpre x Hx). congruence.
Qed.

(** The counts of the groups add up to the number of events. *)
Lemma count_of_key (x : string) ks :
  List.NoDup ks ->
  list_sum (map (fun k => if String.eqb x k then 1 else 0)%nat ks) =
  if member x ks then 1%nat else 0%nat.
Proof.
  induction 1 as [|k ks Hk Hnd IH]; simpl; [reflexivity|].
  rewrite IH. destruct (String.eqb_spec x k) as [->|]; simpl; [|reflexivity].
  destruct (member k ks) eqn:E; [|reflexivity].
  apply member_In in E. contradiction.
Qed.

Lemma sum_cons (x : nat) l : list_sum (x :: l) = (x + list_sum l)%nat.
Proof. reflexivity. Qed.

Lemma groups_cons event events ks :
  list_sum (map (fun k => List.length (groupOf k (event :: events))) ks) =
  (list_sum (map (fun k => if String.eqb (key event) k then 1 else 0) ks)
   + list_sum (map (fun k => List.length (groupOf k events)) ks))%nat.
Proof.
  induction ks as [|k ks IH]; [reflexivity|].
  cbn [map]. rewrite !sum_cons, IH. unfold groupOf at 1. simpl. fold (groupOf k events).
  destruct (String.eqb (key event) k); simpl; lia.
Qed.

Lemma groups_add_up events ks :
  List.NoDup ks -> (forall event, In event events -> In (key event) ks) ->
  list_sum (map (fun k => List.length (groupOf k events)) ks) = List.length events.
Proof.
  intros Hnd. induction events as [|e l IH]; intros Hin.
  - simpl. clear. induction ks; simpl; auto.
  - rewrite groups_cons, IH by (intros; apply Hin; now right).
    rewrite (count_of_key (key e) ks Hnd).
    replace (member (key e) ks) with true; [reflexivity|].
    symmetry. apply member_In, Hin. now left.
Qed.

End GroupBy.

(* ===================================================================== *)
(** ** The order of the entries of an object *)
(* ===================================================================== *)

Section EntryOrder.
Import Aggregate.

(** The keys that are array indices, by ascending index. *)
Fixpoint indexKeys (ks : list string) : list (N * string) :=
  match ks with
  | [] => []
  | k :: rest =>
      match arrayIndex k with
      | Some n => insertIndexed n k (indexKeys rest)
      | None => indexKeys rest
      end
  end.

Definition isName (k : string) : bool :=
  match arrayIndex k with Some _ => false | None => true end.

(** The order in which [Object.entries] lists the keys [ks] of an object
    that got them in this order. *)
Definition entryOrder (ks : list string) : list string :=
  map snd (indexKeys ks) ++ List.filter isName ks.

Lemma insertIndexed_map {A B} (f : A -> B) n x l :
  insertIndexed n (f x) (map (fun e => (fst e, f (snd e))) l) =
  map (fun e => (fst e, f (snd e))) (insertIndexed n x l).
Proof.
  induction l as [|[m y] l IH]; simpl; [reflexivity|].
  destruct (n <? m)%N; simpl; [reflexivity|]. now rewrite IH.
Qed.

Lemma Object_entries_map (g : string -> Bucket) ks :
  Object_entries (map (fun k => (k, g k)) ks) = map (fun k => (k, g k)) (entryOrder ks).
Proof.
  unfold Object_entries, entryOrder. rewrite map_app. f_equal.
  - rewrite map_map.
    assert (H : indexed (map (fun k => (k, g k)) ks) =
                map (fun e => (fst e, (fun k => (k, g k)) (snd e))) (indexKeys ks)).
    { induction ks as [|k ks IH]; simpl; [reflexivity|].
      destruct (arrayIndex k); [|exact IH].
      rewrite IH. apply (insertIndexed_map (fun k => (k, g k))). }
    rewrite H, map_map. reflexivity.
  - unfold named. induction ks as [|k ks IH]; simpl; [reflexivity|].
    unfold isName. destruct (arrayIndex k); simpl; now rewrite IH.
Qed.

Lemma entryOrder_perm ks : Permutation (entryOrder ks) ks.
Proof.
  unfold entryOrder. induction ks as [|k ks IH]; simpl; [reflexivity|].
  unfold isName at 1. destruct (arrayIndex k) as [n|]; simpl.
  - rewrite insertIndexed_perm. simpl. now constructor.
  - rewrite <- Permutation_middle. now constructor.
Qed.

Lemma indexKeys_sorted ks : ascendingIndex (indexKeys ks).
Proof.
  induction ks as [|k ks IH]; simpl; [constructor|].
  destruct (arrayIndex k); [now apply insertIndexed_sorted|exact IH].
Qed.

Lemma indexKeys_index ks :
  Forall (fun e => arrayIndex (snd e) = Some (fst e)) (indexKeys ks).
Proof.
  induction ks as [|k ks IH]; simpl; [constructor|].
  destruct (arrayIndex k) as [n|] eqn:E; [|exact IH].
  apply List.Forall_forall. intros z Hz.
  apply (Permutation_in _ (insertIndexed_perm _ _ _)) in Hz.
  destruct Hz as [<-|Hz]; [exact E|].
  rewrite List.Forall_forall in IH. now apply IH.
Qed.

(** Keys that are no array indices keep their order. *)
Lemma entryOrder_names ks :
  Forall (fun k => arrayIndex k = None) ks -> entryOrder ks = ks.
Proof.
  intros H. unfold entryOrder.
  assert (H1 : indexKeys ks = []).
  { induction H as [|k ks Hk _ IH]; [reflexivity|]. simpl. now rewrite Hk. }
  assert (H2 : List.filter isName ks = ks).
  { induction H as [|k ks Hk _ IH]; [reflexivity|]. simpl. unfold isName at 1.
    rewrite Hk. f_equal. apply IH.
    simpl in H1. now rewrite Hk in H1. }
  now rewrite H1, H2.
Qed.

End EntryOrder.

(* ===================================================================== *)
(** ** Rows of groups, sorted by count *)
(* ===================================================================== *)

Section RowsBy.
Import Aggregate.

Variable key : MinimalEvent -> string.
Variable Row : Type.
Variable mkR : string -> nat -> nat -> Row.
Variable nameR : Row -> string.
Variable countR : Row -> nat.
Variable usersR : Row -> nat.
Hypothesis nameR_mk : forall k c u, nameR (mkR k c u) = k.
Hypothesis countR_mk : forall k c u, countR (mkR k c u) = c.
Hypothesis usersR_mk : forall k c u, usersR (mkR k c u) = u.

(** The stable sort by descending count. *)
Fixpoint insertBy (x : Row) (l : list Row) : list Row :=
  match l with
  | [] => [x]
  | y :: rest => if (countR y <=? countR x)%nat then x :: l else y :: insertBy x rest
  end.

Fixpoint sortBy (l : list Row) : list Row :=
  match l with
  | [] => []
  | x :: rest => insertBy x (sortBy rest)
  end.

Definition rowsBy (events : list MinimalEvent) : option (list Row) :=
  match collectBy key events [] with
  | None => None
  | Some data =>
      Some (sortBy (map (fun kd => mkR (fst kd) (b_count (snd kd)) (size (b_users (snd kd))))
                      (Object_entries data)))
  end.

Lemma insertBy_perm x l : Permutation (insertBy x l) (x :: l).
Proof.
  induction l as [|y l IH]; simpl; [reflexivity|].
  destruct (countR y <=? countR x)%nat; [reflexivity|].
  rewrite IH. apply perm_swap.
Qed.

Lemma sortBy_perm l : Permutation (sortBy l) l.
Proof.
  induction l as [|x l IH]; simpl; [reflexivity|].
  rewrite insertBy_perm. now constructor.
Qed.

Definition byCount (a b : Row) : Prop := (countR b <= countR a)%nat.

Lemma insertBy_sorted x l :
  StronglySorted byCount l -> StronglySorted byCount (insertBy x l).
Proof.
  induction 1 as [|y l Hl IH Hall]; simpl; [repeat constructor|].
  destruct (Nat.leb_spec (countR y) (countR x)) as [Hle|Hgt].
  - constructor; [now constructor|]. constructor; [exact Hle|].
    eapply List.Forall_impl; [|exact Hall]. unfold byCount. intros; lia.
  - constructor; [exact IH|].
    apply List.Forall_forall. intros z Hz.
    apply (Permutation_in _ (insertBy_perm x l)) in Hz. destruct Hz as [<-|Hz].
    + unfold byCount. lia.
    + rewrite List.Forall_forall in Hall. now apply Hall.
Qed.

Lemma sortBy_sorted l : StronglySorted byCount (sortBy l).
Proof.
  induction l as [|x l IH]; simpl; [constructor|]. now apply insertBy_sorted.
Qed.

Lemma insertBy_stable c x l :
  List.filter (fun r => (countR r =? c)%nat) (insertBy x l) =
  List.filter (fun r => (countR r =? c)%nat) (x :: l).
Proof.
  induction l as [|y l IH]; [reflexivity|]. simpl.
  destruct (Nat.leb_spec (countR y) (countR x)) as [Hle|Hgt]; [reflexivity|].
  simpl in *. rewrite IH.
  destruct (Nat.eqb_spec (countR x) c), (Nat.eqb_spec (countR y) c);
    try reflexivity. lia.
Qed.

Lemma sortBy_stable c l :
  List.filter (fun r => (countR r =? c)%nat) (sortBy l) =
  List.filter (fun r => (countR r =? c)%nat) l.
Proof.
  induction l as [|x l IH]; [reflexivity|]. simpl.
  rewrite insertBy_stable. simpl. now rewrite IH.
Qed.

(** The row of a key. *)
Definition groupRow (events : list MinimalEvent) (k : string) : Row :=
  mkR k (List.length (groupOf key k events))
    (List.length (remove_dups (map userId (groupOf key k events)))).

Lemma rowsBy_throws events :
  rowsBy events = None <->
  Exists (fun event => inherited (key event) = true) events.
Proof.
  unfold rowsBy. rewrite <- collectBy_throws.
  destruct (collectBy key events []); split; congruence.
Qed.

(** What the rows are, whenever there are rows. *)
Lemma rowsBy_rows events results :
  rowsBy events = Some results ->
  results = sortBy (map (groupRow events) (entryOrder (firstSeen (map key events)))).
Proof.
  unfold rowsBy. destruct (inherited_or_not key events) as [Hall|Hex].
  - rewrite (collectBy_spec key events Hall), Object_entries_map, map_map.
    intros [= <-]. f_equal. apply map_ext. intros k. simpl.
    unfold groupRow. f_equal. apply size_distinct.
  - apply collectBy_throws in Hex. rewrite Hex. discriminate.
Qed.

Lemma rowsBy_names events results :
  rowsBy events = Some results ->
  Permutation (map nameR results) (firstSeen (map key events)).
Proof.
  intros H. rewrite (rowsBy_rows _ _ H), sortBy_perm, map_map.
  rewrite <- (entryOrder_perm (firstSeen (map key events))) at 2.
  rewrite <- (map_id (entryOrder _)) at 2. apply Permutation_refl'.
  apply map_ext. intros k. apply nameR_mk.
Qed.

Lemma rowsBy_each events results :
  rowsBy events = Some results ->
  Forall (fun r =>
            countR r = List.length (groupOf key (nameR r) events)
            /\ usersR r = List.length (remove_dups (map userId (groupOf key (nameR r) events))))
         results.
Proof.
  intros H. rewrite (rowsBy_rows _ _ H). apply List.Forall_forall. intros r Hr.
  apply (Permutation_in _ (sortBy_perm _)), in_map_iff in Hr.
  destruct Hr as (k & <- & _). unfold groupRow.
  now rewrite nameR_mk, countR_mk, usersR_mk.
Qed.

Lemma rowsBy_total events results :
  rowsBy events = Some results ->
  list_sum (map countR results) = List.length events.
Proof.
  intros H. rewrite (rowsBy_rows _ _ H).
  rewrite (Permutation_list_sum (Permutation_map countR (sortBy_perm _))).
  rewrite map_map.
  rewrite (map_ext _ (fun k => List.length (groupOf key k events)))
    by (intros k; apply countR_mk).
  rewrite (Permutation_list_sum
             (Permutation_map _ (entryOrder_perm (firstSeen (map key events))))).
  apply groups_add_up; [apply firstSeen_NoDup|].
  intros e He. apply In_firstSeen, in_map, He.
Qed.

Lemma rowsBy_ties events results c :
  rowsBy events = Some results ->
  map nameR (List.filter (fun r => (countR r =? c)%nat) results) =
  List.filter (fun k => (List.length (groupOf key k events) =? c)%nat)
    (entryOrder (firstSeen (map key events))).
Proof.
  intros H. rewrite (rowsBy_rows _ _ H), sortBy_stable.
  induction (entryOrder (firstSeen (map key events))) as [|k ks IH]; [reflexivity|].
  cbn [map List.filter]. unfold groupRow at 1. rewrite countR_mk.
  destruct (List.length (groupOf key k events) =? c)%nat; [|exact IH].
  cbn [map]. unfold groupRow at 1. rewrite nameR_mk. f_equal. exact IH.
Qed.

End RowsBy.

(* ===================================================================== *)
(** ** The payment success aggregator *)
(* ===================================================================== *)

Module Success.
Import Aggregate.

(** One row of the result of [processPaymentSuccess]. *)
Record MerchantRow := mkMerchantRow {
  merchantId : string;
  count : nat;
  uniqueUsers : nat
}.

(** The merchant an event counts under. *)
Definition merchantOf (event : MinimalEvent) : string :=
  Js.orDefault (merchant_id event) "Unknown".

(** The [for (const event of events)] loop; [None] when it throws. *)
Fixpoint collect (events : list MinimalEvent) (merchantData : JsObject)
    : option JsObject :=
  match events with
  | [] => Some merchantData
  | event :: rest =>
      let merchantId := merchantOf event in
      match getOwn merchantData merchantId with
      | Some b => collect rest (setOwn merchantData merchantId (bump b (userId event)))
      | None =>
          if inherited merchantId then None
          else
            collect rest
              (setOwn merchantData merchantId (bump (mkBucket 0 ∅) (userId event)))
      end
  end.

(** [results.sort((a, b) => b.count - a.count)]. *)
Fixpoint insertRow (x : MerchantRow) (l : list MerchantRow) : list MerchantRow :=
  match l with
  | [] => [x]
  | y :: rest =>
      if (count y <=? count x)%nat then x :: l else y :: insertRow x rest
  end.

Fixpoint sortRows (l : list MerchantRow) : list MerchantRow :=
  match l with
  | [] => []
  | x :: rest => insertRow x (sortRows rest)
  end.

(** [processPaymentSuccess(events)]. *)
Definition processPaymentSuccess (events : list MinimalEvent)
    : option (list MerchantRow) :=
  match collect events [] with
  | None => None
  | Some merchantData =>
      let results :=
        map (fun '(merchantId, data) =>
               mkMerchantRow merchantId (b_count data) (size (b_users data)))
            (Object_entries merchantData) in
      Some (sortRows results)
  end.

End Success.

Section AggregatorsInGeneral.
Import Aggregate.

Lemma collect_collectBy events : forall o, collect events o = collectBy reasonOf events o.
Proof.
  induction events as [|e l IH]; intros o; simpl; [reflexivity|].
  destruct (getOwn o (reasonOf e)); [apply IH|].
  destruct (inherited (reasonOf e)); [reflexivity|apply IH].
Qed.

Lemma insertRow_insertBy x l : insertRow x l = insertBy ReasonRow count x l.
Proof. induction l as [|y l IH]; simpl; [reflexivity|]. now rewrite IH. Qed.

Lemma sortRows_sortBy l : sortRows l = sortBy ReasonRow count l.
Proof.
  induction l as [|x l IH]; simpl; [reflexivity|].
  now rewrite IH, insertRow_insertBy.
Qed.

Lemma processPaymentErrors_rowsBy events :
  processPaymentErrors events = rowsBy reasonOf ReasonRow mkRow count events.
Proof.
  unfold processPaymentErrors, rowsBy. rewrite collect_collectBy.
  destruct (collectBy reasonOf events []); [|reflexivity].
  rewrite sortRows_sortBy. do 2 f_equal. apply map_ext. now intros [k d].
Qed.

Lemma success_collectBy events : forall o,
  Success.collect events o = collectBy Success.merchantOf events o.
Proof.
  induction events as [|e l IH]; intros o; simpl; [reflexivity|].
  destruct (getOwn o (Success.merchantOf e)); [apply IH|].
  destruct (inherited (Success.merchantOf e)); [reflexivity|apply IH].
Qed.

Lemma success_insertBy x l :
  Success.insertRow x l = insertBy Success.MerchantRow Success.count x l.
Proof. induction l as [|y l IH]; simpl; [reflexivity|]. now rewrite IH. Qed.

Lemma success_sortBy l :
  Success.sortRows l = sortBy Success.MerchantRow Success.count l.
Proof.
  induction l as [|x l IH]; simpl; [reflexivity|].
  now rewrite IH, success_insertBy.
Qed.

Lemma processPaymentSuccess_rowsBy events :
  Success.processPaymentSuccess events =
  rowsBy Success.merchantOf Success.MerchantRow Success.mkMerchantRow Success.count events.
Proof.
  unfold Success.processPaymentSuccess, rowsBy. rewrite success_collectBy.
  destruct (collectBy Success.merchantOf events []); [|reflexivity].
  rewrite success_sortBy. do 2 f_equal. apply map_ext. now intros [k d].
Qed.

Lemma indexKeys_perm ks :
  Permutation (map snd (indexKeys ks)) (List.filter (fun k => negb (isName k)) ks).
Proof.
  induction ks as [|k ks IH]; simpl; [reflexivity|].
  unfold isName at 1. destruct (arrayIndex k) as [n|]; simpl; [|exact IH].
  rewrite insertIndexed_perm. simpl. now constructor.
Qed.

(** X1: [processPaymentErrors] throws exactly when the reason of some
    event, after the grouping of the card number reasons, is the name of
    a property of [Object.prototype]. *)
Theorem payment_errors_throw_on_inherited_reason (events : list MinimalEvent) :
  processPaymentErrors events = None <->
  Exists (fun event => inherited (reasonOf event) = true) events.
Proof.
  rewrite processPaymentErrors_rowsBy. apply rowsBy_throws.
Qed.

(** X2: whenever [processPaymentErrors] returns, whatever the reasons
    are, there is one row for each reason, the row holds the number of
    events of the reason and the number of their distinct users, the
    counts add up to the number of events, and the rows are in descending
    order of count. *)
Theorem payment_error_rows_account_for_all_events
    (events : list MinimalEvent) (results : list ReasonRow) :
  processPaymentErrors events = Some results ->
  Permutation (map reason results) (firstSeen (reasons events))
  /\ Forall (fun r => count r = occurrences (reason r) events
                      /\ uniqueUsers r = distinctUsers (reason r) events) results
  /\ list_sum (map count results) = List.length events
  /\ StronglySorted descending results.
Proof.
  rewrite processPaymentErrors_rowsBy. intros H.
  split; [apply (rowsBy_names reasonOf ReasonRow mkRow reason count); auto|].
  split; [apply (rowsBy_each reasonOf ReasonRow mkRow reason count uniqueUsers); auto|].
  split; [apply (rowsBy_total reasonOf ReasonRow mkRow count); auto|].
  apply rowsBy_rows in H. subst results. apply sortBy_sorted.
Qed.

(** Events of which two have a response code as their reason. *)
Definition codedEvents : list MinimalEvent :=
  [ failedPayment "Do Not Honor" "u1"; failedPayment "51" "u2";
    failedPayment "Insufficient Funds" "u3"; failedPayment "5" "u2";
    failedPayment "51" "u4" ].

Example aggregate_of_the_coded_events :
  processPaymentErrors codedEvents =
  Some [ mkRow "51" 2 2; mkRow "5" 1 1; mkRow "Do Not Honor" 1 1;
         mkRow "Insufficient Funds" 1 1 ].
Proof. reflexivity. Qed.

Lemma payment_error_rows_account_for_all_events_witness :
  let results := [ mkRow "51" 2 2; mkRow "5" 1 1; mkRow "Do Not Honor" 1 1;
                   mkRow "Insufficient Funds" 1 1 ] in
  processPaymentErrors codedEvents = Some results
  /\ Permutation (map reason results) (firstSeen (reasons codedEvents))
  /\ Forall (fun r => count r = occurrences (reason r) codedEvents
                      /\ uniqueUsers r = distinctUsers (reason r) codedEvents) results
  /\ list_sum (map count results) = List.length codedEvents
  /\ StronglySorted descending results.
Proof.
  cbv zeta.
  assert (H : processPaymentErrors codedEvents =
              Some [ mkRow "51" 2 2; mkRow "5" 1 1; mkRow "Do Not Honor" 1 1;
                     mkRow "Insufficient Funds" 1 1 ]) by reflexivity.
  split; [exact H|].
  exact (payment_error_rows_account_for_all_events codedEvents _ H).
Defined.

(** X3: among the rows of one count, those whose reason is an array
    index come first, in ascending order of the index, and the others
    follow in the order in which their reasons are first seen. *)
Theorem payment_error_ties_follow_entry_order
    (events : list MinimalEvent) (results : list ReasonRow) :
  processPaymentErrors events = Some results ->
  let seen := firstSeen (reasons events) in
  (forall c,
     map reason (List.filter (fun r => (count r =? c)%nat) results) =
     List.filter (fun k => (occurrences k events =? c)%nat)
       (map snd (indexKeys seen) ++ List.filter isName seen))
  /\ ascendingIndex (indexKeys seen)
  /\ Forall (fun e => arrayIndex (snd e) = Some (fst e)) (indexKeys seen)
  /\ Permutation (map snd (indexKeys seen)) (List.filter (fun k => negb (isName k)) seen).
Proof.
  rewrite processPaymentErrors_rowsBy. intros H seen.
  split; [|split; [apply indexKeys_sorted|split; [apply indexKeys_index|apply indexKeys_perm]]].
  intros c. apply (rowsBy_ties reasonOf ReasonRow mkRow reason count); auto.
Qed.

Lemma payment_error_ties_follow_entry_order_witness :
  let results := [ mkRow "51" 2 2; mkRow "5" 1 1; mkRow "Do Not Honor" 1 1;
                   mkRow "Insufficient Funds" 1 1 ] in
  let seen := firstSeen (reasons codedEvents) in
  processPaymentErrors codedEvents = Some results
  /\ (forall c,
        map reason (List.filter (fun r => (count r =? c)%nat) results) =
        List.filter (fun k => (occurrences k codedEvents =? c)%nat)
          (map snd (indexKeys seen) ++ List.filter isName seen))
  /\ ascendingIndex (indexKeys seen)
  /\ Forall (fun e => arrayIndex (snd e) = Some (fst e)) (indexKeys seen)
  /\ Permutation (map snd (indexKeys seen)) (List.filter (fun k => negb (isName k)) seen).
Proof.
  cbv zeta.
  assert (H : processPaymentErrors codedEvents =
              Some [ mkRow "51" 2 2; mkRow "5" 1 1; mkRow "Do Not Honor" 1 1;
                     mkRow "Insufficient Funds" 1 1 ]) by reflexivity.
  split; [exact H|].
  exact (payment_error_ties_follow_entry_order codedEvents _ H).
Defined.

End AggregatorsInGeneral.

Section SuccessClaims.
Import Aggregate.

Definition paid (merchant : option string) (user : string) : MinimalEvent :=
  mkMinimalEvent "2025-09-10T08:15:00Z" None user None merchant None None None.

(** Payments of four merchants, one of them without a merchant id. *)
Definition paidEvents : list MinimalEvent :=
  [ paid (Some "702") "u1"; paid (Some "15") "u2"; paid None "u3";
    paid (Some "702") "u1"; paid (Some "9") "u4"; paid (Some "15") "u5" ].

Definition paidRows : list Success.MerchantRow :=
  [ Success.mkMerchantRow "15" 2 2; Success.mkMerchantRow "702" 2 1;
    Success.mkMerchantRow "9" 1 1; Success.mkMerchantRow "Unknown" 1 1 ].

Example success_of_the_paid_events :
  Success.processPaymentSuccess paidEvents = Some paidRows.
Proof. reflexivity. Qed.

(** X4: [processPaymentSuccess] throws exactly when the merchant id of
    some event is the name of a property of [Object.prototype]. *)
Theorem payment_success_throws_on_inherited_merchant (events : list MinimalEvent) :
  Success.processPaymentSuccess events = None <->
  Exists (fun event => inherited (Success.merchantOf event) = true) events.
Proof.
  rewrite processPaymentSuccess_rowsBy. apply rowsBy_throws.
Qed.

(** X5: whenever [processPaymentSuccess] returns there is one row for
    each merchant id, an event without one counting under "Unknown"; the
    row holds the number of events of the merchant and the number of
    their distinct users, the counts add up to the number of events, and
    the rows are in descending order of count. *)
Theorem payment_success_rows_account_for_all_events
    (events : list MinimalEvent) (results : list Success.MerchantRow) :
  Success.processPaymentSuccess events = Some results ->
  Permutation (map Success.merchantId results)
    (firstSeen (map Success.merchantOf events))
  /\ Forall (fun r =>
       Success.count r =
         List.length (groupOf Success.merchantOf (Success.merchantId r) events)
       /\ Success.uniqueUsers r =
            List.length (remove_dups
              (map userId (groupOf Success.merchantOf (Success.merchantId r) events))))
       results
  /\ list_sum (map Success.count results) = List.length events
  /\ StronglySorted (fun a b => (Success.count b <= Success.count a)%nat) results.
Proof.
  rewrite processPaymentSuccess_rowsBy. intros H.
  split; [apply (rowsBy_names Success.merchantOf Success.MerchantRow
                   Success.mkMerchantRow Success.merchantId Success.count); auto|].
  split; [apply (rowsBy_each Success.merchantOf Success.MerchantRow
                   Success.mkMerchantRow Success.merchantId Success.count
                   Success.uniqueUsers); auto|].
  split; [apply (rowsBy_total Success.merchantOf Success.MerchantRow
                   Success.mkMerchantRow Success.count); auto|].
  apply rowsBy_rows in H. subst results. apply sortBy_sorted.
Qed.

Lemma payment_success_rows_account_for_all_events_witness :
  Success.processPaymentSuccess paidEvents = Some paidRows
  /\ Permutation (map Success.merchantId paidRows)
       (firstSeen (map Success.merchantOf paidEvents))
  /\ Forall (fun r =>
       Success.count r =
         List.length (groupOf Success.merchantOf (Success.merchantId r) paidEvents)
       /\ Success.uniqueUsers r =
            List.length (remove_dups
              (map userId (groupOf Success.merchantOf (Success.merchantId r) paidEvents))))
       paidRows
  /\ list_sum (map Success.count paidRows) = List.length paidEvents
  /\ StronglySorted (fun a b => (Success.count b <= Success.count a)%nat) paidRows.
Proof.
  assert (H : Success.processPaymentSuccess paidEvents = Some paidRows) by reflexivity.
  split; [exact H|].
  exact (payment_success_rows_account_for_all_events paidEvents paidRows H).
Defined.

(** X6: among the merchants of one count, those whose id is an array
    index, as numeric ids are, come in ascending order of the number, not
    in the order in which they are first seen; the other ids follow in
    first-seen order. *)
Theorem payment_success_ties_follow_entry_order
    (events : list MinimalEvent) (results : list Success.MerchantRow) :
  Success.processPaymentSuccess events = Some results ->
  let seen := firstSeen (map Success.merchantOf events) in
  (forall c,
     map Success.merchantId
       (List.filter (fun r => (Success.count r =? c)%nat) results) =
     List.filter
       (fun k => (List.length (groupOf Success.merchantOf k events) =? c)%nat)
       (map snd (indexKeys seen) ++ List.filter isName seen))
  /\ ascendingIndex (indexKeys seen)
  /\ Forall (fun e => arrayIndex (snd e) = Some (fst e)) (indexKeys seen)
  /\ Permutation (map snd (indexKeys seen)) (List.filter (fun k => negb (isName k)) seen).
Proof.
  rewrite processPaymentSuccess_rowsBy. intros H seen.
  split; [|split; [apply indexKeys_sorted|split; [apply indexKeys_index|apply indexKeys_perm]]].
  intros c. apply (rowsBy_ties Success.merchantOf Success.MerchantRow
                     Success.mkMerchantRow Success.merchantId Success.count); auto.
Qed.

Lemma payment_success_ties_follow_entry_order_witness :
  let seen := firstSeen (map Success.merchantOf paidEvents) in
  Success.processPaymentSuccess paidEvents = Some paidRows
  /\ (forall c,
        map Success.merchantId
          (List.filter (fun r => (Success.count r =? c)%nat) paidRows) =
        List.filter
          (fun k => (List.length (groupOf Success.merchantOf k paidEvents) =? c)%nat)
          (map snd (indexKeys seen) ++ List.filter isName seen))
  /\ ascendingIndex (indexKeys seen)
  /\ Forall (fun e => arrayIndex (snd e) = Some (fst e)) (indexKeys seen)
  /\ Permutation (map snd (indexKeys seen)) (List.filter (fun k => negb (isName k)) seen).
Proof.
  cbv zeta.
  assert (H : Success.processPaymentSuccess paidEvents = Some paidRows) by reflexivity.
  split; [exact H|].
  exact (payment_success_ties_follow_entry_order paidEvents paidRows H).
Defined.

End SuccessClaims.

(* ===================================================================== *)
(** ** Dates at the ends of their range *)
(* ===================================================================== *)

(** A [Date] holds a time value of at most 8.64e15 milliseconds either
    side of the epoch, which is a hundred million days.  A [Date] made of
    a value outside is an invalid Date: it is neither below nor above any
    date, and [toISOString] throws a [RangeError] on it.  [Date] and
    [Planner] leave the ends of the range out; here is the planner with
    them, where [None] stands for an invalid Date. *)
Module Bounded.
Import Date.

Definition maxDay : Z := 100000000.
Definition maxTime : Z := maxDay * msPerDay.

Definition validTime (t : Z) : bool := (- maxTime <=? t) && (t <=? maxTime).

(** [TimeClip]: the [Date] of a time value. *)
Definition timeClip (t : Z) : option Date.t :=
  if validTime t then Some t else None.

(** [addDays(date, days)]: a copy of the date, moved by [setUTCDate]. *)
Definition addDays (date : option Date.t) (days : Z) : option Date.t :=
  match date with
  | Some t => timeClip (Date.addDays t days)
  | None => None
  end.

(** [a < b] and [a > b] on dates: false when one of them is invalid. *)
Definition before (a b : option Date.t) : bool :=
  match a, b with
  | Some x, Some y => x <? y
  | _, _ => false
  end.

Definition after (a b : option Date.t) : bool :=
  match a, b with
  | Some x, Some y => x >? y
  | _, _ => false
  end.

(** [formatDate(date)]; [None] when [toISOString] throws. *)
Definition formatDate (date : option Date.t) : option string :=
  match date with
  | Some t => Some (Date.formatDate t)
  | None => None
  end.

(** [getDateRanges(startDate, endDate, chunkDays)], the function of
    [fetch_payment_data.js] and of [migrate_cache_to_chunks.js].  [None]:
    a [RangeError] is thrown, or the loop has run out of [fuel]. *)
Fixpoint getDateRangesFrom (fuel : nat) (currentStart endDate : option Date.t)
    (chunkDays : Z) : option (list DateRange) :=
  match fuel with
  | O => None
  | S fuel' =>
      if before currentStart endDate then
        let currentEnd := addDays currentStart (chunkDays - 1) in
        let currentEnd := if after currentEnd endDate then endDate else currentEnd in
        match formatDate currentStart, formatDate currentEnd with
        | Some s, Some e =>
            match getDateRangesFrom fuel' (addDays currentEnd 1) endDate chunkDays with
            | Some ranges => Some (mkRange s e :: ranges)
            | None => None
            end
        | _, _ => None
        end
      else Some []
  end.

Definition getDateRanges (fuel : nat) (startDate endDate : option Date.t)
    (chunkDays : Z) : option (list DateRange) :=
  getDateRangesFrom fuel startDate endDate chunkDays.

End Bounded.

Section BoundedFacts.
Import Date Planner.

(** The start of the last window of a plan: the last of the instants a
    multiple of [d] days after [start] that are before [finish]. *)
Definition lastStart (start finish d : Z) : Z :=
  start + (finish - start - 1) / (d * msPerDay) * (d * msPerDay).

(** The plan overshoots the range of a [Date]: its last window, before it
    is cut at [finish], would end after the last instant of a [Date]. *)
Definition overshoots (start finish d : Z) : Prop :=
  start < finish /\ Bounded.maxTime < addDays (lastStart start finish d) (d - 1).

Definition overshootsb (start finish d : Z) : bool :=
  (start <? finish) && (Bounded.maxTime <? addDays (lastStart start finish d) (d - 1)).

Lemma overshootsb_spec start finish d :
  overshootsb start finish d = true <-> overshoots start finish d.
Proof.
  unfold overshootsb, overshoots.
  now rewrite andb_true_iff, !Z.ltb_lt.
Qed.

Lemma validTime_spec t :
  Bounded.validTime t = true <-> - Bounded.maxTime <= t <= Bounded.maxTime.
Proof.
  unfold Bounded.validTime. now rewrite andb_true_iff, !Z.leb_le.
Qed.

Lemma timeClip_valid t : Bounded.validTime t = true -> Bounded.timeClip t = Some t.
Proof. unfold Bounded.timeClip. now intros ->. Qed.

Lemma timeClip_invalid t : Bounded.maxTime < t -> Bounded.timeClip t = None.
Proof.
  intros H. unfold Bounded.timeClip.
  destruct (Bounded.validTime t) eqn:E; [|reflexivity].
  apply validTime_spec in E. lia.
Qed.

Lemma timeClip_inv t t' : Bounded.timeClip t = Some t' -> t' = t.
Proof.
  unfold Bounded.timeClip. destruct (Bounded.validTime t); [|discriminate].
  now intros [= <-].
Qed.

Lemma lastStart_last start finish d :
  0 < d -> start < finish -> finish <= start + d * msPerDay ->
  lastStart start finish d = start.
Proof.
  intros Hd Hlt Hle. unfold lastStart.
  rewrite Z.div_small; [lia|]. unfold msPerDay in *. lia.
Qed.

Lemma lastStart_next start finish d :
  0 < d -> lastStart (start + d * msPerDay) finish d = lastStart start finish d.
Proof.
  intros Hd. unfold lastStart.
  assert (HD : d * msPerDay <> 0) by (unfold msPerDay; lia).
  set (D := d * msPerDay) in *.
  replace (finish - (start + D) - 1) with (finish - start - 1 + (-1) * D) by lia.
  rewrite Z.div_add by exact HD. ring.
Qed.

(** Past the end of the range, the loop stops. *)
Lemma bounded_done fuel next finish d :
  (forall t, next = Some t -> finish <= t) ->
  Bounded.getDateRangesFrom fuel next (Some finish) d =
  match fuel with O => None | S _ => Some [] end.
Proof.
  intros H. destruct fuel as [|fuel]; [reflexivity|]. simpl.
  destruct next as [t|]; [|reflexivity]. simpl.
  specialize (H t eq_refl).
  now replace (t <? finish) with false by (symmetry; apply Z.ltb_ge; lia).
Qed.

Lemma planner_done fuel start finish d :
  finish <= start ->
  getDateRangesFrom fuel start finish d =
  match fuel with O => None | S _ => Some [] end.
Proof.
  intros H. destruct fuel as [|fuel]; [reflexivity|]. simpl.
  now replace (start <? finish) with false by (symmetry; apply Z.ltb_ge; lia).
Qed.

(** The planner on dates in the range of a [Date]: it throws when the
    plan overshoots the range, and is the planner on unbounded dates
    otherwise. *)
Lemma bounded_planner fuel : forall start finish d,
  0 < d -> Bounded.validTime start = true -> Bounded.validTime finish = true ->
  Bounded.getDateRangesFrom fuel (Some start) (Some finish) d =
  if overshootsb start finish d then None
  else getDateRangesFrom fuel start finish d.
Proof.
  induction fuel as [|fuel IH]; intros start finish d Hd Hs Hf.
  - simpl. now destruct (overshootsb start finish d).
  - cbn [Bounded.getDateRangesFrom getDateRangesFrom Bounded.before].
    unfold overshootsb.
    destruct (Z.ltb_spec start finish) as [Hlt|Hge]; [|reflexivity].
    cbn [andb Bounded.addDays Bounded.formatDate].
    apply validTime_spec in Hs, Hf.
    assert (Hraw : - Bounded.maxTime <= addDays start (d - 1))
      by (unfold addDays, msPerDay; lia).
    destruct (Z.le_gt_cases finish (start + d * msPerDay)) as [Hlast|Hmore].
    + rewrite (lastStart_last start finish d Hd Hlt Hlast).
      destruct (Z.ltb_spec Bounded.maxTime (addDays start (d - 1))) as [Hover|Hfits].
      * now rewrite (timeClip_invalid _ Hover).
      * rewrite timeClip_valid by (apply validTime_spec; lia).
        cbn [Bounded.after].
        destruct (Z.gtb_spec (addDays start (d - 1)) finish) as [Hcut|Hnot];
          cbn [Bounded.addDays Bounded.formatDate];
          rewrite bounded_done, planner_done;
          try reflexivity; unfold addDays, msPerDay in *; try lia;
          intros t Ht; apply timeClip_inv in Ht; lia.
    + assert (Hin : addDays start (d - 1) < finish)
        by (unfold addDays, msPerDay in *; lia).
      rewrite timeClip_valid by (apply validTime_spec; lia).
      cbn [Bounded.after].
      replace (addDays start (d - 1) >? finish) with false
        by (symmetry; rewrite Z.gtb_ltb; apply Z.ltb_ge; lia).
      cbn [Bounded.addDays Bounded.formatDate].
      replace (addDays (addDays start (d - 1)) 1) with (start + d * msPerDay)
        by (unfold addDays; lia).
      assert (Hnext : Bounded.validTime (start + d * msPerDay) = true)
        by (apply validTime_spec; unfold msPerDay in *; lia).
      rewrite (timeClip_valid _ Hnext).
      rewrite IH; [|assumption|assumption|apply validTime_spec; lia].
      unfold overshootsb. rewrite (lastStart_next start finish d Hd).
      replace (start + d * msPerDay <? finish) with true
        by (symmetry; apply Z.ltb_lt; lia).
      cbn [andb].
      now destruct (Bounded.maxTime <? addDays (lastStart start finish d) (d - 1)).
Qed.


End BoundedFacts.

(* ===================================================================== *)
(** ** The window planner on any range of days *)
(* ===================================================================== *)

Section PlannerInGeneral.
Import Date Planner DateFacts PlannerFacts.

(** Midnight UTC of a day: the value of [parseDate] on its date string,
    which is what [fetchMissingChunks] gives to the planner. *)
Definition midnightOf (day : Z) : Date.t := day * msPerDay.

Lemma dayOf_midnightOf day : dayOf (midnightOf day) = day.
Proof. unfold dayOf, midnightOf. apply Z.div_mul. unfold msPerDay. lia. Qed.

Lemma addDays_midnightOf day n : addDays (midnightOf day) n = midnightOf (day + n).
Proof. unfold addDays, midnightOf. lia. Qed.

Lemma midnightOf_ltb a b : (midnightOf a <? midnightOf b) = (a <? b).
Proof.
  unfold midnightOf, msPerDay.
  destruct (Z.ltb_spec a b); [apply Z.ltb_lt|apply Z.ltb_ge]; lia.
Qed.

Lemma midnightOf_gtb a b : (midnightOf a >? midnightOf b) = (a >? b).
Proof. now rewrite !Z.gtb_ltb, midnightOf_ltb. Qed.

(** The [i]-th window of [d] days from day [s], cut at day [e]. *)
Definition clippedWindow (s e d : Z) (i : nat) : Date.t * Date.t :=
  (midnightOf (s + Z.of_nat i * d),
   midnightOf (Z.min (s + Z.of_nat i * d + (d - 1)) e)).

(** The number of days from [s] to [e] over [d], rounded up. *)
Definition windowCount (s e d : Z) : nat := Z.to_nat ((e - s + d - 1) / d).

Lemma windowCount_none s e d : 0 < d -> e <= s -> windowCount s e d = 0%nat.
Proof.
  intros Hd H. unfold windowCount.
  assert ((e - s + d - 1) / d < 1) by (apply Z.div_lt_upper_bound; lia). lia.
Qed.

Lemma windowCount_next s e d :
  0 < d -> s < e -> windowCount s e d = S (windowCount (s + d) e d).
Proof.
  intros Hd H. unfold windowCount.
  replace (e - s + d - 1) with (e - (s + d) + d - 1 + 1 * d) by lia.
  rewrite Z.div_add by lia.
  assert (0 <= (e - (s + d) + d - 1) / d) by (apply Z.div_pos; lia). lia.
Qed.

(** The planner's loop in closed form. *)
Lemma windowsFrom_clipped fuel : forall s e d,
  0 < d -> e - s <= Z.of_nat fuel ->
  windowsFrom (S fuel) (midnightOf s) (midnightOf e) d =
  Some (map (clippedWindow s e d) (seq 0 (windowCount s e d))).
Proof.
  induction fuel as [|fuel IH]; intros s e d Hd Hfuel.
  - simpl. rewrite midnightOf_ltb.
    replace (s <? e) with false by (symmetry; apply Z.ltb_ge; lia).
    rewrite windowCount_none by lia. reflexivity.
  - rewrite windowsFrom_step. cbv zeta. rewrite midnightOf_ltb.
    destruct (Z.ltb_spec s e) as [Hlt|Hge];
      [|rewrite windowCount_none by lia; reflexivity].
    rewrite addDays_midnightOf, midnightOf_gtb.
    rewrite (windowCount_next s e d Hd Hlt). cbn [seq map].
    destruct (Z.gtb_spec (s + (d - 1)) e) as [Hcut|Hfit];
      rewrite addDays_midnightOf, IH by lia.
    + rewrite (windowCount_none (e + 1)), (windowCount_none (s + d)) by lia.
      simpl. unfold clippedWindow. do 3 f_equal; f_equal; lia.
    + replace (s + (d - 1) + 1) with (s + d) by lia.
      f_equal. f_equal.
      * unfold clippedWindow. f_equal; f_equal; lia.
      * rewrite <- seq_shift, map_map. apply map_ext. intros i.
        unfold clippedWindow. f_equal; f_equal; lia.
Qed.

(** The days the windows cover. *)
Lemma windowsFrom_covers fuel : forall s e d ws,
  0 < d ->
  windowsFrom fuel (midnightOf s) (midnightOf e) d = Some ws ->
  forall day,
    Exists (coversDay day) ws <->
    s <= day < e \/ (day = e /\ s < e /\ (e - s) mod d <> 0).
Proof.
  induction fuel as [|fuel IH]; intros s e d ws Hd H day; [discriminate|].
  rewrite windowsFrom_step in H. cbv zeta in H. rewrite midnightOf_ltb in H.
  destruct (Z.ltb_spec s e) as [Hlt|Hge].
  2: { injection H as <-. split; [intros HE; inversion HE|lia]. }
  rewrite addDays_midnightOf, midnightOf_gtb in H.
  destruct (Z.gtb_spec (s + (d - 1)) e) as [Hcut|Hfit];
    rewrite addDays_midnightOf in H;
    destruct (windowsFrom fuel _ _ _) as [ws'|] eqn:E; try discriminate H;
    injection H as <-; specialize (IH _ _ _ _ Hd E day);
    rewrite List.Exists_cons, IH; unfold coversDay; simpl;
    rewrite !dayOf_midnightOf.
  - assert ((e - s) mod d = e - s) by (apply Z.mod_small; lia). lia.
  - replace (e - (s + (d - 1) + 1)) with (e - s + (-1) * d) by lia.
    rewrite Z_mod_plus_full.
    assert (H1 : e - s = d - 1 -> (e - s) mod d <> 0).
    { intros Heq. rewrite Z.mod_small; lia. }
    assert (H2 : e - s = d -> (e - s) mod d = 0).
    { intros ->. apply Z_mod_same_full. }
    lia.
Qed.

Lemma lastStart_midnights s e d :
  0 < d -> s < e ->
  lastStart (midnightOf s) (midnightOf e) d =
  midnightOf (s + ((e - s + d - 1) / d - 1) * d).
Proof.
  intros Hd Hlt. unfold lastStart, midnightOf.
  pose proof (Z.div_mod (e - s + d - 1) d ltac:(lia)) as Hq.
  pose proof (Z.mod_pos_bound (e - s + d - 1) d Hd) as Hm.
  set (q := (e - s + d - 1) / d) in *. set (m := (e - s + d - 1) mod d) in *.
  replace ((e * msPerDay - s * msPerDay - 1) / (d * msPerDay)) with (q - 1).
  - ring.
  - apply (Z.div_unique _ _ _ ((m + 1) * msPerDay - 1)).
    + left. unfold msPerDay. nia.
    + unfold msPerDay. nia.
Qed.

Lemma overshootsb_midnights s e d :
  0 < d ->
  overshootsb (midnightOf s) (midnightOf e) d =
  (s <? e) && (Bounded.maxDay <? s + (e - s + d - 1) / d * d - 1).
Proof.
  intros Hd. unfold overshootsb. rewrite midnightOf_ltb.
  destruct (Z.ltb_spec s e) as [Hlt|Hge]; [|reflexivity]. cbn [andb].
  rewrite (lastStart_midnights s e d Hd Hlt), addDays_midnightOf.
  change Bounded.maxTime with (midnightOf Bounded.maxDay).
  rewrite midnightOf_ltb. f_equal. ring.
Qed.

(** X7: on a range from the midnight of day [s] to that of day [e], both
    in the range of a [Date], in chunks of [d] days with [d] positive, the
    planner plans the days from [s] to [e] over [d], rounded up, windows.
    When the last of them, before it is cut at day [e], ends within the
    range of a [Date], the planner returns, once it is given more
    iterations than the range has days: window [i] starts on day
    [s + i * d] and ends [d - 1] days later, or on day [e] if that comes
    first; and the days covered are those from [s] to the day before [e],
    with day [e] itself only when the number of days from [s] to [e] is no
    multiple of [d].  When it ends after the last day of a [Date], the
    planner throws. *)
Theorem planner_windows_of_a_day_range (s e d : Z) (fuel : nat) :
  0 < d ->
  - Bounded.maxDay <= s <= Bounded.maxDay ->
  - Bounded.maxDay <= e <= Bounded.maxDay ->
  Z.max 0 (e - s) < Z.of_nat fuel ->
  let count := Z.max 0 ((e - s + d - 1) / d) in
  (s + count * d - 1 <= Bounded.maxDay ->
   exists ws,
     Bounded.getDateRanges fuel (Some (midnightOf s)) (Some (midnightOf e)) d =
     Some (map formatWindow ws)
     /\ Z.of_nat (List.length ws) = count
     /\ (forall i w, nth_error ws i = Some w ->
           dayOf (fst w) = s + Z.of_nat i * d
           /\ dayOf (snd w) = Z.min (s + Z.of_nat i * d + (d - 1)) e)
     /\ (forall day,
           Exists (coversDay day) ws <->
           s <= day < e \/ (day = e /\ s < e /\ (e - s) mod d <> 0)))
  /\ (Bounded.maxDay < s + count * d - 1 ->
      forall fuel',
        Bounded.getDateRanges fuel' (Some (midnightOf s)) (Some (midnightOf e)) d = None).
Proof.
  intros Hd Hs He Hfuel count.
  assert (Hvs : Bounded.validTime (midnightOf s) = true).
  { apply validTime_spec. unfold Bounded.maxTime, midnightOf, msPerDay. lia. }
  assert (Hve : Bounded.validTime (midnightOf e) = true).
  { apply validTime_spec. unfold Bounded.maxTime, midnightOf, msPerDay. lia. }
  assert (Hcount : s < e -> count = (e - s + d - 1) / d).
  { intros Hlt. subst count.
    assert (1 <= (e - s + d - 1) / d) by (apply Z.div_le_lower_bound; lia). lia. }
  assert (Hplan : forall n,
            Bounded.getDateRanges n (Some (midnightOf s)) (Some (midnightOf e)) d =
            if (s <? e) && (Bounded.maxDay <? s + count * d - 1) then None
            else getDateRanges n (midnightOf s) (midnightOf e) d).
  { intros n. unfold Bounded.getDateRanges.
    rewrite (bounded_planner n _ _ _ Hd Hvs Hve), (overshootsb_midnights s e d Hd).
    destruct (Z.ltb_spec s e) as [Hlt|Hge]; [|reflexivity].
    now rewrite (Hcount Hlt). }
  split.
  - intros Hfits. rewrite Hplan.
    replace (Bounded.maxDay <? s + count * d - 1) with false
      by (symmetry; apply Z.ltb_ge; lia).
    rewrite andb_false_r.
    destruct fuel as [|fuel]; [lia|].
    assert (Hws : windowsFrom (S fuel) (midnightOf s) (midnightOf e) d =
                  Some (map (clippedWindow s e d) (seq 0 (windowCount s e d))))
      by (apply windowsFrom_clipped; lia).
    eexists.
    split. { unfold getDateRanges. now rewrite getDateRangesFrom_windows, Hws. }
    split. { rewrite length_map, length_seq. unfold windowCount. subst count. lia. }
    split.
    + intros i w Hw. rewrite nth_error_map, nth_error_seq in Hw.
      destruct (Nat.ltb_spec i (windowCount s e d)); simpl in Hw; [|discriminate].
      injection Hw as <-. unfold clippedWindow. simpl.
      now rewrite !dayOf_midnightOf.
    + now apply (windowsFrom_covers (S fuel)).
  - intros Hover fuel'. rewrite Hplan.
    assert (Hlt : s < e).
    { destruct (Z.lt_ge_cases s e) as [|Hge]; [assumption|]. exfalso.
      assert ((e - s + d - 1) / d < 1) by (apply Z.div_lt_upper_bound; lia).
      subst count. lia. }
    replace (s <? e) with true by (symmetry; apply Z.ltb_lt; lia).
    now replace (Bounded.maxDay <? s + count * d - 1) with true
      by (symmetry; apply Z.ltb_lt; lia).
Qed.

(** Nine days in chunks of four: two whole windows and one of a day. *)
Lemma planner_windows_of_a_day_range_witness :
  let count := Z.max 0 ((20349 - 20340 + 4 - 1) / 4) in
  (20340 + count * 4 - 1 <= Bounded.maxDay ->
   exists ws,
     Bounded.getDateRanges 10 (Some (midnightOf 20340)) (Some (midnightOf 20349)) 4 =
     Some (map formatWindow ws)
     /\ Z.of_nat (List.length ws) = count
     /\ (forall i w, nth_error ws i = Some w ->
           dayOf (fst w) = 20340 + Z.of_nat i * 4
           /\ dayOf (snd w) = Z.min (20340 + Z.of_nat i * 4 + (4 - 1)) 20349)
     /\ (forall day,
           Exists (coversDay day) ws <->
           20340 <= day < 20349
           \/ (day = 20349 /\ 20340 < 20349 /\ (20349 - 20340) mod 4 <> 0)))
  /\ (Bounded.maxDay < 20340 + count * 4 - 1 ->
      forall fuel',
        Bounded.getDateRanges fuel' (Some (midnightOf 20340)) (Some (midnightOf 20349)) 4
        = None).
Proof.
  apply (planner_windows_of_a_day_range 20340 20349 4 10);
    unfold Bounded.maxDay; lia.
Defined.

Example planner_nine_days_by_four_bounded :
  Bounded.getDateRanges 10 (Some (midnightOf 20340)) (Some (midnightOf 20349)) 4 =
  Some [ mkRange "2025-09-09" "2025-09-12"; mkRange "2025-09-13" "2025-09-16";
         mkRange "2025-09-17" "2025-09-18" ].
Proof. reflexivity. Qed.

(** The last two days of a [Date], +275760-09-12 and +275760-09-13, in
    chunks of seven days: the end of the window is no date. *)
Example planner_at_the_last_day :
  Bounded.getDateRanges 5 (Some (midnightOf 99999999)) (Some (midnightOf 100000000)) 7
  = None
  /\ Bounded.getDateRanges 5 (Some (midnightOf 99999993)) (Some (midnightOf 100000000)) 7
     = Some [ mkRange "+275760-09-06" "+275760-09-12" ].
Proof. split; reflexivity. Qed.



Example planner_at_the_end_of_9999 :
  Bounded.getDateRanges 5 (Some (midnightOf (lastDay - 45)))
    (Some (midnightOf lastDay + (msPerDay - 1))) CHUNK_DAYS =
  Some [ mkRange "9999-11-16" "9999-12-15"; mkRange "9999-12-16" "9999-12-31" ].
Proof. reflexivity. Qed.

Example planner_nine_days_by_four :
  getDateRanges 10 (midnightOf 20340) (midnightOf 20349) 4 =
  Some [ mkRange "2025-09-09" "2025-09-12"; mkRange "2025-09-13" "2025-09-16";
         mkRange "2025-09-17" "2025-09-18" ].
Proof. reflexivity. Qed.

(** X8: with a chunk size of zero or less the loop of the planner does
    not advance: on a range whose start is before its end it returns
    after no number of iterations. *)
Theorem planner_loops_without_positive_chunk
    (fuel : nat) (startDate endDate : Date.t) (d : Z) :
  d <= 0 -> startDate < endDate ->
  getDateRanges fuel startDate endDate d = None.
Proof.
  intros Hd. unfold getDateRanges. revert startDate.
  induction fuel as [|fuel IH]; intros cs Hlt; simpl; [reflexivity|].
  replace (cs <? endDate) with true by (symmetry; apply Z.ltb_lt; lia).
  assert (Hback : addDays cs (d - 1) < cs) by (unfold addDays, msPerDay; lia).
  replace (addDays cs (d - 1) >? endDate) with false
    by (symmetry; rewrite Z.gtb_ltb; apply Z.ltb_ge; lia).
  rewrite IH; [reflexivity|]. unfold addDays, msPerDay in *. nia.
Qed.

Lemma planner_loops_without_positive_chunk_witness :
  getDateRanges 1000 (midnightOf 20340) (midnightOf 20341) 0 = None.
Proof.
  apply planner_loops_without_positive_chunk; [lia|].
  unfold midnightOf, msPerDay. lia.
Defined.

End PlannerInGeneral.

(* ===================================================================== *)
(** ** Date strings compare as days *)
(* ===================================================================== *)

Section DateOrder.
Import Date DateFacts.

(** The order of calendar dates: by year, then month, then day. *)
Definition compareCivil (a b : Z * Z * Z) : comparison :=
  let '(y1, m1, d1) := a in
  let '(y2, m2, d2) := b in
  match y1 ?= y2 with
  | Eq => match m1 ?= m2 with Eq => d1 ?= d2 | c => c end
  | c => c
  end.

Definition yearOfEra (doe : Z) : Z :=
  (doe - doe / 1460 + doe / 36524 - doe / 146096) / 365.

Lemma yearOfEra_mono a b : 0 <= a <= b -> yearOfEra a <= yearOfEra b.
Proof.
  intros H. unfold yearOfEra. apply Z.div_le_mono; [lia|].
  Z.to_euclidean_division_equations; lia.
Qed.

(** The intermediate values of [civil]. *)
Lemma civil_parts day :
  exists era doe yoe doy mp,
    day + 719468 = era * 146097 + doe /\ 0 <= doe <= 146096
    /\ yoe = yearOfEra doe /\ 0 <= yoe <= 399
    /\ doy = doe - (365 * yoe + yoe / 4 - yoe / 100) /\ 0 <= doy <= 365
    /\ mp = (5 * doy + 2) / 153 /\ 0 <= mp <= 11
    /\ civil day =
       (if mp <? 10 then yoe + era * 400 else yoe + era * 400 + 1,
        if mp <? 10 then mp + 3 else mp - 9,
        doy - (153 * mp + 2) / 5 + 1).
Proof.
  unfold civil.
  set (z := day + 719468).
  set (era := z / 146097).
  set (doe := z - era * 146097).
  fold (yearOfEra doe).
  set (yoe := yearOfEra doe).
  set (doy := doe - (365 * yoe + yoe / 4 - yoe / 100)).
  set (mp := (5 * doy + 2) / 153).
  cbv zeta.
  assert (Hdoe : 0 <= doe <= 146096)
    by (subst doe era; Z.to_euclidean_division_equations; lia).
  assert (Hyoe : 0 <= yoe <= 399)
    by (subst yoe; unfold yearOfEra; clearbody doe;
        Z.to_euclidean_division_equations; lia).
  assert (Hdoy : 0 <= doy <= 365)
    by (subst doy yoe; unfold yearOfEra; clearbody doe;
        Z.to_euclidean_division_equations; lia).
  assert (Hmp : 0 <= mp <= 11)
    by (subst mp; clearbody doy; Z.to_euclidean_division_equations; lia).
  exists era, doe, yoe, doy, mp.
  repeat (split; [first [reflexivity|assumption|lia]|]).
  clearbody mp. destruct (Z.ltb_spec mp 10).
  - destruct (Z.leb_spec (mp + 3) 2); [lia|reflexivity].
  - destruct (Z.leb_spec (mp - 9) 2); [reflexivity|lia].
Qed.

(** A later day has a later calendar date. *)
Lemma civil_lt day1 day2 :
  day1 < day2 -> compareCivil (civil day1) (civil day2) = Lt.
Proof.
  intros Hlt.
  destruct (civil_parts day1)
    as (era1 & doe1 & yoe1 & doy1 & mp1 & Hz1 & Hdoe1 & Ey1 & Hyoe1 & Ed1 & Hdoy1
        & Em1 & Hmp1 & ->).
  destruct (civil_parts day2)
    as (era2 & doe2 & yoe2 & doy2 & mp2 & Hz2 & Hdoe2 & Ey2 & Hyoe2 & Ed2 & Hdoy2
        & Em2 & Hmp2 & ->).
  assert (F1 : era1 < era2 \/ (era1 = era2 /\ doe1 < doe2)) by lia.
  assert (F2 : era1 = era2 -> yoe1 <= yoe2).
  { intros He. destruct F1 as [F1|[_ F1]]; [lia|].
    subst yoe1 yoe2. apply yearOfEra_mono. lia. }
  assert (F3 : era1 = era2 -> yoe1 = yoe2 -> doy1 < doy2).
  { intros He Hy. rewrite Ed1, Ed2, Hy. lia. }
  assert (F4 : doy1 <= doy2 -> mp1 <= mp2).
  { intros Hd. subst mp1 mp2. apply Z.div_le_mono; lia. }
  set (d1 := doy1 - (153 * mp1 + 2) / 5 + 1).
  set (d2 := doy2 - (153 * mp2 + 2) / 5 + 1).
  assert (F5 : mp1 = mp2 -> doy1 < doy2 -> d1 < d2).
  { intros Hm Hd. subst d1 d2. rewrite Hm. lia. }
  clearbody d1 d2. clear Ey1 Ey2 Ed1 Ed2 Em1 Em2 Hz1 Hz2.
  unfold compareCivil.
  destruct (Z.ltb_spec mp1 10), (Z.ltb_spec mp2 10);
    repeat match goal with
           | |- context [?a ?= ?b] => destruct (Z.compare_spec a b)
           end; try reflexivity; exfalso; lia.
Qed.

Lemma compareCivil_refl c : compareCivil c c = Eq.
Proof. destruct c as [[y m] d]. simpl. now rewrite !Z.compare_refl. Qed.

(** Digits of a fixed width compare as the numbers they print. *)
Lemma digitChar_compare x y :
  0 <= x < 10 -> 0 <= y < 10 ->
  Ascii.compare (digitChar x) (digitChar y) = (x ?= y).
Proof.
  intros Hx Hy.
  assert (Ex : exists i, (i < 10)%nat /\ x = Z.of_nat i)
    by (exists (Z.to_nat x); lia).
  assert (Ey : exists j, (j < 10)%nat /\ y = Z.of_nat j)
    by (exists (Z.to_nat y); lia).
  destruct Ex as (i & Hi & ->), Ey as (j & Hj & ->).
  do 10 (destruct i as [|i]; [do 10 (destruct j as [|j]; [reflexivity|]); lia|]).
  lia.
Qed.

Lemma digits_length k : forall n, String.length (digits k n) = k.
Proof.
  induction k as [|k IH]; intros n; simpl; [reflexivity|].
  rewrite string_length_app, IH. simpl. lia.
Qed.

Lemma digits_compare k : forall a b,
  0 <= a < 10 ^ Z.of_nat k -> 0 <= b < 10 ^ Z.of_nat k ->
  String.compare (digits k a) (digits k b) = (a ?= b).
Proof.
  induction k as [|k IH]; intros a b Ha Hb.
  - change (10 ^ Z.of_nat 0) with 1 in *.
    assert (a = 0) by lia. assert (b = 0) by lia. subst. reflexivity.
  - rewrite Nat2Z.inj_succ, Z.pow_succ_r in Ha, Hb by lia.
    cbn [digits]. rewrite string_compare_app by now rewrite !digits_length.
    rewrite IH by (split; [apply Z.div_pos; lia|apply Z.div_lt_upper_bound; lia]).
    pose proof (Z.mod_pos_bound a 10 ltac:(lia)) as Hma.
    pose proof (Z.mod_pos_bound b 10 ltac:(lia)) as Hmb.
    cbn [String.compare]. rewrite digitChar_compare by assumption.
    pose proof (Z.div_mod a 10 ltac:(lia)) as Ea.
    pose proof (Z.div_mod b 10 ltac:(lia)) as Eb.
    destruct (Z.compare_spec (a / 10) (b / 10)),
             (Z.compare_spec (a mod 10) (b mod 10)),
             (Z.compare_spec a b); try reflexivity; exfalso; lia.
Qed.

(** The date strings of two dates of four digit years compare as their
    days do. *)
Lemma formatDate_compare a b :
  fourDigitYear a -> fourDigitYear b ->
  String.compare (formatDate a) (formatDate b) = (dayOf a ?= dayOf b).
Proof.
  assert (Hcivil : forall a b, fourDigitYear a -> fourDigitYear b ->
            String.compare (formatDate a) (formatDate b) =
            compareCivil (civil (dayOf a)) (civil (dayOf b))).
  { clear. intros a b Ha Hb. apply civil_year in Ha, Hb. unfold formatDate.
    pose proof (civil_month_day (dayOf a)) as Ma.
    pose proof (civil_month_day (dayOf b)) as Mb.
    destruct (civil (dayOf a)) as [[y1 m1] d1], (civil (dayOf b)) as [[y2 m2] d2].
    simpl in Ha, Hb. unfold isoYear, compareCivil.
    replace ((0 <=? y1) && (y1 <=? 9999)) with true
      by (symmetry; apply andb_true_iff; split; apply Z.leb_le; lia).
    replace ((0 <=? y2) && (y2 <=? 9999)) with true
      by (symmetry; apply andb_true_iff; split; apply Z.leb_le; lia).
    rewrite string_compare_app by now rewrite !digits_length.
    rewrite digits_compare by (change (10 ^ Z.of_nat 4) with 10000; lia).
    destruct (y1 ?= y2); try reflexivity.
    change (String.compare (digits 2 m1 +:+ "-" +:+ digits 2 d1)
                           (digits 2 m2 +:+ "-" +:+ digits 2 d2) =
            match m1 ?= m2 with Eq => d1 ?= d2 | c => c end).
    rewrite string_compare_app by now rewrite !digits_length.
    rewrite digits_compare by (change (10 ^ Z.of_nat 2) with 100; lia).
    destruct (m1 ?= m2); try reflexivity.
    change (String.compare (digits 2 d1) (digits 2 d2) = (d1 ?= d2)).
    apply digits_compare; change (10 ^ Z.of_nat 2) with 100; lia. }
  intros Ha Hb. destruct (Z.compare_spec (dayOf a) (dayOf b)) as [E|E|E].
  - rewrite Hcivil, E by assumption. apply compareCivil_refl.
  - rewrite Hcivil by assumption. now apply civil_lt.
  - rewrite String.compare_antisym, Hcivil by assumption.
    now rewrite civil_lt.
Qed.

(** A day outside the years 0 to 9999 prints with a sign, which is below
    every digit. *)
Lemma civil_year_outside day :
  ~ firstDay <= day <= lastDay ->
  fst (fst (civil day)) < 0 \/ 9999 < fst (fst (civil day)).
Proof.
  intros H. pose proof (civil_month_day day) as M.
  destruct (Z.lt_ge_cases day firstDay) as [Hlo|Hlo].
  - apply civil_lt in Hlo. change (civil firstDay) with (0, 1, 1) in Hlo.
    destruct (civil day) as [[y m] d]. unfold compareCivil in Hlo. cbn [fst].
    left. revert Hlo.
    destruct (Z.compare_spec y 0); [|lia|discriminate].
    destruct (Z.compare_spec m 1); [|lia|discriminate].
    destruct (Z.compare_spec d 1); [discriminate|lia|discriminate].
  - assert (Hhi : lastDay < day) by lia.
    apply civil_lt in Hhi. change (civil lastDay) with (9999, 12, 31) in Hhi.
    destruct (civil day) as [[y m] d]. unfold compareCivil in Hhi. cbn [fst].
    right. revert Hhi.
    destruct (Z.compare_spec 9999 y); [|lia|discriminate].
    destruct (Z.compare_spec 12 m); [|lia|discriminate].
    destruct (Z.compare_spec 31 d); [discriminate|lia|discriminate].
Qed.

Lemma sign_below_digit (sign : ascii) n :
  sign = "+"%char \/ sign = "-"%char ->
  Ascii.compare sign (digitChar (n mod 10)) = Lt.
Proof.
  intros Hs.
  assert (H : 0 <= n mod 10 < 10) by (apply Z.mod_pos_bound; lia).
  assert (E : exists k, (k < 10)%nat /\ n mod 10 = Z.of_nat k)
    by (exists (Z.to_nat (n mod 10)); lia).
  destruct E as (k & Hk & ->).
  do 10 (destruct k as [|k]; [destruct Hs as [->| ->]; reflexivity|]). lia.
Qed.

Lemma formatDate_signed_below t a :
  ~ fourDigitYear t -> fourDigitYear a ->
  String.compare (formatDate t) (formatDate a) = Lt.
Proof.
  intros Ht Ha. apply civil_year_outside in Ht. apply civil_year in Ha.
  unfold formatDate.
  destruct (civil (dayOf t)) as [[y1 m1] d1], (civil (dayOf a)) as [[y2 m2] d2].
  simpl in Ht, Ha. unfold isoYear.
  replace ((0 <=? y2) && (y2 <=? 9999)) with true
    by (symmetry; apply andb_true_iff; split; apply Z.leb_le; lia).
  replace ((0 <=? y1) && (y1 <=? 9999)) with false
    by (symmetry; apply andb_false_iff;
        destruct Ht; [left; apply Z.leb_gt|right; apply Z.leb_gt]; lia).
  cbn [digits String.append].
  destruct (y1 <? 0); cbn [String.append String.compare];
    rewrite sign_below_digit; auto.
Qed.

End DateOrder.

Section DateStrings.
Import Date DateFacts.

(** The test [eventDateStr >= startDate && eventDateStr <= endDate] on
    the date string of any date, against the date strings of two dates of
    four digit years. *)
Lemma within_strings_within_days a b t :
  fourDigitYear a -> fourDigitYear b ->
  Js.ge (formatDate t) (formatDate a) && Js.le (formatDate t) (formatDate b) =
  (dayOf a <=? dayOf t) && (dayOf t <=? dayOf b).
Proof.
  intros Ha Hb. unfold Js.ge, Js.le, String.leb.
  destruct (Z_le_dec firstDay (dayOf t)) as [Hlo|Hlo];
    [destruct (Z_le_dec (dayOf t) lastDay) as [Hhi|Hhi]|].
  - assert (Ht : fourDigitYear t) by (split; assumption).
    rewrite !formatDate_compare by assumption.
    destruct (Z.compare_spec (dayOf a) (dayOf t)), (Z.compare_spec (dayOf t) (dayOf b)),
             (Z.leb_spec (dayOf a) (dayOf t)), (Z.leb_spec (dayOf t) (dayOf b));
      try reflexivity; exfalso; lia.
  - assert (Ht : ~ fourDigitYear t) by (unfold fourDigitYear; lia).
    rewrite (String.compare_antisym (formatDate a) (formatDate t)).
    rewrite (formatDate_signed_below t a Ht Ha). simpl.
    symmetry. apply andb_false_iff. right. apply Z.leb_gt.
    unfold fourDigitYear in Hb. lia.
  - assert (Ht : ~ fourDigitYear t) by (unfold fourDigitYear; lia).
    rewrite (String.compare_antisym (formatDate a) (formatDate t)).
    rewrite (formatDate_signed_below t a Ht Ha). simpl.
    symmetry. apply andb_false_iff. left. apply Z.leb_gt.
    unfold fourDigitYear in Ha. lia.
Qed.

(** X9: the date strings of two dates of the years 0000 to 9999 compare,
    as strings, as the UTC days of the dates do, and are equal exactly
    when the days are; and the date string of any date lies between them
    exactly when its day lies between their days. *)
Theorem date_strings_order_as_days (a b : Date.t) :
  fourDigitYear a -> fourDigitYear b ->
  (Js.le (formatDate a) (formatDate b) = true <-> dayOf a <= dayOf b)
  /\ (Js.ge (formatDate a) (formatDate b) = true <-> dayOf b <= dayOf a)
  /\ (formatDate a = formatDate b <-> dayOf a = dayOf b)
  /\ (forall t : Date.t,
        Js.ge (formatDate t) (formatDate a) = true
        /\ Js.le (formatDate t) (formatDate b) = true
        <-> dayOf a <= dayOf t <= dayOf b).
Proof.
  intros Ha Hb. unfold Js.le, Js.ge, String.leb.
  split; [|split; [|split]].
  - rewrite formatDate_compare by assumption.
    destruct (Z.compare_spec (dayOf a) (dayOf b)); split; intros; try easy; lia.
  - rewrite formatDate_compare by assumption.
    destruct (Z.compare_spec (dayOf b) (dayOf a)); split; intros; try easy; lia.
  - split.
    + intros E. pose proof (formatDate_compare a b Ha Hb) as H.
      rewrite E, string_compare_refl in H. symmetry in H.
      now apply Z.compare_eq in H.
    + intros E. unfold formatDate. now rewrite E.
  - intros t. pose proof (within_strings_within_days a b t Ha Hb) as H.
    unfold Js.ge, Js.le, String.leb in H.
    rewrite <- andb_true_iff, H, andb_true_iff, !Z.leb_le. reflexivity.
Qed.

Lemma date_strings_order_as_days_witness :
  let a := midnightOf 20340 in
  let b := midnightOf 20370 + 3600000 in
  (Js.le (formatDate a) (formatDate b) = true <-> dayOf a <= dayOf b)
  /\ (Js.ge (formatDate a) (formatDate b) = true <-> dayOf b <= dayOf a)
  /\ (formatDate a = formatDate b <-> dayOf a = dayOf b)
  /\ (forall t : Date.t,
        Js.ge (formatDate t) (formatDate a) = true
        /\ Js.le (formatDate t) (formatDate b) = true
        <-> dayOf a <= dayOf t <= dayOf b).
Proof.
  apply (date_strings_order_as_days (midnightOf 20340) (midnightOf 20370 + 3600000));
    unfold fourDigitYear; vm_compute; split; discriminate.
Defined.

End DateStrings.

(* ===================================================================== *)
(** ** What the fetch of a window returns *)
(* ===================================================================== *)

Section FetchedWindow.
Import Date Planner Store StoreFacts Fetcher Extract DateFacts.

Variable Date_parse : string -> option Date.t.
Variable ORGANIZATION_SLUG : string.
Variable now : string.
Variable upstream : string -> Response.

(** An event that has a date, which does not parse: [formatDate] throws
    on it. *)
Definition unparsable (event : RawEvent) : bool :=
  Js.truthy (eventDate event)
  && match Date_parse (default "" (eventDate event)) with
     | Some _ => false
     | None => true
     end.

(** An event that has a date, on a UTC day from that of [a] to that of
    [b]. *)
Definition onDaysOf (a b : Date.t) (event : RawEvent) : bool :=
  Js.truthy (eventDate event)
  && match Date_parse (default "" (eventDate event)) with
     | Some t => (dayOf a <=? dayOf t) && (dayOf t <=? dayOf b)
     | None => false
     end.

(** A call whose promise is rejected, whose body is no array of events,
    or whose page holds an event with a date that does not parse. *)
Definition pageFails (url : string) : bool :=
  match upstream url with
  | Rejected => true
  | Resolved None _ => true
  | Resolved (Some data) _ => existsb unparsable data
  end.

Definition keptOfPage (issueType : string) (a b : Date.t) (url : string)
    : list MinimalEvent :=
  match upstream url with
  | Resolved (Some data) _ =>
      map (fun event => extractMinimalEventData now event issueType)
          (List.filter (onDaysOf a b) data)
  | _ => []
  end.

Lemma pageEvents_days issueType a b data :
  fourDigitYear a -> fourDigitYear b ->
  forall allEvents,
  pageEvents Date_parse now issueType (formatDate a) (formatDate b) data allEvents =
  if existsb unparsable data then None
  else Some (allEvents ++
             map (fun event => extractMinimalEventData now event issueType)
                 (List.filter (onDaysOf a b) data)).
Proof.
  intros Ha Hb. induction data as [|event data IH]; intros allEvents.
  - simpl. now rewrite app_nil_r.
  - cbn [pageEvents existsb List.filter]. unfold unparsable at 1, onDaysOf at 1.
    unfold eventDate.
    destruct (Js.truthy (Js.or (ev_dateCreated event) (ev_dateReceived event)));
      [|apply IH].
    cbn [andb].
    destruct (Date_parse (default "" (Js.or (ev_dateCreated event) (ev_dateReceived event))))
      as [t|]; [|reflexivity].
    cbn [orb]. rewrite (within_strings_within_days a b t Ha Hb).
    destruct ((dayOf a <=? dayOf t) && (dayOf t <=? dayOf b)); [|apply IH].
    rewrite IH. destruct (existsb unparsable data); [reflexivity|].
    cbn [map]. now rewrite <- app_assoc.
Qed.

Lemma fetchPages_days fuel issueType a b :
  fourDigitYear a -> fourDigitYear b ->
  forall currentUrl allEvents calls res calls',
  fetchPages Date_parse now upstream fuel issueType (formatDate a) (formatDate b)
    currentUrl allEvents calls = Some (res, calls') ->
  exists made,
    calls' = calls ++ currentUrl :: made
    /\ res = if existsb pageFails (currentUrl :: made) then Failed
             else Completed (allEvents ++
                    flat_map (keptOfPage issueType a b) (currentUrl :: made)).
Proof.
  intros Ha Hb.
  induction fuel as [|fuel IH]; intros url allEvents calls res calls' H;
    [discriminate|].
  cbn [fetchPages] in H. cbn [existsb flat_map].
  unfold pageFails at 1, keptOfPage at 1.
  destruct (upstream url) as [|[data|] next].
  - injection H as <- <-. exists []. split; reflexivity.
  - rewrite (pageEvents_days issueType a b data Ha Hb) in H.
    destruct (existsb unparsable data).
    { injection H as <- <-. exists []. split; reflexivity. }
    cbn [orb].
    assert (Hlast : Some (Completed (allEvents ++
                map (fun event => extractMinimalEventData now event issueType)
                    (List.filter (onDaysOf a b) data)), calls ++ [url])
              = Some (res, calls') ->
            exists made,
              calls' = calls ++ url :: made
              /\ res = if existsb pageFails made then Failed
                       else Completed (allEvents ++
                              map (fun event => extractMinimalEventData now event issueType)
                                  (List.filter (onDaysOf a b) data) ++
                              flat_map (keptOfPage issueType a b) made)).
    { intros [= <- <-]. exists []. split; [reflexivity|].
      simpl. now rewrite app_nil_r. }
    destruct (List.length data =? 0)%nat; [now apply Hlast|].
    destruct (Js.truthy next); [|now apply Hlast].
    apply IH in H. destruct H as (made & -> & ->).
    exists (default "" next :: made). split; [now rewrite <- app_assoc|].
    destruct (existsb pageFails (default "" next :: made)); [reflexivity|].
    now rewrite <- app_assoc.
  - injection H as <- <-. exists []. split; reflexivity.
Qed.

(** X10: the fetch of a window between two dates of four digit years
    calls the search URL of the window first; if one of its calls fails,
    or returns an event whose date does not parse, it returns no event at
    all; otherwise it returns, page after page, the minimal records of
    the events that have a date on a UTC day of the window. *)
Theorem fetched_window_holds_its_days
    (fuel : nat) (issueId issueName issueType : string) (a b : Date.t)
    (evs : list MinimalEvent) (calls : list string) :
  fourDigitYear a -> fourDigitYear b ->
  fetchDateRangeChunk Date_parse ORGANIZATION_SLUG now upstream fuel
    issueId issueName issueType (formatDate a) (formatDate b) = Some (evs, calls) ->
  hd_error calls = Some (chunkUrl ORGANIZATION_SLUG issueId (formatDate a) (formatDate b))
  /\ evs = if existsb pageFails calls then []
           else flat_map (keptOfPage issueType a b) calls.
Proof.
  intros Ha Hb H. unfold fetchDateRangeChunk, tryFetch in H.
  destruct (fetchPages _ _ _ _ _ _ _ _ _ _) as [[res calls']|] eqn:E;
    [|discriminate H].
  apply (fetchPages_days fuel issueType a b Ha Hb) in E.
  destruct E as (made & -> & ->). cbn [app] in H.
  destruct (existsb pageFails _) eqn:Ef; injection H as <- <-;
    (split; [reflexivity|]); rewrite Ef; reflexivity.
Qed.

End FetchedWindow.

Section FetchedWindowRun.
Import Date Planner Store Fetcher Examples.

Lemma fetched_window_holds_its_days_witness :
  let a := midnight 2025 9 9 in
  let b := midnight 2025 9 16 in
  let calls := [firstPage; secondPage] in
  fetchDateRangeChunk parseTimestamp "xajeet" "2025-09-17T06:00:00.000Z" healthy 4
    errorIssue "Payment Error" "payment_error" (formatDate a) (formatDate b)
  = Some (keptEvents, calls)
  /\ hd_error calls = Some (chunkUrl "xajeet" errorIssue (formatDate a) (formatDate b))
  /\ keptEvents =
     if existsb (pageFails parseTimestamp healthy) calls then []
     else flat_map (keptOfPage parseTimestamp "2025-09-17T06:00:00.000Z" healthy
                      "payment_error" a b) calls.
Proof.
  cbv zeta.
  assert (H1 : fourDigitYear (midnight 2025 9 9))
    by (unfold fourDigitYear; vm_compute; split; discriminate).
  assert (H2 : fourDigitYear (midnight 2025 9 16))
    by (unfold fourDigitYear; vm_compute; split; discriminate).
  assert (H3 : fetchDateRangeChunk parseTimestamp "xajeet" "2025-09-17T06:00:00.000Z"
                 healthy 4 errorIssue "Payment Error" "payment_error"
                 (formatDate (midnight 2025 9 9)) (formatDate (midnight 2025 9 16))
               = Some (keptEvents, [firstPage; secondPage]))
    by reflexivity.
  split; [exact H3|].
  exact (fetched_window_holds_its_days parseTimestamp "xajeet"
           "2025-09-17T06:00:00.000Z" healthy 4 errorIssue "Payment Error"
           "payment_error" (midnight 2025 9 9) (midnight 2025 9 16)
           keptEvents [firstPage; secondPage] H1 H2 H3).
Defined.

End FetchedWindowRun.

(* ===================================================================== *)
(** ** What a run leaves of the store *)
(* ===================================================================== *)

Section StoreInGeneral.
Import Date Planner Store StoreFacts Fetcher Reader.

Variable Date_parse : string -> option Date.t.
Variable ORGANIZATION_SLUG : string.
Variable now : string.
Variable upstream : string -> Response.

Lemma string_app_inj_r c : forall a b, a +:+ c = b +:+ c -> a = b.
Proof.
  induction a as [|x a IH]; intros [|y b] H; simpl in H.
  - reflexivity.
  - exfalso. apply (f_equal String.length) in H. simpl in H.
    rewrite string_length_app in H. lia.
  - exfalso. apply (f_equal String.length) in H. simpl in H.
    rewrite string_length_app in H. lia.
  - injection H as -> H. f_equal. now apply IH.
Qed.

Lemma chunkName_rangeKey s e : chunkName s e = rangeKey s e +:+ ".json".
Proof. unfold chunkName, rangeKey. now rewrite !string_app_assoc. Qed.

(** A missing window has the name of no chunk file of the directory. *)
Lemma missing_not_named fs issueId issueName allRanges r d f p :
  In r (missingRanges allRanges (loadExistingChunks fs issueId issueName)) ->
  fs !! getChunkDir issueId issueName = Some d ->
  In f (readdir d) -> matchChunkName f = Some p ->
  chunkName (r_start r) (r_end r) <> f.
Proof.
  intros Hr Hd Hf Hm Heq. apply missingRanges_In in Hr. destruct Hr as [_ Hn].
  apply Hn. destruct p as [a b].
  destruct (matchChunkName_inv _ _ _ Hm) as (Hname & Ha & Hb).
  rewrite Hname, !chunkName_rangeKey in Heq. apply string_app_inj_r in Heq.
  apply rangeKey_inj in Heq; [|now apply isDateStr_chars..].
  destruct Heq as [Hs He].
  exists (mkChunkRef f (join (getChunkDir issueId issueName) f) a b).
  split; [|now split]. apply loadExistingChunks_spec. exists d. now repeat split.
Qed.

Lemma fetchEach_keeps fuel issueId issueName issueType missing :
  forall fs calls fs' calls',
  fetchEach Date_parse ORGANIZATION_SLUG now upstream fuel fs
    issueId issueName issueType missing calls = Some (fs', calls') ->
  (forall dir, dir <> getChunkDir issueId issueName -> fs' !! dir = fs !! dir)
  /\ (forall d f,
        fs !! getChunkDir issueId issueName = Some d ->
        (forall r, In r missing -> chunkName (r_start r) (r_end r) <> f) ->
        exists d', fs' !! getChunkDir issueId issueName = Some d'
                   /\ readFile f d' = readFile f d).
Proof.
  induction missing as [|range rest IH]; intros fs calls fs' calls' H; simpl in H.
  - injection H as <- _. split; [reflexivity|]. intros d f Hd _. now exists d.
  - destruct (fetchDateRangeChunk _ _ _ _ _ _ _ _ _ _) as [[evs made]|];
      [|discriminate H].
    apply IH in H. destruct H as [Hframe Hkeep]. split.
    + intros dir Hne. rewrite (Hframe dir Hne).
      destruct (0 <? List.length evs)%nat; now apply saveChunk_lookup_other.
    + intros d f Hd Hnames.
      assert (Hne : f <> chunkName (r_start range) (r_end range)).
      { intros ->. now apply (Hnames range (or_introl eq_refl)). }
      assert (Hsaved : forall evs',
                exists d1, saveChunk now fs issueId issueName
                             (r_start range) (r_end range) evs'
                             !! getChunkDir issueId issueName = Some d1
                           /\ readFile f d1 = readFile f d).
      { intros evs'. eexists. split; [apply saveChunk_lookup|].
        rewrite Hd. simpl. now apply readFile_writeFile_other. }
      destruct (0 <? List.length evs)%nat;
        [destruct (Hsaved evs) as (d1 & Hd1 & Hr1)
        |destruct (Hsaved []) as (d1 & Hd1 & Hr1)];
        (destruct (Hkeep d1 f Hd1) as (d' & Hd' & Hr');
         [intros r Hr; apply Hnames; now right|]);
        exists d'; (split; [exact Hd'|congruence]).
Qed.

Lemma fetchMissingChunks_frame fuel fs issueId issueName issueType startDate endDate
    fs' calls dir :
  fetchMissingChunks Date_parse ORGANIZATION_SLUG now upstream fuel fs
    issueId issueName issueType startDate endDate = Some (fs', calls) ->
  dir <> getChunkDir issueId issueName -> fs' !! dir = fs !! dir.
Proof.
  unfold fetchMissingChunks. intros H Hne.
  destruct (getDateRanges fuel startDate endDate CHUNK_DAYS) as [allRanges|];
    [|discriminate H].
  destruct (List.length _ =? 0)%nat.
  - now injection H as <- _.
  - apply fetchEach_keeps in H. now apply H.
Qed.

(** X11: a run of the fetch-and-cache flow never rewrites a chunk that
    is on disk: every file of the directory of the issue whose name has
    the pattern of a chunk is there after the run, with the content it
    had. *)
Theorem existing_chunks_are_never_rewritten
    (fuel : nat) (fs fs' : FS) (issueId issueName issueType : string)
    (startDate endDate : Date.t) (calls : list string) :
  fetchMissingChunks Date_parse ORGANIZATION_SLUG now upstream fuel fs
    issueId issueName issueType startDate endDate = Some (fs', calls) ->
  forall d f p,
    fs !! getChunkDir issueId issueName = Some d ->
    In f (readdir d) -> matchChunkName f = Some p ->
    exists d', fs' !! getChunkDir issueId issueName = Some d'
               /\ In f (readdir d')
               /\ readFile f d' = readFile f d.
Proof.
  intros H d f p Hd Hf Hm.
  assert (Hsame : exists d', fs' !! getChunkDir issueId issueName = Some d'
                             /\ readFile f d' = readFile f d).
  { unfold fetchMissingChunks in H.
    destruct (getDateRanges fuel startDate endDate CHUNK_DAYS) as [allRanges|];
      [|discriminate H].
    destruct (List.length _ =? 0)%nat.
    - injection H as <- _. now exists d.
    - apply fetchEach_keeps in H. destruct H as [_ Hkeep].
      apply (Hkeep d f Hd). intros r Hr. eapply missing_not_named; eauto. }
  destruct Hsame as (d' & Hd' & Hr). exists d'. split; [exact Hd'|].
  split; [|exact Hr].
  destruct (In_readFile f d Hf) as [c Hc]. rewrite Hc in Hr.
  eapply readFile_In; eauto.
Qed.

Lemma allDigits_underscore x : forall y,
  Aggregate.allDigits (x +:+ String "_" y) = false.
Proof.
  induction x as [|c x IH]; intros y; simpl; [reflexivity|].
  rewrite IH. apply andb_false_r.
Qed.

Lemma numeric_suffix x1 : forall x2 i1 i2,
  Aggregate.allDigits i1 = true -> Aggregate.allDigits i2 = true ->
  x1 +:+ String "_" i1 = x2 +:+ String "_" i2 -> x1 = x2 /\ i1 = i2.
Proof.
  induction x1 as [|c x1 IH]; intros [|c2 x2] i1 i2 H1 H2 H; simpl in H.
  - now injection H.
  - injection H as _ H. subst i1. now rewrite allDigits_underscore in H1.
  - injection H as _ H. subst i2. now rewrite allDigits_underscore in H2.
  - injection H as -> H. destruct (IH _ _ _ H1 H2 H) as [-> ->]. now split.
Qed.

(** Issues of different numeric ids have different directories. *)
Lemma getChunkDir_separate id1 name1 id2 name2 :
  Aggregate.allDigits id1 = true -> Aggregate.allDigits id2 = true ->
  getChunkDir id1 name1 = getChunkDir id2 name2 ->
  slug false name1 = slug false name2 /\ id1 = id2.
Proof.
  unfold getChunkDir, join, RAW_DIR. intros H1 H2 H.
  simpl in H. injection H as H. now apply numeric_suffix.
Qed.

(** An issue name that holds no path separator: with a numeric id, its
    chunk directory is a child of [RAW_DIR], and the chunk directories of
    two such issues do not lie in one another. *)
Fixpoint plainName (s : string) : bool :=
  match s with
  | EmptyString => true
  | String c r => negb (Ascii.eqb c "/") && plainName r
  end.

(** X12: for issues whose names hold no path separator, a run for one
    issue changes nothing of what is cached for an issue of another
    numeric id: the chunks found on disk and the events the reader loads
    for it are the same before and after. *)
Theorem fetching_one_issue_keeps_the_other
    (fuel : nat) (fs fs' : FS) (issueId issueName issueType : string)
    (startDate endDate : Date.t) (calls : list string)
    (otherId otherName : string) :
  Aggregate.allDigits issueId = true -> Aggregate.allDigits otherId = true ->
  issueId <> otherId ->
  plainName issueName = true -> plainName otherName = true ->
  fetchMissingChunks Date_parse ORGANIZATION_SLUG now upstream fuel fs
    issueId issueName issueType startDate endDate = Some (fs', calls) ->
  forall from to,
    loadExistingChunks fs' otherId otherName = loadExistingChunks fs otherId otherName
    /\ loadChunksInDateRange fs' otherId otherName from to =
       loadChunksInDateRange fs otherId otherName from to.
Proof.
  intros H1 H2 Hne _ _ H from to.
  assert (E : fs' !! getChunkDir otherId otherName = fs !! getChunkDir otherId otherName).
  { apply (fetchMissingChunks_frame _ _ _ _ _ _ _ _ _ _ H).
    intros Heq. apply getChunkDir_separate in Heq; [|assumption..].
    destruct Heq as [_ Heq]. congruence. }
  unfold loadExistingChunks, loadChunksInDateRange. now rewrite E.
Qed.

End StoreInGeneral.

Section ReaderInGeneral.
Import Store StoreFacts Reader.

Lemma loadFiles_throws d startDate endDate files : forall allEvents,
  loadFiles d startDate endDate files allEvents = None <->
  exists file chunkStart chunkEnd,
    In file files /\ matchChunkName file = Some (chunkStart, chunkEnd)
    /\ overlaps startDate endDate chunkStart chunkEnd = true
    /\ forall chunkData, readFile file d <> Some (Chunk chunkData).
Proof.
  induction files as [|file rest IH]; intros allEvents; simpl.
  - split; [discriminate|]. now intros (f & a & b & [] & _).
  - assert (Hskip : forall acc,
              (forall a b, matchChunkName file = Some (a, b) ->
                           overlaps startDate endDate a b = true ->
                           exists c, readFile file d = Some (Chunk c)) ->
              (loadFiles d startDate endDate rest acc = None <->
               exists f a b, (file = f \/ In f rest) /\ matchChunkName f = Some (a, b)
                 /\ overlaps startDate endDate a b = true
                 /\ forall c, readFile f d <> Some (Chunk c))).
    { intros acc Hok. rewrite IH. split.
      - intros (f & a & b & Hf & Hrest). exists f, a, b. split; [now right|exact Hrest].
      - intros (f & a & b & [<-|Hf] & Hm & Ho & Hr).
        + destruct (Hok a b Hm Ho) as [c Hc]. now destruct (Hr c).
        + exists f, a, b. now repeat split. }
    destruct (matchChunkName file) as [[a b]|] eqn:Em.
    2: { apply Hskip. intros a b [=]. }
    fold (overlaps startDate endDate a b).
    destruct (overlaps startDate endDate a b) eqn:Eo.
    2: { apply Hskip. intros a' b' [= <- <-] Ho. congruence. }
    destruct (readFile file d) as [[c|content]|] eqn:Er.
    + apply Hskip. intros a' b' _ _. now exists c.
    + split; [intros _|reflexivity]. exists file, a, b.
      repeat split; auto. intros c. congruence.
    + split; [intros _|reflexivity]. exists file, a, b.
      repeat split; auto. intros c. congruence.
Qed.

(** X13: the reader throws exactly when the directory of the issue holds
    a file, named as a chunk whose window overlaps the requested range,
    that is no chunk record; files of other names and chunks outside the
    range are never read. *)
Theorem reader_throws_on_unreadable_chunk (fs : FS)
    (issueId issueName startDate endDate : string) :
  loadChunksInDateRange fs issueId issueName startDate endDate = None <->
  exists d file chunkStart chunkEnd content,
    fs !! getChunkDir issueId issueName = Some d
    /\ In file (readdir d)
    /\ matchChunkName file = Some (chunkStart, chunkEnd)
    /\ Js.ge chunkEnd startDate = true /\ Js.le chunkStart endDate = true
    /\ readFile file d = Some (Other content).
Proof.
  unfold loadChunksInDateRange.
  destruct (fs !! getChunkDir issueId issueName) as [d|].
  - rewrite loadFiles_throws. split.
    + intros (f & a & b & Hf & Hm & Ho & Hr).
      apply filter_In in Hf. destruct Hf as [Hf _].
      destruct (In_readFile f d Hf) as [[c|content] Hc]; [now destruct (Hr c)|].
      apply andb_true_iff in Ho. exists d, f, a, b, content. tauto.
    + intros (d' & f & a & b & content & [= <-] & Hf & Hm & Hge & Hle & Hr).
      exists f, a, b. split.
      { apply filter_In. split; [exact Hf|]. eapply matchChunkName_json; eauto. }
      split; [exact Hm|]. split; [unfold overlaps; now rewrite Hge, Hle|].
      intros c. congruence.
  - split; [discriminate|]. now intros (d & f & a & b & content & [=] & _).
Qed.

End ReaderInGeneral.

Section StoreRuns.
Import Date Planner Store StoreFacts Fetcher Reader Examples.

(** A run over a longer range, while the upstream is down, on the store
    that holds the chunk of the window from 2025-09-09 to 2025-09-16. *)
Definition afterLongerRun : FS :=
  saveChunk "2025-09-21T06:00:00.000Z" afterHealthyRun errorIssue "Payment Error"
    "2025-09-09" "2025-09-20" [].

Example run_over_a_longer_range :
  fetchMissingChunks parseTimestamp "xajeet" "2025-09-21T06:00:00.000Z" down 4
    afterHealthyRun errorIssue "Payment Error" "payment_error"
    (midnight 2025 9 9) (midnight 2025 9 20)
  = Some (afterLongerRun, [chunkUrl "xajeet" errorIssue "2025-09-09" "2025-09-20"]).
Proof. reflexivity. Qed.

Lemma existing_chunks_are_never_rewritten_witness :
  let dir := getChunkDir errorIssue "Payment Error" in
  fetchMissingChunks parseTimestamp "xajeet" "2025-09-21T06:00:00.000Z" down 4
    afterHealthyRun errorIssue "Payment Error" "payment_error"
    (midnight 2025 9 9) (midnight 2025 9 20)
  = Some (afterLongerRun, [chunkUrl "xajeet" errorIssue "2025-09-09" "2025-09-20"])
  /\ (forall d f p,
        afterHealthyRun !! dir = Some d ->
        In f (readdir d) -> matchChunkName f = Some p ->
        exists d', afterLongerRun !! dir = Some d'
                   /\ In f (readdir d')
                   /\ readFile f d' = readFile f d).
Proof.
  cbv zeta.
  assert (H : fetchMissingChunks parseTimestamp "xajeet" "2025-09-21T06:00:00.000Z"
                down 4 afterHealthyRun errorIssue "Payment Error" "payment_error"
                (midnight 2025 9 9) (midnight 2025 9 20)
              = Some (afterLongerRun,
                      [chunkUrl "xajeet" errorIssue "2025-09-09" "2025-09-20"]))
    by reflexivity.
  split; [exact H|].
  exact (existing_chunks_are_never_rewritten parseTimestamp "xajeet"
           "2025-09-21T06:00:00.000Z" down 4 afterHealthyRun afterLongerRun
           errorIssue "Payment Error" "payment_error"
           (midnight 2025 9 9) (midnight 2025 9 20)
           [chunkUrl "xajeet" errorIssue "2025-09-09" "2025-09-20"] H).
Defined.

Definition successIssue : string := "6722249177".

(** The run for the payment errors and the store of the payment
    successes, the two issues of the report. *)
Lemma fetching_one_issue_keeps_the_other_witness :
  plainName "Payment Error" = true /\ plainName "Payment Success" = true
  /\ loadExistingChunks afterHealthyRun successIssue "Payment Success" =
     loadExistingChunks ∅ successIssue "Payment Success"
  /\ loadChunksInDateRange afterHealthyRun successIssue "Payment Success"
       "2025-09-09" "2025-09-16" =
     loadChunksInDateRange ∅ successIssue "Payment Success" "2025-09-09" "2025-09-16".
Proof.
  split; [reflexivity|]. split; [reflexivity|].
  apply (fetching_one_issue_keeps_the_other parseTimestamp "xajeet"
           "2025-09-17T06:00:00.000Z" healthy 4 ∅ afterHealthyRun
           errorIssue "Payment Error" "payment_error"
           (midnight 2025 9 9) (midnight 2025 9 16) [firstPage; secondPage]
           successIssue "Payment Success");
    [reflexivity|reflexivity|discriminate|reflexivity|reflexivity|reflexivity].
Defined.

(** A directory with a damaged chunk file and a file of another name. *)
Definition damagedStore : FS :=
  <[getChunkDir errorIssue "Payment Error" :=
      [ ("2025-09-09_to_2025-09-15.json", Other "{");
        ("notes.json", Other "to do") ]]> ∅.

Example reading_past_a_damaged_chunk :
  loadChunksInDateRange damagedStore errorIssue "Payment Error"
    "2025-09-10" "2025-09-12" = None
  /\ loadChunksInDateRange damagedStore errorIssue "Payment Error"
       "2025-09-16" "2025-09-22" = Some [].
Proof. split; reflexivity. Qed.

End StoreRuns.

(* ===================================================================== *)
(** ** The data of the report *)
(* ===================================================================== *)

Module Report.

Section Percent.

(** The value of [parseFloat(((count / total) * 100).toFixed(2))], a
    floating point number, and the number [0]. *)
Variable Percent : Type.
Variable percentOf : nat -> nat -> Percent.
Variable zero : Percent.

(** A row with its percentage: [{ ...item, percentage }]. *)
Record WithPercentage (Row : Type) := mkWithPercentage {
  item : Row;
  percentage : Percent
}.

Record ErrorData := mkErrorData {
  totalEvents : nat;
  totalUsers : nat;
  chartReasons : list (WithPercentage ReasonRow);
  reasons : list (WithPercentage ReasonRow)
}.

Record SuccessData := mkSuccessData {
  s_totalEvents : nat;
  s_totalUsers : nat;
  merchants : list (WithPercentage Success.MerchantRow)
}.

(** [l.reduce((sum, item) => sum + f(item), 0)]. *)
Definition sumOf {A} (f : A -> nat) (l : list A) : nat :=
  fold_left (fun sum item => (sum + f item)%nat) l 0%nat.

(** [new Set(events.map(e => e.userId)).size]. *)
Definition usersIn (events : list MinimalEvent) : nat :=
  size (list_to_set (map userId events) : gset string).

Definition withPercentage {Row} (count : Row -> nat) (total : nat) (item : Row)
    : WithPercentage Row :=
  mkWithPercentage Row item
    (if (0 <? total)%nat then percentOf (count item) total else zero).

(** The part of [main] that prepares [errorData]. *)
Definition errorData (errorEvents : list MinimalEvent) (errorReasons : list ReasonRow)
    : ErrorData :=
  let totalErrorEvents := sumOf count errorReasons in
  let totalErrorUsers := usersIn errorEvents in
  let topErrorReasons := firstn 12 errorReasons in
  let otherErrorReasons := skipn 12 errorReasons in
  let chartErrorReasons :=
    map (withPercentage count totalErrorEvents) topErrorReasons in
  let chartErrorReasons :=
    if (0 <? List.length otherErrorReasons)%nat then
      let othersCount := sumOf count otherErrorReasons in
      chartErrorReasons ++
      [ withPercentage count totalErrorEvents
          (mkRow "Others" othersCount (sumOf uniqueUsers otherErrorReasons)) ]
    else chartErrorReasons in
  let allErrorReasons := map (withPercentage count totalErrorEvents) errorReasons in
  mkErrorData totalErrorEvents totalErrorUsers chartErrorReasons allErrorReasons.

(** The part of [main] that prepares [successData]. *)
Definition successData (successEvents : list MinimalEvent)
    (merchants : list Success.MerchantRow) : SuccessData :=
  let totalSuccessEvents := sumOf Success.count merchants in
  let totalSuccessUsers := usersIn successEvents in
  mkSuccessData totalSuccessEvents totalSuccessUsers
    (map (withPercentage Success.count totalSuccessEvents) merchants).

(** From the events loaded to the data of the report; [None] when an
    aggregator throws. *)
Definition reportData (errorEvents successEvents : list MinimalEvent)
    : option (ErrorData * SuccessData) :=
  match Aggregate.processPaymentErrors errorEvents with
  | None => None
  | Some errorReasons =>
      match Success.processPaymentSuccess successEvents with
      | None => None
      | Some merchants =>
          Some (errorData errorEvents errorReasons,
                successData successEvents merchants)
      end
  end.

End Percent.

Arguments item {Percent Row}.
Arguments percentage {Percent Row}.
Arguments totalEvents {Percent}.
Arguments totalUsers {Percent}.
Arguments chartReasons {Percent}.
Arguments reasons {Percent}.
Arguments s_totalEvents {Percent}.
Arguments s_totalUsers {Percent}.
Arguments merchants {Percent}.

End Report.

Section ReportFacts.
Import Aggregate.

Variable Percent : Type.
Variable percentOf : nat -> nat -> Percent.
Variable zero : Percent.

Lemma sumOf_list_sum {A} (f : A -> nat) l : Report.sumOf f l = list_sum (map f l).
Proof.
  unfold Report.sumOf.
  assert (H : forall acc, fold_left (fun sum item => (sum + f item)%nat) l acc
                          = (acc + list_sum (map f l))%nat).
  { induction l as [|x l IH]; intros acc; simpl; [lia|]. rewrite IH. lia. }
  now rewrite H.
Qed.

Lemma list_sum_app' l1 l2 : list_sum (l1 ++ l2) = (list_sum l1 + list_sum l2)%nat.
Proof. induction l1 as [|x l1 IH]; simpl; [reflexivity|]. rewrite IH. lia. Qed.

(** A sum over the rows of the chart is the sum over all the rows. *)
Lemma chart_sum (f : ReasonRow -> nat) (events : list MinimalEvent) rows :
  f = count \/ f = uniqueUsers ->
  list_sum (map (fun r => f (Report.item r))
              (Report.chartReasons (Report.errorData Percent percentOf zero events rows)))
  = list_sum (map f rows).
Proof.
  intros Hf. unfold Report.errorData. cbn [Report.chartReasons].
  transitivity (list_sum (map f (firstn 12 rows ++ skipn 12 rows)));
    [|now rewrite firstn_skipn].
  rewrite (map_app f), list_sum_app'.
  destruct (skipn 12 rows) as [|r other] eqn:E.
  - cbn [List.length Nat.ltb Nat.leb]. rewrite map_map.
    cbn [map Report.withPercentage Report.item].
    change (list_sum (map f [])) with 0%nat. now rewrite Nat.add_0_r.
  - cbn [List.length Nat.ltb Nat.leb]. rewrite map_app, list_sum_app', map_map.
    cbn [map Report.withPercentage Report.item].
    rewrite !sumOf_list_sum. f_equal.
    destruct Hf as [-> | ->]; cbn [map]; rewrite !sum_cons; simpl; lia.
Qed.

Lemma length_flat_map {A B} (f : A -> list B) l :
  List.length (flat_map f l) = list_sum (map (fun x => List.length (f x)) l).
Proof.
  induction l as [|x l IH]; simpl; [reflexivity|]. now rewrite length_app, IH.
Qed.

(** The distinct users of all events are no more than the distinct users
    of the groups, added up. *)
Lemma users_bound (key : MinimalEvent -> string) (events : list MinimalEvent) ks :
  (forall event, In event events -> In (key event) ks) ->
  (List.length (remove_dups (map userId events))
   <= list_sum (map (fun k => List.length (remove_dups (map userId (groupOf key k events))))
                 ks))%nat.
Proof.
  intros Hks. rewrite <- (length_flat_map
    (fun k => remove_dups (map userId (groupOf key k events)))).
  apply List.NoDup_incl_length.
  - apply NoDup_ListNoDup, NoDup_remove_dups.
  - intros u Hu. apply (proj2 (list_elem_of_In _ _)) in Hu.
    apply (proj1 (elem_of_remove_dups _ _)) in Hu.
    apply (proj1 (list_elem_of_In _ _)) in Hu.
    apply in_map_iff in Hu. destruct Hu as (event & <- & Hev).
    apply in_flat_map. exists (key event). split; [now apply Hks|].
    apply (proj1 (list_elem_of_In _ _)), (proj2 (elem_of_remove_dups _ _)),
      (proj2 (list_elem_of_In _ _)), in_map.
    unfold groupOf. apply filter_In. split; [exact Hev|apply String.eqb_refl].
Qed.

End ReportFacts.

Section ReportClaims.
Import Aggregate.

Variable Percent : Type.
Variable percentOf : nat -> nat -> Percent.
Variable zero : Percent.

Lemma sorted_app_order {A} (R : A -> A -> Prop) l1 : forall l2 x y,
  StronglySorted R (l1 ++ l2) -> In x l1 -> In y l2 -> R x y.
Proof.
  induction l1 as [|a l1 IH]; intros l2 x y Hs Hx Hy; [destruct Hx|].
  simpl in Hs. inversion Hs as [|? ? Hs' Hall]; subst.
  destruct Hx as [->|Hx]; [|eauto].
  rewrite List.Forall_forall in Hall. apply Hall, in_or_app. now right.
Qed.

Lemma error_rows_sorted events rows :
  processPaymentErrors events = Some rows -> StronglySorted descending rows.
Proof.
  rewrite processPaymentErrors_rowsBy. intros H.
  apply rowsBy_rows in H. subst rows. apply sortBy_sorted.
Qed.

Lemma error_rows_total events rows :
  processPaymentErrors events = Some rows ->
  list_sum (map count rows) = List.length events.
Proof.
  rewrite processPaymentErrors_rowsBy.
  apply (rowsBy_total reasonOf ReasonRow mkRow count); auto.
Qed.

(** X14: the chart of the report has the first twelve rows of the
    aggregator, which are twelve rows of the highest counts, and, when
    there are more rows, a thirteenth named "Others" with the sums of the
    counts and of the user counts of the rest; the counts of the chart
    add up to the number of events. *)
Theorem chart_counts_every_event (events : list MinimalEvent) (rows : list ReasonRow) :
  processPaymentErrors events = Some rows ->
  let chart :=
    Report.chartReasons (Report.errorData Percent percentOf zero events rows) in
  List.length chart =
    (Nat.min 12 (List.length rows) + if (12 <? List.length rows)%nat then 1 else 0)%nat
  /\ map Report.item (firstn 12 chart) = firstn 12 rows
  /\ (forall other, nth_error chart 12 = Some other ->
        reason (Report.item other) = "Others"
        /\ count (Report.item other) = list_sum (map count (skipn 12 rows))
        /\ uniqueUsers (Report.item other) = list_sum (map uniqueUsers (skipn 12 rows)))
  /\ list_sum (map (fun r => count (Report.item r)) chart) = List.length events
  /\ (forall top r, In top (firstn 12 rows) -> In r (skipn 12 rows) ->
        (count r <= count top)%nat).
Proof.
  intros H chart.
  assert (Hsum : list_sum (map (fun r => count (Report.item r)) chart) = List.length events).
  { subst chart. rewrite (chart_sum Percent percentOf zero count) by now left.
    now apply error_rows_total. }
  assert (Hord : forall top r, In top (firstn 12 rows) -> In r (skipn 12 rows) ->
            (count r <= count top)%nat).
  { intros top r Ht Hr. apply error_rows_sorted in H.
    rewrite <- (firstn_skipn 12 rows) in H.
    exact (sorted_app_order descending _ _ _ _ H Ht Hr). }
  subst chart. unfold Report.errorData in *. cbn [Report.chartReasons] in *.
  pose proof (List.length_firstn 12 rows) as Hlen1.
  pose proof (List.length_skipn 12 rows) as Hlen2.
  set (wp := Report.withPercentage Percent percentOf zero count
               (Report.sumOf count rows)) in *.
  assert (Hitem : forall l, map Report.item (map wp l) = l).
  { intros l. rewrite map_map. apply map_id. }
  destruct (Nat.ltb_spec 0 (List.length (skipn 12 rows))) as [Hmore|Hnone].
  - replace (12 <? List.length rows)%nat with true by (symmetry; apply Nat.ltb_lt; lia).
    repeat split; try assumption.
    + rewrite length_app, length_map. cbn [List.length]. lia.
    + rewrite List.firstn_app, length_map.
      replace (12 - List.length (firstn 12 rows))%nat with 0%nat by lia.
      rewrite List.firstn_O, app_nil_r, List.firstn_all2 by (rewrite length_map; lia).
      apply Hitem.
    + rewrite nth_error_app2 in H0 by (rewrite length_map; lia).
      rewrite length_map in H0.
      replace (12 - List.length (firstn 12 rows))%nat with 0%nat in H0 by lia.
      injection H0 as <-. reflexivity.
    + rewrite nth_error_app2 in H0 by (rewrite length_map; lia).
      rewrite length_map in H0.
      replace (12 - List.length (firstn 12 rows))%nat with 0%nat in H0 by lia.
      injection H0 as <-. simpl. apply sumOf_list_sum.
    + rewrite nth_error_app2 in H0 by (rewrite length_map; lia).
      rewrite length_map in H0.
      replace (12 - List.length (firstn 12 rows))%nat with 0%nat in H0 by lia.
      injection H0 as <-. simpl. apply sumOf_list_sum.
  - replace (12 <? List.length rows)%nat with false by (symmetry; apply Nat.ltb_ge; lia).
    assert (Hnth : forall other, nth_error (map wp (firstn 12 rows)) 12 = Some other -> False).
    { intros other Ho.
      assert (Hlt : (12 < List.length (map wp (firstn 12 rows)))%nat)
        by (apply nth_error_Some; congruence).
      rewrite length_map in Hlt. lia. }
    repeat split; try assumption; try (exfalso; eapply Hnth; eassumption).
    + rewrite length_map. lia.
    + rewrite List.firstn_all2 by (rewrite length_map; lia). apply Hitem.
Qed.

(** X15: the total of users counts each user once; the user counts of
    the rows count a user once for each reason, so that they add up to
    the total or more, in the table and in the chart, and each of them
    is the total at most. *)
Theorem users_are_counted_once_for_each_reason
    (events : list MinimalEvent) (rows : list ReasonRow) :
  processPaymentErrors events = Some rows ->
  let data := Report.errorData Percent percentOf zero events rows in
  Report.totalUsers data = List.length (remove_dups (map userId events))
  /\ (Report.totalUsers data <= list_sum (map uniqueUsers rows))%nat
  /\ (Report.totalUsers data
      <= list_sum (map (fun r => uniqueUsers (Report.item r)) (Report.chartReasons data)))%nat
  /\ Forall (fun r => (uniqueUsers r <= Report.totalUsers data)%nat) rows.
Proof.
  intros H data.
  assert (Htotal : Report.totalUsers data = List.length (remove_dups (map userId events))).
  { subst data. unfold Report.errorData. cbn [Report.totalUsers].
    apply size_distinct. }
  assert (Hrows : (Report.totalUsers data <= list_sum (map uniqueUsers rows))%nat).
  { rewrite Htotal. clear Htotal data. rewrite processPaymentErrors_rowsBy in H.
    apply rowsBy_rows in H. subst rows.
    rewrite (Permutation_list_sum
               (Permutation_map uniqueUsers (sortBy_perm ReasonRow count _))).
    rewrite map_map. unfold groupRow. cbn [uniqueUsers].
    rewrite (Permutation_list_sum
               (Permutation_map _ (entryOrder_perm (firstSeen (map reasonOf events))))).
    apply users_bound. intros e He. apply In_firstSeen, in_map, He. }
  split; [exact Htotal|]. split; [exact Hrows|]. split.
  - subst data. rewrite (chart_sum Percent percentOf zero uniqueUsers) by now right.
    exact Hrows.
  - rewrite Htotal. rewrite processPaymentErrors_rowsBy in H.
    pose proof (rowsBy_each reasonOf ReasonRow mkRow reason count uniqueUsers
                  ltac:(auto) ltac:(auto) ltac:(auto) _ _ H) as Heach.
    eapply List.Forall_impl; [|exact Heach]. intros r [_ ->].
    apply List.NoDup_incl_length.
    + apply NoDup_ListNoDup, NoDup_remove_dups.
    + intros u Hu. apply (proj2 (list_elem_of_In _ _)) in Hu.
      apply (proj1 (elem_of_remove_dups _ _)) in Hu.
      apply (proj1 (list_elem_of_In _ _)) in Hu.
      apply (proj1 (list_elem_of_In _ _)), (proj2 (elem_of_remove_dups _ _)),
        (proj2 (list_elem_of_In _ _)).
      apply in_map_iff in Hu. destruct Hu as (e & <- & He).
      apply in_map. unfold groupOf in He. now apply filter_In in He.
Qed.

(** X16: the totals of the report are the numbers of the events loaded,
    whenever the two aggregators return; and the table of the report
    holds the rows of the aggregator, in their order. *)
Theorem report_totals_are_the_events_loaded
    (errorEvents successEvents : list MinimalEvent)
    (errors : Report.ErrorData Percent) (successes : Report.SuccessData Percent) :
  Report.reportData Percent percentOf zero errorEvents successEvents
    = Some (errors, successes) ->
  Report.totalEvents errors = List.length errorEvents
  /\ Report.s_totalEvents successes = List.length successEvents
  /\ processPaymentErrors errorEvents = Some (map Report.item (Report.reasons errors))
  /\ Success.processPaymentSuccess successEvents
     = Some (map Report.item (Report.merchants successes)).
Proof.
  unfold Report.reportData. intros H.
  destruct (processPaymentErrors errorEvents) as [rows|] eqn:E1; [|discriminate H].
  destruct (Success.processPaymentSuccess successEvents) as [ms|] eqn:E2; [|discriminate H].
  injection H as <- <-. unfold Report.errorData, Report.successData.
  cbn [Report.totalEvents Report.s_totalEvents Report.reasons Report.merchants].
  rewrite !sumOf_list_sum, !map_map. cbn [Report.withPercentage Report.item].
  rewrite !map_id. repeat split.
  - now apply error_rows_total.
  - rewrite processPaymentSuccess_rowsBy in E2.
    apply (rowsBy_total Success.merchantOf Success.MerchantRow Success.mkMerchantRow
             Success.count) in E2; auto.
Qed.

End ReportClaims.

Section ReportRuns.
Import Aggregate.

(** Sixteen failed payments with fourteen reasons. *)
Definition manyReasons : list MinimalEvent :=
  map (fun k => failedPayment k "u1")
      [ "R01"; "R02"; "R03"; "R04"; "R05"; "R06"; "R07"; "R08"; "R09"; "R10";
        "R11"; "R12"; "R13"; "R14" ]
  ++ [ failedPayment "R14" "u2"; failedPayment "R13" "u1" ].

Definition manyRows : list ReasonRow :=
  [ mkRow "R13" 2 1; mkRow "R14" 2 2; mkRow "R01" 1 1; mkRow "R02" 1 1;
    mkRow "R03" 1 1; mkRow "R04" 1 1; mkRow "R05" 1 1; mkRow "R06" 1 1;
    mkRow "R07" 1 1; mkRow "R08" 1 1; mkRow "R09" 1 1; mkRow "R10" 1 1;
    mkRow "R11" 1 1; mkRow "R12" 1 1 ].

Example aggregate_of_many_reasons : processPaymentErrors manyReasons = Some manyRows.
Proof. reflexivity. Qed.

(** A percentage kept as the two numbers it is computed from. *)
Definition asRatio (count total : nat) : nat * nat := (count, total).

(** The chart of the fourteen reasons: two users in all, fifteen in the
    user counts of the chart. *)
Example chart_of_many_reasons :
  let data := Report.errorData (nat * nat) asRatio (0, 1)%nat manyReasons manyRows in
  map Report.item (Report.chartReasons data) =
    firstn 12 manyRows ++ [mkRow "Others" 2 2]
  /\ Report.totalEvents data = 16%nat
  /\ Report.totalUsers data = 2%nat
  /\ list_sum (map (fun r => uniqueUsers (Report.item r)) (Report.chartReasons data))
     = 15%nat.
Proof. cbv zeta. repeat split; reflexivity. Qed.

Lemma chart_counts_every_event_witness :
  processPaymentErrors manyReasons = Some manyRows
  /\ let chart :=
       Report.chartReasons
         (Report.errorData (nat * nat) asRatio (0, 1)%nat manyReasons manyRows) in
     List.length chart =
       (Nat.min 12 (List.length manyRows)
        + if (12 <? List.length manyRows)%nat then 1 else 0)%nat
     /\ map Report.item (firstn 12 chart) = firstn 12 manyRows
     /\ (forall other, nth_error chart 12 = Some other ->
           reason (Report.item other) = "Others"
           /\ count (Report.item other) = list_sum (map count (skipn 12 manyRows))
           /\ uniqueUsers (Report.item other)
              = list_sum (map uniqueUsers (skipn 12 manyRows)))
     /\ list_sum (map (fun r => count (Report.item r)) chart) = List.length manyReasons
     /\ (forall top r, In top (firstn 12 manyRows) -> In r (skipn 12 manyRows) ->
           (count r <= count top)%nat).
Proof.
  assert (H : processPaymentErrors manyReasons = Some manyRows) by reflexivity.
  split; [exact H|].
  exact (chart_counts_every_event (nat * nat) asRatio (0, 1)%nat manyReasons manyRows H).
Defined.

Lemma users_are_counted_once_for_each_reason_witness :
  processPaymentErrors manyReasons = Some manyRows
  /\ let data := Report.errorData (nat * nat) asRatio (0, 1)%nat manyReasons manyRows in
     Report.totalUsers data = List.length (remove_dups (map userId manyReasons))
     /\ (Report.totalUsers data <= list_sum (map uniqueUsers manyRows))%nat
     /\ (Report.totalUsers data
         <= list_sum (map (fun r => uniqueUsers (Report.item r))
                        (Report.chartReasons data)))%nat
     /\ Forall (fun r => (uniqueUsers r <= Report.totalUsers data)%nat) manyRows.
Proof.
  assert (H : processPaymentErrors manyReasons = Some manyRows) by reflexivity.
  split; [exact H|].
  exact (users_are_counted_once_for_each_reason (nat * nat) asRatio (0, 1)%nat
           manyReasons manyRows H).
Defined.

Lemma report_totals_are_the_events_loaded_witness :
  let errors := Report.errorData (nat * nat) asRatio (0, 1)%nat manyReasons manyRows in
  let successes := Report.successData (nat * nat) asRatio (0, 1)%nat paidEvents paidRows in
  Report.reportData (nat * nat) asRatio (0, 1)%nat manyReasons paidEvents
    = Some (errors, successes)
  /\ Report.totalEvents errors = List.length manyReasons
  /\ Report.s_totalEvents successes = List.length paidEvents
  /\ processPaymentErrors manyReasons = Some (map Report.item (Report.reasons errors))
  /\ Success.processPaymentSuccess paidEvents
     = Some (map Report.item (Report.merchants successes)).
Proof.
  cbv zeta.
  assert (H : Report.reportData (nat * nat) asRatio (0, 1)%nat manyReasons paidEvents
              = Some (Report.errorData (nat * nat) asRatio (0, 1)%nat manyReasons manyRows,
                      Report.successData (nat * nat) asRatio (0, 1)%nat paidEvents paidRows))
    by reflexivity.
  split; [exact H|].
  exact (report_totals_are_the_events_loaded (nat * nat) asRatio (0, 1)%nat
           manyReasons paidEvents _ _ H).
Defined.

End ReportRuns.

(* ===================================================================== *)
(** ** The fields of the minimal event record *)
(* ===================================================================== *)

Section ExtractInGeneral.
Import Extract.

Definition hasKey (k : string) (tag : Tag) : bool := String.eqb (tag_key tag) k.

(** The first and the last tag of a key. *)
Definition firstTag (k : string) (tags : list Tag) : option Tag :=
  find (hasKey k) tags.

Definition lastTag (k : string) (tags : list Tag) : option Tag :=
  find (hasKey k) (rev tags).

Lemma find_snoc {A} (p : A -> bool) l x :
  find p (l ++ [x]) =
  match find p l with Some y => Some y | None => if p x then Some x else None end.
Proof.
  induction l as [|a l IH]; simpl; [reflexivity|]. destruct (p a); [reflexivity|exact IH].
Qed.

Lemma lastTag_cons k tag tags :
  lastTag k (tag :: tags) =
  match lastTag k tags with
  | Some t => Some t
  | None => if hasKey k tag then Some tag else None
  end.
Proof. unfold lastTag. simpl. apply find_snoc. Qed.

(** The tag loop of a payment error leaves in each field the value of
    the last tag of its key. *)
Lemma errorTags_fields tags : forall m,
  let m' := errorTags tags m in
  timestamp m' = timestamp m /\ eventId m' = eventId m
  /\ paymentErrorReason m' =
     match lastTag "paymentErrorReason" tags with
     | Some t => Some (Js.orDefault (tag_value t) "Unknown")
     | None => paymentErrorReason m
     end
  /\ merchant_id m' =
     match lastTag "merchant_id" tags with
     | Some t => tag_value t | None => merchant_id m end
  /\ customerId m' =
     match lastTag "customerId" tags with
     | Some t => tag_value t | None => customerId m end
  /\ storeState m' =
     match lastTag "storeState" tags with
     | Some t => tag_value t | None => storeState m end
  /\ storeId m' =
     match lastTag "storeId" tags with
     | Some t => tag_value t | None => storeId m end.
Proof.
  induction tags as [|[k v] tags IH]; intros m; [cbv zeta; simpl; tauto|].
  cbv zeta. cbn [errorTags tag_key tag_value].
  rewrite !lastTag_cons. unfold hasKey. cbn [tag_key tag_value].
  match goal with |- context [errorTags tags ?x] => specialize (IH x) end.
  cbv zeta in IH. destruct IH as (-> & -> & -> & -> & -> & -> & ->).
  destruct (lastTag "paymentErrorReason" tags), (lastTag "merchant_id" tags),
           (lastTag "customerId" tags), (lastTag "storeState" tags),
           (lastTag "storeId" tags);
    destruct (String.eqb_spec k "paymentErrorReason") as [->|];
    try (cbn; tauto);
    destruct (String.eqb_spec k "merchant_id") as [->|];
    try (cbn; tauto);
    destruct (String.eqb_spec k "customerId") as [->|];
    try (cbn; tauto);
    destruct (String.eqb_spec k "storeState") as [->|];
    try (cbn; tauto);
    destruct (String.eqb_spec k "storeId") as [->|];
    cbn; tauto.
Qed.

(** The tag loop of a payment success reads the first [merchant_id] tag
    and nothing else. *)
Lemma successTags_first tags m :
  successTags tags m =
  match firstTag "merchant_id" tags with
  | Some t => setMerchant (Some (Js.orDefault (tag_value t) "Unknown")) m
  | None => m
  end.
Proof.
  unfold firstTag, hasKey. induction tags as [|t tags IH]; simpl; [reflexivity|].
  destruct (String.eqb (tag_key t) "merchant_id"); [reflexivity|exact IH].
Qed.

(** X17: the record made from an upstream event has, as its timestamp,
    the creation date of the event, or else the date of its receipt, or
    else the clock; for a payment error each of the five tag fields has
    the value of the last tag of its key, "Unknown" standing for an empty
    reason; for a payment success the merchant is the value of the first
    [merchant_id] tag, "Unknown" standing for an empty one, and no other
    tag is read; for any other issue type no tag is read. *)
Theorem extracted_fields (now : string) (event : RawEvent) (issueType : string) :
  let tags := default [] (ev_tags event) in
  let m := extractMinimalEventData now event issueType in
  timestamp m =
    (if Js.truthy (ev_dateCreated event) then default "" (ev_dateCreated event)
     else if Js.truthy (ev_dateReceived event) then default "" (ev_dateReceived event)
     else now)
  /\ eventId m = Js.or (ev_id event) (ev_eventID event)
  /\ (issueType = "payment_error" ->
        paymentErrorReason m =
          option_map (fun t => Js.orDefault (tag_value t) "Unknown")
            (lastTag "paymentErrorReason" tags)
        /\ merchant_id m = lastTag "merchant_id" tags ≫= tag_value
        /\ customerId m = lastTag "customerId" tags ≫= tag_value
        /\ storeState m = lastTag "storeState" tags ≫= tag_value
        /\ storeId m = lastTag "storeId" tags ≫= tag_value)
  /\ (issueType = "payment_success" ->
        merchant_id m =
          option_map (fun t => Js.orDefault (tag_value t) "Unknown")
            (firstTag "merchant_id" tags)
        /\ paymentErrorReason m = None /\ customerId m = None
        /\ storeState m = None /\ storeId m = None)
  /\ (issueType <> "payment_error" -> issueType <> "payment_success" ->
        paymentErrorReason m = None /\ merchant_id m = None /\ customerId m = None
        /\ storeState m = None /\ storeId m = None).
Proof.
  cbv zeta. unfold extractMinimalEventData.
  set (base := mkMinimalEvent _ _ _ None None None None None).
  set (tags := match ev_tags event with Some l => l | None => [] end).
  change (default [] (ev_tags event)) with tags.
  assert (Hts : timestamp base =
                (if Js.truthy (ev_dateCreated event) then default "" (ev_dateCreated event)
                 else if Js.truthy (ev_dateReceived event)
                      then default "" (ev_dateReceived event)
                      else now)).
  { subst base. cbn [timestamp]. unfold Js.or, Js.orDefault, Js.truthy.
    destruct (ev_dateCreated event) as [[|c s]|], (ev_dateReceived event) as [[|c' s']|];
      reflexivity. }
  assert (Hid : eventId base = Js.or (ev_id event) (ev_eventID event)) by reflexivity.
  pose proof (errorTags_fields tags base) as He. cbv zeta in He.
  pose proof (successTags_first tags base) as Hs.
  destruct (String.eqb_spec issueType "payment_error") as [->|Hne1].
  - destruct He as (-> & -> & -> & -> & -> & -> & ->).
    split; [exact Hts|]. split; [exact Hid|]. split; [|split; [discriminate|congruence]].
    intros _.
    destruct (lastTag "paymentErrorReason" tags), (lastTag "merchant_id" tags),
             (lastTag "customerId" tags), (lastTag "storeState" tags),
             (lastTag "storeId" tags); cbn; tauto.
  - destruct (String.eqb_spec issueType "payment_success") as [->|Hne2].
    + rewrite Hs.
      destruct (firstTag "merchant_id" tags); cbn;
        (split; [exact Hts|]); (split; [exact Hid|]);
        (split; [discriminate|]); (split; [|congruence]); intros _; tauto.
    + split; [exact Hts|]. split; [exact Hid|].
      split; [congruence|]. split; [congruence|]. intros _ _. cbn. tauto.
Qed.

(** An event with two reasons and two merchants, as a payment error and
    as a payment success. *)
Definition taggedTwice : RawEvent :=
  mkRawEvent (Some "e7") None None (Some "2025-09-10T08:15:00Z") None
    (Some [ mkTag "paymentErrorReason" (Some "Do Not Honor");
            mkTag "merchant_id" (Some "702");
            mkTag "paymentErrorReason" (Some "");
            mkTag "merchant_id" (Some "15") ]).

Example the_last_tag_and_the_first :
  extractMinimalEventData "2025-09-17T06:00:00.000Z" taggedTwice "payment_error"
  = mkMinimalEvent "2025-09-10T08:15:00Z" (Some "e7") "anonymous"
      (Some "Unknown") (Some "15") None None None
  /\ extractMinimalEventData "2025-09-17T06:00:00.000Z" taggedTwice "payment_success"
     = mkMinimalEvent "2025-09-10T08:15:00Z" (Some "e7") "anonymous"
         None (Some "702") None None None.
Proof. split; reflexivity. Qed.

End ExtractInGeneral.

(* ===================================================================== *)
(** ** The chunks a run writes *)
(* ===================================================================== *)

Section WrittenChunks.
Import Date Planner Store StoreFacts Fetcher.

Variable Date_parse : string -> option Date.t.
Variable ORGANIZATION_SLUG : string.
Variable now : string.
Variable upstream : string -> Response.

(** A chunk record that tells its own issue, window and size, under the
    file name of its window in the directory of its issue, as written at
    the time [now]. *)
Definition describesItself (dir name : string) (c : ChunkData) : Prop :=
  dir = getChunkDir (issueId c) (issueName c)
  /\ name = chunkName (dateRangeStart c) (dateRangeEnd c)
  /\ totalEvents c = List.length (events c)
  /\ fetchDate c = now.

Lemma saveChunk_describes fs id name startDate endDate evs dir file c :
  chunkFile (saveChunk now fs id name startDate endDate evs) dir file c ->
  chunkFile fs dir file c
  \/ (describesItself dir file c /\ issueId c = id /\ issueName c = name
      /\ dateRangeStart c = startDate /\ dateRangeEnd c = endDate /\ events c = evs).
Proof.
  intros (d & Hd & Hread).
  destruct (String.eqb_spec dir (getChunkDir id name)) as [->|Hne].
  - rewrite saveChunk_lookup in Hd. injection Hd as <-.
    destruct (String.eqb_spec file (chunkName startDate endDate)) as [->|Hn].
    + rewrite readFile_writeFile in Hread. injection Hread as <-. right.
      unfold describesItself. simpl. tauto.
    + rewrite readFile_writeFile_other in Hread by assumption. left.
      destruct (fs !! getChunkDir id name) as [d0|] eqn:E; [|discriminate Hread].
      now exists d0.
  - rewrite saveChunk_lookup_other in Hd by assumption. left. now exists d.
Qed.

Lemma fetchEach_describes fuel id name issueType missing :
  forall fs calls fs' calls',
  fetchEach Date_parse ORGANIZATION_SLUG now upstream fuel fs
    id name issueType missing calls = Some (fs', calls') ->
  forall dir file c,
    chunkFile fs' dir file c ->
    chunkFile fs dir file c
    \/ (describesItself dir file c /\ issueId c = id /\ issueName c = name
        /\ In (mkRange (dateRangeStart c) (dateRangeEnd c)) missing).
Proof.
  induction missing as [|[s e] rest IH]; intros fs calls fs' calls' H dir file c Hc;
    simpl in H.
  - injection H as <- _. now left.
  - destruct (fetchDateRangeChunk _ _ _ _ _ _ _ _ _ _) as [[evs made]|];
      [|discriminate H].
    destruct (IH _ _ _ _ H dir file c Hc) as [Hold|(Hd & Hi & Hn & Hin)].
    + cbn [r_start r_end] in Hold.
      destruct (0 <? List.length evs)%nat;
        apply saveChunk_describes in Hold;
        (destruct Hold as [Hold|(Hd & Hi & Hn & Hs & He & _)]; [now left|]);
        right; (split; [exact Hd|]); (split; [exact Hi|]); (split; [exact Hn|]);
        left; congruence.
    + right. split; [exact Hd|]. split; [exact Hi|]. split; [exact Hn|]. now right.
Qed.

(** X18: every chunk that a run of the fetch-and-cache flow writes
    records the issue of the run, the number of its events and the clock
    of the run, and the window it records is the one in its file name, a
    planned window of the run that was not on disk. *)
Theorem written_chunks_describe_themselves
    (fuel : nat) (fs fs' : FS) (id name issueType : string)
    (startDate endDate : Date.t) (calls : list string) :
  fetchMissingChunks Date_parse ORGANIZATION_SLUG now upstream fuel fs
    id name issueType startDate endDate = Some (fs', calls) ->
  forall dir file c,
    chunkFile fs' dir file c ->
    chunkFile fs dir file c
    \/ (describesItself dir file c /\ issueId c = id /\ issueName c = name
        /\ exists allRanges,
             getDateRanges fuel startDate endDate CHUNK_DAYS = Some allRanges
             /\ In (mkRange (dateRangeStart c) (dateRangeEnd c)) allRanges
             /\ ~ onDisk (loadExistingChunks fs id name)
                    (mkRange (dateRangeStart c) (dateRangeEnd c))).
Proof.
  unfold fetchMissingChunks. intros H dir file c Hc.
  destruct (getDateRanges fuel startDate endDate CHUNK_DAYS) as [allRanges|] eqn:E;
    [|discriminate H].
  destruct (List.length _ =? 0)%nat.
  - injection H as <- _. now left.
  - destruct (fetchEach_describes _ _ _ _ _ _ _ _ _ H dir file c Hc)
      as [Hold|(Hd & Hi & Hn & Hin)]; [now left|].
    right. split; [exact Hd|]. split; [exact Hi|]. split; [exact Hn|].
    exists allRanges. split; [reflexivity|]. now apply missingRanges_In in Hin.
Qed.

(** The search URL of a window of two date-shaped strings. *)
Lemma encodeURIComponent_app a : forall b,
  encodeURIComponent (a +:+ b) = encodeURIComponent a +:+ encodeURIComponent b.
Proof.
  induction a as [|c a IH]; intros b; simpl; [reflexivity|].
  rewrite IH. now destruct (unreserved c).
Qed.

Lemma dateChar_unreserved c : dateChar c = true -> unreserved c = true.
Proof.
  unfold dateChar, unreserved, Js.isDigit. intros H.
  apply orb_true_iff in H. destruct H as [H|H].
  - rewrite H. reflexivity.
  - apply Ascii.eqb_eq in H. subst c. reflexivity.
Qed.

Lemma encodeURIComponent_date s :
  dateChars s = true -> encodeURIComponent s = s.
Proof.
  induction s as [|c s IH]; simpl; [reflexivity|]. intros H.
  apply andb_true_iff in H. destruct H as [Hc Hs].
  now rewrite (dateChar_unreserved c Hc), IH.
Qed.

(** X19: for a window of two date-shaped strings the fetch asks the
    event search of the issue for the time from the first instant of the
    start date to the last second of the end date, the colons
    percent-encoded. *)
Theorem search_url_of_a_window (id startDate endDate : string) :
  isDateStr startDate = true -> isDateStr endDate = true ->
  chunkUrl ORGANIZATION_SLUG id startDate endDate =
  "https://sentry.io/api/0/organizations/" +:+ ORGANIZATION_SLUG
  +:+ "/issues/" +:+ id +:+ "/events/?full=true&start="
  +:+ startDate +:+ "T00%3A00%3A00Z&end=" +:+ endDate +:+ "T23%3A59%3A59Z".
Proof.
  intros Hs He. apply isDateStr_chars in Hs, He. unfold chunkUrl.
  rewrite !encodeURIComponent_app.
  rewrite (encodeURIComponent_date startDate Hs), (encodeURIComponent_date endDate He).
  rewrite !string_app_assoc. reflexivity.
Qed.

End WrittenChunks.

Section WrittenChunksRun.
Import Date Planner Store StoreFacts Fetcher Examples.

Lemma written_chunks_describe_themselves_witness :
  fetchMissingChunks parseTimestamp "xajeet" "2025-09-17T06:00:00.000Z" healthy
    4 ∅ errorIssue "Payment Error" "payment_error"
    (midnight 2025 9 9) (midnight 2025 9 16)
  = Some (afterHealthyRun, [firstPage; secondPage])
  /\ forall dir file c,
       chunkFile afterHealthyRun dir file c ->
       chunkFile ∅ dir file c
       \/ (describesItself "2025-09-17T06:00:00.000Z" dir file c
           /\ issueId c = errorIssue /\ issueName c = "Payment Error"
           /\ exists allRanges,
                getDateRanges 4 (midnight 2025 9 9) (midnight 2025 9 16) CHUNK_DAYS
                  = Some allRanges
                /\ In (mkRange (dateRangeStart c) (dateRangeEnd c)) allRanges
                /\ ~ onDisk (loadExistingChunks ∅ errorIssue "Payment Error")
                       (mkRange (dateRangeStart c) (dateRangeEnd c))).
Proof.
  assert (H : fetchMissingChunks parseTimestamp "xajeet" "2025-09-17T06:00:00.000Z"
                healthy 4 ∅ errorIssue "Payment Error" "payment_error"
                (midnight 2025 9 9) (midnight 2025 9 16)
              = Some (afterHealthyRun, [firstPage; secondPage]))
    by reflexivity.
  split; [exact H|].
  exact (written_chunks_describe_themselves parseTimestamp "xajeet"
           "2025-09-17T06:00:00.000Z" healthy 4 ∅ afterHealthyRun
           errorIssue "Payment Error" "payment_error"
           (midnight 2025 9 9) (midnight 2025 9 16) [firstPage; secondPage] H).
Defined.

Lemma search_url_of_a_window_witness :
  chunkUrl "xajeet" errorIssue "2025-09-09" "2025-09-16" = firstPage.
Proof.
  exact (search_url_of_a_window "xajeet" errorIssue "2025-09-09" "2025-09-16"
           eq_refl eq_refl).
Defined.

End WrittenChunksRun.

(* ===================================================================== *)
(** ** Plans from different start days *)
(* ===================================================================== *)

Section PlansOfOtherDays.
Import Date Planner Store StoreFacts Fetcher DateFacts PlannerFacts.

(** The plan of a range of days, whatever the number of iterations that
    was enough for it. *)
Lemma plan_of_days fuel s e d plan :
  0 < d ->
  getDateRanges fuel (midnightOf s) (midnightOf e) d = Some plan ->
  plan = map formatWindow (map (clippedWindow s e d) (seq 0 (windowCount s e d))).
Proof.
  intros Hd H. unfold getDateRanges in H. rewrite getDateRangesFrom_windows in H.
  destruct (windowsFrom fuel _ _ _) as [ws|] eqn:E; [|discriminate H].
  injection H as <-. f_equal.
  set (n := Nat.max fuel (S (Z.to_nat (e - s)))).
  apply (windowsFrom_fuel fuel n) in E; [|lia].
  pose proof (windowsFrom_clipped (Z.to_nat (e - s)) s e d Hd ltac:(lia)) as C.
  apply (windowsFrom_fuel _ n) in C; [|lia]. congruence.
Qed.

Lemma windowCount_bound s e d i :
  0 < d -> (i < windowCount s e d)%nat -> s + Z.of_nat i * d < e.
Proof.
  unfold windowCount. intros Hd Hi.
  assert (H : Z.of_nat i + 1 <= (e - s + d - 1) / d) by lia.
  pose proof (Z.mul_div_le (e - s + d - 1) d Hd). nia.
Qed.

Lemma planned_start fuel s e d plan r :
  0 < d ->
  getDateRanges fuel (midnightOf s) (midnightOf e) d = Some plan ->
  In r plan ->
  exists i : nat, s + Z.of_nat i * d < e
                  /\ r_start r = formatDate (midnightOf (s + Z.of_nat i * d)).
Proof.
  intros Hd H Hr. rewrite (plan_of_days _ _ _ _ _ Hd H), map_map in Hr.
  apply in_map_iff in Hr. destruct Hr as (i & <- & Hi). apply in_seq in Hi.
  exists i. split; [apply windowCount_bound; lia|reflexivity].
Qed.

(** X20: the windows of a plan are anchored at its start day.  Two plans
    in chunks of [d] days, within the years 0000 to 9999, whose start
    days are not a multiple of [d] days apart have no window in common,
    not even a start date; so that, on a store whose chunks all come
    from the first plan, every window of the second is missing. *)
Theorem plans_of_other_start_days_share_no_window
    (fuel1 fuel2 : nat) (s1 e1 s2 e2 d : Z) (plan1 plan2 : list DateRange) :
  0 < d -> (s2 - s1) mod d <> 0 ->
  firstDay <= s1 -> e1 <= lastDay -> firstDay <= s2 -> e2 <= lastDay ->
  getDateRanges fuel1 (midnightOf s1) (midnightOf e1) d = Some plan1 ->
  getDateRanges fuel2 (midnightOf s2) (midnightOf e2) d = Some plan2 ->
  (forall r1 r2, In r1 plan1 -> In r2 plan2 -> r_start r1 <> r_start r2)
  /\ forall existingChunks : list ChunkRef,
       (forall c, In c existingChunks ->
                  exists r1, In r1 plan1 /\ c_start c = r_start r1 /\ c_end c = r_end r1) ->
       missingRanges plan2 existingChunks = plan2.
Proof.
  intros Hd Hmod Hs1 He1 Hs2 He2 H1 H2.
  assert (Hstart : forall r1 r2, In r1 plan1 -> In r2 plan2 -> r_start r1 <> r_start r2).
  { intros r1 r2 Hr1 Hr2 Heq.
    destruct (planned_start _ _ _ _ _ _ Hd H1 Hr1) as (i & Hi & E1).
    destruct (planned_start _ _ _ _ _ _ Hd H2 Hr2) as (j & Hj & E2).
    rewrite E1, E2 in Heq.
    assert (F1 : fourDigitYear (midnightOf (s1 + Z.of_nat i * d)))
      by (unfold fourDigitYear; rewrite dayOf_midnightOf; nia).
    assert (F2 : fourDigitYear (midnightOf (s2 + Z.of_nat j * d)))
      by (unfold fourDigitYear; rewrite dayOf_midnightOf; nia).
    pose proof (formatDate_compare _ _ F1 F2) as C.
    rewrite Heq, string_compare_refl, !dayOf_midnightOf in C.
    symmetry in C. apply Z.compare_eq in C.
    apply Hmod. replace (s2 - s1) with ((Z.of_nat i - Z.of_nat j) * d) by lia.
    apply Z_mod_mult. }
  split; [exact Hstart|].
  intros existingChunks Hfrom. unfold missingRanges. apply filter_all.
  apply List.Forall_forall. intros r2 Hr2. apply negb_true_iff.
  apply bool_decide_eq_false. unfold existingRanges.
  rewrite elem_of_list_to_set, list_elem_of_In, in_map_iff.
  intros (c & Hkey & Hc). destruct (Hfrom c Hc) as (r1 & Hr1 & Es & Ee).
  destruct (planned_start _ _ _ _ _ _ Hd H2 Hr2) as (j & Hj & E2).
  assert (Hshape : isDateStr (r_start r2) = true /\ isDateStr (r_end r2) = true).
  { assert (F : Forall (fun r => isDateStr (r_start r) = true /\ isDateStr (r_end r) = true)
                  plan2).
    { apply (planned_shapes fuel2 (midnightOf s2) (midnightOf e2) d); try assumption;
        unfold fourDigitYear; rewrite dayOf_midnightOf; nia. }
    rewrite List.Forall_forall in F. now apply F. }
  destruct Hshape as [Hsh1 Hsh2]. apply isDateStr_chars in Hsh1, Hsh2.
  destruct (rangeKey_inj _ _ _ _ Hsh1 Hsh2 Hkey) as [Heq _].
  apply (Hstart r1 r2 Hr1 Hr2). congruence.
Qed.

(** The plans of thirty days that a run of one day and a run of the next
    day make, as [main] asks for them. *)
Lemma plans_of_other_start_days_share_no_window_witness :
  let plan1 := [mkRange "2025-09-09" "2025-10-08"] in
  let plan2 := [mkRange "2025-09-10" "2025-10-09"] in
  (forall r1 r2, In r1 plan1 -> In r2 plan2 -> r_start r1 <> r_start r2)
  /\ forall existingChunks : list ChunkRef,
       (forall c, In c existingChunks ->
                  exists r1, In r1 plan1 /\ c_start c = r_start r1 /\ c_end c = r_end r1) ->
       missingRanges plan2 existingChunks = plan2.
Proof.
  apply (plans_of_other_start_days_share_no_window 3 3 20340 20370 20341 20371
           CHUNK_DAYS);
    first [reflexivity | unfold firstDay, lastDay, CHUNK_DAYS; lia | idtac].
  vm_compute. discriminate.
Defined.

End PlansOfOtherDays.

(* ===================================================================== *)
(** ** The page loop *)
(* ===================================================================== *)

Section PageLoop.
Import Date Planner Store Fetcher Extract.

Variable Date_parse : string -> option Date.t.
Variable ORGANIZATION_SLUG : string.
Variable now : string.
Variable upstream : string -> Response.

(** The page loop throws on a page exactly when the page holds an event
    with a date that does not parse, whatever the window. *)
Lemma pageEvents_throws issueType startDate endDate data : forall allEvents,
  pageEvents Date_parse now issueType startDate endDate data allEvents = None <->
  existsb (unparsable Date_parse) data = true.
Proof.
  induction data as [|event data IH]; intros allEvents;
    [split; discriminate|].
  cbn [pageEvents existsb]. unfold unparsable at 1, eventDate.
  destruct (Js.truthy (Js.or (ev_dateCreated event) (ev_dateReceived event)));
    [|apply IH].
  cbn [andb].
  destruct (Date_parse (default "" (Js.or (ev_dateCreated event) (ev_dateReceived event))));
    [|split; reflexivity].
  cbn [orb]. destruct (_ && _); apply IH.
Qed.

(** The loop ends with the call of [url]: the call fails, or its page is
    empty or names no next page. *)
Definition stopsAt (url : string) : bool :=
  match upstream url with
  | Rejected => true
  | Resolved None _ => true
  | Resolved (Some data) next =>
      existsb (unparsable Date_parse) data
      || (List.length data =? 0)%nat || negb (Js.truthy next)
  end.

(** The URL that the [Link] header of the page of [url] gives for the
    next page. *)
Definition nextOf (url : string) : string :=
  match upstream url with
  | Resolved _ next => default "" next
  | Rejected => ""
  end.

(** Calls that follow the links from page to page, up to a call at
    which the loop ends. *)
Fixpoint followsLinks (url : string) (made : list string) : Prop :=
  match made with
  | [] => stopsAt url = true
  | next :: rest => stopsAt url = false /\ next = nextOf url /\ followsLinks next rest
  end.

Lemma fetchPages_chain fuel issueType startDate endDate :
  forall url allEvents calls res calls',
  fetchPages Date_parse now upstream fuel issueType startDate endDate
    url allEvents calls = Some (res, calls') ->
  exists made,
    calls' = calls ++ url :: made /\ followsLinks url made
    /\ (List.length made < fuel)%nat.
Proof.
  induction fuel as [|fuel IH]; intros url allEvents calls res calls' H;
    [discriminate|].
  cbn [fetchPages] in H.
  assert (Hstop : stopsAt url = true -> Some (res, calls ++ [url]) = Some (res, calls') ->
            exists made, calls' = calls ++ url :: made /\ followsLinks url made
                         /\ (List.length made < S fuel)%nat).
  { intros Hs [= <-]. exists []. repeat split; [exact Hs|simpl; lia]. }
  unfold stopsAt in Hstop.
  destruct (upstream url) as [|[data|] next] eqn:Eu.
  - injection H as <- <-. now apply Hstop.
  - destruct (pageEvents _ _ _ _ _ data allEvents) as [evs|] eqn:Ep.
    + assert (Hp : existsb (unparsable Date_parse) data = false).
      { destruct (existsb _ data) eqn:Ex; [|reflexivity].
        apply (proj2 (pageEvents_throws issueType startDate endDate data allEvents)) in Ex.
        rewrite Ep in Ex. discriminate. }
      rewrite Hp in *. cbn [orb] in *.
      destruct (List.length data =? 0)%nat eqn:El.
      { injection H as <- <-. now apply Hstop. }
      destruct (Js.truthy next) eqn:Et.
      * apply IH in H. destruct H as (made & -> & Hchain & Hlen).
        exists (default "" next :: made). split; [now rewrite <- app_assoc|].
        split; [|simpl; lia].
        cbn [followsLinks]. unfold stopsAt at 1, nextOf. rewrite Eu, Hp, El, Et.
        now repeat split.
      * injection H as <- <-. now apply Hstop.
    + apply (proj1 (pageEvents_throws _ _ _ _ _)) in Ep. rewrite Ep in *.
      injection H as <- <-. now apply Hstop.
  - injection H as <- <-. now apply Hstop.
Qed.

Lemma fetchPages_returns fuel issueType startDate endDate :
  forall url made allEvents calls,
  followsLinks url made -> (List.length made < fuel)%nat ->
  exists res,
    fetchPages Date_parse now upstream fuel issueType startDate endDate
      url allEvents calls = Some (res, calls ++ url :: made).
Proof.
  induction fuel as [|fuel IH]; intros url made allEvents calls Hchain Hlen; [lia|].
  cbn [fetchPages].
  destruct made as [|next rest]; cbn [followsLinks] in Hchain.
  - unfold stopsAt in Hchain.
    destruct (upstream url) as [|[data|] nxt]; try (eexists; reflexivity).
    destruct (pageEvents _ _ _ _ _ data allEvents) as [evs|] eqn:Ep;
      [|eexists; reflexivity].
    assert (Hp : existsb (unparsable Date_parse) data = false).
    { destruct (existsb _ data) eqn:Ex; [|reflexivity].
      apply (proj2 (pageEvents_throws issueType startDate endDate data allEvents)) in Ex.
      rewrite Ep in Ex. discriminate. }
    rewrite Hp in Hchain. cbn [orb] in Hchain.
    destruct (List.length data =? 0)%nat; [eexists; reflexivity|].
    cbn [orb] in Hchain. apply negb_true_iff in Hchain. rewrite Hchain.
    eexists; reflexivity.
  - destruct Hchain as (Hgo & -> & Hrest). unfold stopsAt in Hgo. unfold nextOf in *.
    destruct (upstream url) as [|[data|] nxt]; try discriminate Hgo.
    apply orb_false_iff in Hgo. destruct Hgo as [Hgo Hnext].
    apply orb_false_iff in Hgo. destruct Hgo as [Hp Hlen0].
    destruct (pageEvents _ _ _ _ _ data allEvents) as [evs|] eqn:Ep.
    + rewrite Hlen0. apply negb_false_iff in Hnext. rewrite Hnext.
      destruct (IH (default "" nxt) rest evs (calls ++ [url]) Hrest) as [res Hres];
        [simpl in Hlen; lia|].
      exists res. rewrite Hres. now rewrite <- app_assoc.
    + apply (proj1 (pageEvents_throws _ _ _ _ _)) in Ep. congruence.
Qed.

(** X21: the calls of the fetch of a window start with the search URL of
    the window and follow the next link from page to page; the last call
    is the first one that fails, that holds an event with a date that
    does not parse, that has an empty page, or that names no next page.
    When such a sequence of calls exists, the fetch returns, given more
    iterations than it has calls after the first. *)
Theorem page_loop_follows_next_links (issueId issueType startDate endDate : string) :
  let first := chunkUrl ORGANIZATION_SLUG issueId startDate endDate in
  (forall fuel res calls,
     tryFetch Date_parse ORGANIZATION_SLUG now upstream fuel
       issueId issueType startDate endDate = Some (res, calls) ->
     exists made, calls = first :: made /\ followsLinks first made
                  /\ (List.length made < fuel)%nat)
  /\ (forall made fuel,
        followsLinks first made -> (List.length made < fuel)%nat ->
        exists res,
          tryFetch Date_parse ORGANIZATION_SLUG now upstream fuel
            issueId issueType startDate endDate = Some (res, first :: made)).
Proof.
  cbv zeta. unfold tryFetch. split.
  - intros fuel res calls H. apply fetchPages_chain in H.
    destruct H as (made & -> & Hchain & Hlen). now exists made.
  - intros made fuel Hchain Hlen.
    destruct (fetchPages_returns fuel issueType startDate endDate _ made [] []
                Hchain Hlen) as [res Hres].
    now exists res.
Qed.

Lemma followsLinks_ends url made :
  followsLinks url made -> exists last, stopsAt last = true.
Proof.
  revert url. induction made as [|next rest IH]; intros url H; simpl in H.
  - now exists url.
  - destruct H as (_ & _ & H). eauto.
Qed.

(** X22: the page loop ends only at a call that fails, at an empty page
    or at a page without a next link.  Against an upstream that answers
    every call with events and a next link, the fetch of a window returns
    after no number of iterations. *)
Theorem page_loop_needs_a_last_page
    (fuel : nat) (issueId issueName issueType startDate endDate : string) :
  (forall url, stopsAt url = false) ->
  fetchDateRangeChunk Date_parse ORGANIZATION_SLUG now upstream fuel
    issueId issueName issueType startDate endDate = None.
Proof.
  intros Hnever. unfold fetchDateRangeChunk, tryFetch.
  destruct (fetchPages _ _ _ _ _ _ _ _ _ _) as [[res calls]|] eqn:E; [|reflexivity].
  apply fetchPages_chain in E. destruct E as (made & _ & Hchain & _).
  apply followsLinks_ends in Hchain. destruct Hchain as [last Hlast].
  rewrite Hnever in Hlast. discriminate.
Qed.

End PageLoop.

Section PageLoopRuns.
Import Date Planner Store Fetcher Examples.

(** An upstream whose every page has an event and the link of a next
    page. *)
Definition endless (url : string) : Response :=
  Resolved
    (Some [ rawEvent "a1" (Some "2025-09-10T08:15:00Z")
              (mkUser (Some "u1") None None) "Insufficient Funds" ])
    (Some secondPage).

Lemma page_loop_needs_a_last_page_witness :
  fetchDateRangeChunk parseTimestamp "xajeet" "2025-09-17T06:00:00.000Z" endless 1000
    errorIssue "Payment Error" "payment_error" "2025-09-09" "2025-09-16" = None.
Proof.
  apply (page_loop_needs_a_last_page parseTimestamp "xajeet"
           "2025-09-17T06:00:00.000Z" endless 1000).
  intros url. reflexivity.
Defined.

Example calls_of_the_healthy_upstream :
  followsLinks parseTimestamp healthy firstPage [secondPage].
Proof. repeat split. Qed.

End PageLoopRuns.

(* ===================================================================== *)
(** ** What a run fetches *)
(* ===================================================================== *)

Section RunInGeneral.
Import Date Planner Store StoreFacts Fetcher DateFacts PlannerFacts.

Variable Date_parse : string -> option Date.t.
Variable ORGANIZATION_SLUG : string.
Variable now : string.
Variable upstream : string -> Response.

Lemma fetchDateRangeChunk_first_call fuel id name issueType startDate endDate evs made :
  fetchDateRangeChunk Date_parse ORGANIZATION_SLUG now upstream fuel
    id name issueType startDate endDate = Some (evs, made) ->
  In (chunkUrl ORGANIZATION_SLUG id startDate endDate) made.
Proof.
  unfold fetchDateRangeChunk, tryFetch. intros H.
  destruct (fetchPages _ _ _ _ _ _ _ _ _ _) as [[res calls]|] eqn:E; [|discriminate H].
  apply fetchPages_chain in E. destruct E as (rest & -> & _).
  destruct res; injection H as _ <-; now left.
Qed.

Lemma fetchEach_calls fuel id name issueType missing :
  forall fs calls fs' calls',
  fetchEach Date_parse ORGANIZATION_SLUG now upstream fuel fs
    id name issueType missing calls = Some (fs', calls') ->
  (forall u, In u calls -> In u calls')
  /\ forall r, In r missing ->
       In (chunkUrl ORGANIZATION_SLUG id (r_start r) (r_end r)) calls'.
Proof.
  induction missing as [|range rest IH]; intros fs calls fs' calls' H; simpl in H.
  - injection H as _ <-. split; [auto|intros r []].
  - destruct (fetchDateRangeChunk _ _ _ _ _ _ _ _ _ _) as [[evs made]|] eqn:E;
      [|discriminate H].
    apply fetchDateRangeChunk_first_call in E.
    apply IH in H. destruct H as [Hkeep Hrest]. split.
    + intros u Hu. apply Hkeep, in_or_app. now left.
    + intros r [<-|Hr]; [|now apply Hrest].
      apply Hkeep, in_or_app. now right.
Qed.

(** X23: after a run of the fetch-and-cache flow over a range within the
    years 0000 to 9999, every planned window of the range is on disk; and
    for every planned window that was not on disk before, the run has
    called the search URL of the window. *)
Theorem run_fetches_every_missing_window
    (fuel : nat) (fs fs' : FS) (id name issueType : string)
    (startDate endDate : Date.t) (calls : list string) :
  fourDigitYear startDate -> fourDigitYear endDate ->
  fetchMissingChunks Date_parse ORGANIZATION_SLUG now upstream fuel fs
    id name issueType startDate endDate = Some (fs', calls) ->
  exists allRanges,
    getDateRanges fuel startDate endDate CHUNK_DAYS = Some allRanges
    /\ forall r, In r allRanges ->
         onDisk (loadExistingChunks fs' id name) r
         /\ (~ onDisk (loadExistingChunks fs id name) r ->
             In (chunkUrl ORGANIZATION_SLUG id (r_start r) (r_end r)) calls).
Proof.
  intros Hs He H. unfold fetchMissingChunks in H.
  destruct (getDateRanges fuel startDate endDate CHUNK_DAYS) as [allRanges|] eqn:Eplan;
    [|discriminate H].
  exists allRanges. split; [reflexivity|]. intros r Hr.
  assert (Hpos : 0 < CHUNK_DAYS) by (unfold CHUNK_DAYS; lia).
  pose proof (planned_shapes _ _ _ _ _ Hpos Hs He Eplan) as Hshape.
  pose proof (missingRanges_In fs id name allRanges) as Hmiss.
  assert (Hsh : Forall (fun r => isDateStr (r_start r) = true /\ isDateStr (r_end r) = true)
                  (missingRanges allRanges (loadExistingChunks fs id name))).
  { rewrite List.Forall_forall in Hshape |- *.
    intros x Hx. apply Hshape. now apply Hmiss in Hx. }
  destruct (onDiskb (loadExistingChunks fs id name) r) eqn:Eb.
  - apply onDiskb_spec in Eb. split; [|intros Hn; now destruct Hn].
    destruct (List.length _ =? 0)%nat in H.
    + now injection H as <- _.
    + eapply fetchEach_onDisk; [exact Hsh|exact H|now right].
  - assert (Hin : In r (missingRanges allRanges (loadExistingChunks fs id name))).
    { apply Hmiss. split; [assumption|]. rewrite <- onDiskb_spec. congruence. }
    destruct (List.length _ =? 0)%nat eqn:El in H.
    + apply Nat.eqb_eq, length_zero_iff_nil in El. rewrite El in Hin. destruct Hin.
    + split.
      * eapply fetchEach_onDisk; [exact Hsh|exact H|now left].
      * intros _. apply fetchEach_calls in H. now apply H.
Qed.

End RunInGeneral.

Section RunInGeneralWitness.
Import Date Planner Store StoreFacts Fetcher Examples.

Lemma run_fetches_every_missing_window_witness :
  fetchMissingChunks parseTimestamp "xajeet" "2025-09-17T06:00:00.000Z" healthy
    4 ∅ errorIssue "Payment Error" "payment_error"
    (midnight 2025 9 9) (midnight 2025 9 16)
  = Some (afterHealthyRun, [firstPage; secondPage])
  /\ exists allRanges,
       getDateRanges 4 (midnight 2025 9 9) (midnight 2025 9 16) CHUNK_DAYS
         = Some allRanges
       /\ forall r, In r allRanges ->
            onDisk (loadExistingChunks afterHealthyRun errorIssue "Payment Error") r
            /\ (~ onDisk (loadExistingChunks ∅ errorIssue "Payment Error") r ->
                In (chunkUrl "xajeet" errorIssue (r_start r) (r_end r))
                   [firstPage; secondPage]).
Proof.
  assert (H1 : fourDigitYear (midnight 2025 9 9))
    by (unfold fourDigitYear; vm_compute; split; discriminate).
  assert (H2 : fourDigitYear (midnight 2025 9 16))
    by (unfold fourDigitYear; vm_compute; split; discriminate).
  assert (H : fetchMissingChunks parseTimestamp "xajeet" "2025-09-17T06:00:00.000Z"
                healthy 4 ∅ errorIssue "Payment Error" "payment_error"
                (midnight 2025 9 9) (midnight 2025 9 16)
              = Some (afterHealthyRun, [firstPage; secondPage]))
    by reflexivity.
  split; [exact H|].
  exact (run_fetches_every_missing_window parseTimestamp "xajeet"
           "2025-09-17T06:00:00.000Z" healthy 4 ∅ afterHealthyRun
           errorIssue "Payment Error" "payment_error"
           (midnight 2025 9 9) (midnight 2025 9 16) [firstPage; secondPage] H1 H2 H).
Defined.

End RunInGeneralWitness.

(* ===================================================================== *)
(** ** Reading a narrower range *)
(* ===================================================================== *)

Section ReaderRanges.
Import Store StoreFacts Reader.

Lemma string_leb_trans a b c :
  String.leb a b = true -> String.leb b c = true -> String.leb a c = true.
Proof.
  unfold String.leb.
  destruct (String.compare a b) eqn:E1; try discriminate;
    destruct (String.compare b c) eqn:E2; try discriminate; intros _ _.
  - apply String.compare_eq_iff in E1, E2. subst. now rewrite string_compare_refl.
  - apply String.compare_eq_iff in E1. subst. now rewrite E2.
  - apply String.compare_eq_iff in E2. subst. now rewrite E1.
  - now rewrite (string_compare_lt_trans _ _ _ E1 E2).
Qed.

(** The events the loop over the files returns. *)
Lemma loadFiles_In d startDate endDate files : forall allEvents out,
  loadFiles d startDate endDate files allEvents = Some out ->
  forall event,
    In event out <->
    In event allEvents
    \/ exists file chunkStart chunkEnd chunkData,
         In file files /\ matchChunkName file = Some (chunkStart, chunkEnd)
         /\ overlaps startDate endDate chunkStart chunkEnd = true
         /\ readFile file d = Some (Chunk chunkData)
         /\ In event (events chunkData)
         /\ inRange startDate endDate event = true.
Proof.
  induction files as [|file rest IH]; intros allEvents out H event; simpl in H.
  - injection H as <-. split; [now left|]. intros [Hin|(f & a & b & c & [] & _)].
    exact Hin.
  - assert (Hskip : forall acc,
              loadFiles d startDate endDate rest acc = Some out ->
              (forall a b c, matchChunkName file = Some (a, b) ->
                 overlaps startDate endDate a b = true ->
                 readFile file d = Some (Chunk c) ->
                 forall ev, In ev (events c) -> inRange startDate endDate ev = true ->
                            In ev acc) ->
              (forall ev, In ev allEvents -> In ev acc) ->
              (forall ev, In ev acc -> In ev allEvents
                 \/ exists a b c, matchChunkName file = Some (a, b)
                      /\ overlaps startDate endDate a b = true
                      /\ readFile file d = Some (Chunk c)
                      /\ In ev (events c) /\ inRange startDate endDate ev = true) ->
              In event out <->
              In event allEvents
              \/ exists f a b c,
                   (file = f \/ In f rest) /\ matchChunkName f = Some (a, b)
                   /\ overlaps startDate endDate a b = true
                   /\ readFile f d = Some (Chunk c)
                   /\ In event (events c) /\ inRange startDate endDate event = true).
    { intros acc Hacc Hfile Hold Hnew. rewrite (IH _ _ Hacc event). split.
      - intros [Hin|(f & a & b & c & Hf & Hrest)].
        + destruct (Hnew _ Hin) as [Ho|(a & b & c & Hm & Ho & Hr & He & Hi)];
            [now left|].
          right. exists file, a, b, c. tauto.
        + right. exists f, a, b, c. tauto.
      - intros [Hin|(f & a & b & c & [<-|Hf] & Hm & Ho & Hr & He & Hi)].
        + left. now apply Hold.
        + left. eapply Hfile; eauto.
        + right. exists f, a, b, c. tauto. }
    destruct (matchChunkName file) as [[a b]|] eqn:Em.
    2: { apply (Hskip allEvents H); [discriminate|auto|auto]. }
    fold (overlaps startDate endDate a b) in H.
    destruct (overlaps startDate endDate a b) eqn:Eo.
    2: { apply (Hskip allEvents H); [|auto|auto].
         intros a' b' c [= <- <-] Ho. congruence. }
    destruct (readFile file d) as [[c|content]|] eqn:Er; try discriminate H.
    apply (Hskip _ H).
    + intros a' b' c' _ _ [= <-] ev He Hi. apply in_or_app. right.
      apply filter_In. now split.
    + intros ev Hev. apply in_or_app. now left.
    + intros ev Hev. apply in_app_or in Hev. destruct Hev as [Hev|Hev]; [now left|].
      apply filter_In in Hev. right. exists a, b, c. tauto.
Qed.

(** X24: when the reader returns for a range, it returns for every range
    within it; every event it returns has its date within the requested
    range, and every event returned for the narrower range is among the
    events returned for the wider one. *)
Theorem narrower_range_reads_fewer_events (fs : FS)
    (issueId issueName startDate endDate from to : string) (wide : list MinimalEvent) :
  Js.le startDate from = true -> Js.le to endDate = true ->
  loadChunksInDateRange fs issueId issueName startDate endDate = Some wide ->
  Forall (fun event => inRange startDate endDate event = true) wide
  /\ exists narrow,
       loadChunksInDateRange fs issueId issueName from to = Some narrow
       /\ Forall (fun event => inRange from to event = true) narrow
       /\ forall event, In event narrow -> In event wide.
Proof.
  unfold Js.le. intros Hfrom Hto Hwide.
  assert (Hover : forall a b, overlaps from to a b = true ->
                              overlaps startDate endDate a b = true).
  { unfold overlaps, Js.ge, Js.le. intros a b H.
    apply andb_true_iff in H. destruct H as [H1 H2]. apply andb_true_iff. split.
    - exact (string_leb_trans _ _ _ Hfrom H1).
    - exact (string_leb_trans _ _ _ H2 Hto). }
  assert (Hin : forall ev, inRange from to ev = true -> inRange startDate endDate ev = true).
  { unfold inRange, Js.ge, Js.le. intros ev H.
    apply andb_true_iff in H. destruct H as [H1 H2]. apply andb_true_iff. split.
    - exact (string_leb_trans _ _ _ Hfrom H1).
    - exact (string_leb_trans _ _ _ H2 Hto). }
  unfold loadChunksInDateRange in *.
  destruct (fs !! getChunkDir issueId issueName) as [d|].
  2: { injection Hwide as <-. split; [constructor|].
       exists []. split; [reflexivity|]. split; [constructor|auto]. }
  set (files := List.filter (fun f => Js.endsWith f ".json") (readdir d)) in *.
  pose proof (loadFiles_In _ _ _ _ _ _ Hwide) as Wide.
  split.
  { apply List.Forall_forall. intros ev Hev. apply Wide in Hev.
    destruct Hev as [[]|(f & a & b & c & _ & _ & _ & _ & _ & Hi)]. exact Hi. }
  destruct (loadFiles d from to files []) as [narrow|] eqn:En.
  - exists narrow. split; [reflexivity|].
    pose proof (loadFiles_In _ _ _ _ _ _ En) as Narrow. split.
    + apply List.Forall_forall. intros ev Hev. apply Narrow in Hev.
      destruct Hev as [[]|(f & a & b & c & _ & _ & _ & _ & _ & Hi)]. exact Hi.
    + intros ev Hev. apply Narrow in Hev.
      destruct Hev as [[]|(f & a & b & c & Hf & Hm & Ho & Hr & He & Hi)].
      apply Wide. right. exists f, a, b, c. repeat split; auto.
  - exfalso. apply loadFiles_throws in En.
    destruct En as (f & a & b & Hf & Hm & Ho & Hr).
    assert (Hnone : loadFiles d startDate endDate files [] = None).
    { apply loadFiles_throws. exists f, a, b. repeat split; auto. }
    congruence.
Qed.

End ReaderRanges.

Section ReaderRangesRun.
Import Store StoreFacts Reader Examples.

Lemma narrower_range_reads_fewer_events_witness :
  Js.le "2025-09-09" "2025-09-10" = true /\ Js.le "2025-09-15" "2025-09-22" = true
  /\ loadChunksInDateRange twoWeeks errorIssue "Payment Error" "2025-09-09" "2025-09-22"
     = Some [inWindowEvent; inWindowEvent]
  /\ Forall (fun event => inRange "2025-09-09" "2025-09-22" event = true)
       [inWindowEvent; inWindowEvent]
  /\ exists narrow,
       loadChunksInDateRange twoWeeks errorIssue "Payment Error" "2025-09-10" "2025-09-15"
         = Some narrow
       /\ Forall (fun event => inRange "2025-09-10" "2025-09-15" event = true) narrow
       /\ forall event, In event narrow -> In event [inWindowEvent; inWindowEvent].
Proof.
  assert (H1 : Js.le "2025-09-09" "2025-09-10" = true) by reflexivity.
  assert (H2 : Js.le "2025-09-15" "2025-09-22" = true) by reflexivity.
  assert (H3 : loadChunksInDateRange twoWeeks errorIssue "Payment Error"
                 "2025-09-09" "2025-09-22" = Some [inWindowEvent; inWindowEvent])
    by reflexivity.
  split; [exact H1|]. split; [exact H2|]. split; [exact H3|].
  exact (narrower_range_reads_fewer_events twoWeeks errorIssue "Payment Error"
           "2025-09-09" "2025-09-22" "2025-09-10" "2025-09-15"
           [inWindowEvent; inWindowEvent] H1 H2 H3).
Defined.

End ReaderRangesRun.

(* ===================================================================== *)
(** ** The order of the events *)
(* ===================================================================== *)

Section EventOrder.
Import Aggregate.

Lemma firstSeen_perm l l' :
  Permutation l l' -> Permutation (firstSeen l) (firstSeen l').
Proof.
  intros H. apply Permutation.NoDup_Permutation; try apply firstSeen_NoDup.
  intros k. rewrite !In_firstSeen. split; apply Permutation_in; [|symmetry]; exact H.
Qed.

Lemma filter_perm {A} (p : A -> bool) l l' :
  Permutation l l' -> Permutation (List.filter p l) (List.filter p l').
Proof.
  induction 1 as [|x l l' _ IH|x y l|l l' l'' _ IH1 _ IH2]; simpl.
  - constructor.
  - destruct (p x); [now constructor|exact IH].
  - destruct (p x), (p y); try reflexivity. apply perm_swap.
  - now transitivity (List.filter p l').
Qed.

Lemma distinct_perm (l l' : list string) :
  Permutation l l' -> List.length (remove_dups l) = List.length (remove_dups l').
Proof.
  intros H. apply Permutation_length, Permutation.NoDup_Permutation;
    try (apply NoDup_ListNoDup, NoDup_remove_dups).
  intros x. rewrite <- !list_elem_of_In, !elem_of_remove_dups, !list_elem_of_In.
  split; apply Permutation_in; [|symmetry]; exact H.
Qed.

(** Sorted lists of numbers with the same elements are equal. *)
Lemma descending_unique (l : list nat) : forall l',
  StronglySorted (fun a b => (b <= a)%nat) l ->
  StronglySorted (fun a b => (b <= a)%nat) l' ->
  Permutation l l' -> l = l'.
Proof.
  induction l as [|x l IH]; intros [|y l'] Hl Hl' Hp.
  - reflexivity.
  - apply Permutation_nil in Hp. discriminate.
  - symmetry in Hp. apply Permutation_nil in Hp. discriminate.
  - inversion Hl as [|? ? Hs Hall]; subst. inversion Hl' as [|? ? Hs' Hall']; subst.
    rewrite List.Forall_forall in Hall, Hall'.
    assert (x = y).
    { assert (Hx : In x (y :: l')) by (eapply Permutation_in; [exact Hp|now left]).
      assert (Hy : In y (x :: l))
        by (eapply Permutation_in; [symmetry; exact Hp|now left]).
      destruct Hx as [->|Hx]; [reflexivity|]. destruct Hy as [->|Hy]; [reflexivity|].
      apply Hall in Hy. apply Hall' in Hx. lia. }
    subst y. f_equal. apply IH; try assumption. eapply Permutation_cons_inv; eauto.
Qed.

Lemma sorted_counts rows :
  StronglySorted descending rows ->
  StronglySorted (fun a b => (b <= a)%nat) (map count rows).
Proof.
  induction 1 as [|r rows Hs IH Hall]; simpl; constructor; [exact IH|].
  apply Forall_map. exact Hall.
Qed.

(** X25: the result of the aggregator does not depend on the order of
    the events, but for the order of rows of equal count: on the same
    events in another order the aggregator returns the same rows in
    some order, with the same counts from top to bottom. *)
Theorem aggregation_ignores_event_order
    (events events' : list MinimalEvent) (rows : list ReasonRow) :
  Permutation events events' ->
  processPaymentErrors events = Some rows ->
  exists rows',
    processPaymentErrors events' = Some rows'
    /\ Permutation rows rows'
    /\ map count rows = map count rows'.
Proof.
  intros Hp H.
  destruct (processPaymentErrors events') as [rows'|] eqn:E'.
  2: { exfalso. rewrite processPaymentErrors_rowsBy in E', H.
       apply rowsBy_throws in E'.
       assert (Hex : Exists (fun event => inherited (reasonOf event) = true) events).
       { apply List.Exists_exists in E'. destruct E' as (e & He & Hi).
         apply List.Exists_exists. exists e. split; [|exact Hi].
         eapply Permutation_in; [symmetry; exact Hp|exact He]. }
       apply (rowsBy_throws reasonOf ReasonRow mkRow count) in Hex. congruence. }
  exists rows'. split; [reflexivity|].
  assert (Hperm : Permutation rows rows').
  { rewrite processPaymentErrors_rowsBy in E', H.
    apply rowsBy_rows in H, E'. subst rows rows'.
    rewrite !sortBy_perm.
    rewrite (Permutation_map _ (entryOrder_perm (firstSeen (map reasonOf events)))).
    rewrite (Permutation_map _ (entryOrder_perm (firstSeen (map reasonOf events')))).
    rewrite (Permutation_map _ (firstSeen_perm _ _ (Permutation_map reasonOf Hp))).
    apply Permutation_refl'. apply map_ext. intros k. unfold groupRow, groupOf.
    pose proof (filter_perm (fun event => String.eqb (reasonOf event) k) _ _ Hp) as Hf.
    f_equal.
    - now apply Permutation_length.
    - apply distinct_perm. now apply Permutation_map. }
  split; [exact Hperm|].
  apply descending_unique.
  - apply sorted_counts. eapply error_rows_sorted; eauto.
  - apply sorted_counts. eapply error_rows_sorted; eauto.
  - now apply Permutation_map.
Qed.

Lemma aggregation_ignores_event_order_witness :
  Permutation codedEvents (rev codedEvents)
  /\ processPaymentErrors codedEvents =
     Some [ mkRow "51" 2 2; mkRow "5" 1 1; mkRow "Do Not Honor" 1 1;
            mkRow "Insufficient Funds" 1 1 ]
  /\ exists rows',
       processPaymentErrors (rev codedEvents) = Some rows'
       /\ Permutation [ mkRow "51" 2 2; mkRow "5" 1 1; mkRow "Do Not Honor" 1 1;
                        mkRow "Insufficient Funds" 1 1 ] rows'
       /\ map count [ mkRow "51" 2 2; mkRow "5" 1 1; mkRow "Do Not Honor" 1 1;
                      mkRow "Insufficient Funds" 1 1 ] = map count rows'.
Proof.
  assert (H1 : Permutation codedEvents (rev codedEvents)) by apply Permutation_rev.
  assert (H2 : processPaymentErrors codedEvents =
               Some [ mkRow "51" 2 2; mkRow "5" 1 1; mkRow "Do Not Honor" 1 1;
                      mkRow "Insufficient Funds" 1 1 ]) by reflexivity.
  split; [exact H1|]. split; [exact H2|].
  exact (aggregation_ignores_event_order codedEvents (rev codedEvents) _ H1 H2).
Defined.

Example aggregate_of_the_coded_events_reversed :
  processPaymentErrors (rev codedEvents) =
  Some [ mkRow "51" 2 2; mkRow "5" 1 1; mkRow "Insufficient Funds" 1 1;
         mkRow "Do Not Honor" 1 1 ].
Proof. reflexivity. Qed.

End EventOrder.

(* ===================================================================== *)
(** ** From an upstream event to a row of the report *)
(* ===================================================================== *)

Section EventToRow.
Import Extract Aggregate.

(** X26: the row an upstream event counts in.  Fetched as a payment
    error, an event counts under the value of its last
    [paymentErrorReason] tag, under "Unknown" when it has no such tag or
    an empty value, and under the grouped key when the value ends in "is
    not a valid card number"; fetched as a payment success, it counts
    under the value of its first [merchant_id] tag, under "Unknown" when
    it has no such tag or an empty value.  In both cases it counts for
    the user of [resolveUserId]. *)
Theorem row_of_an_upstream_event (now : string) (event : RawEvent) :
  let tags := default [] (ev_tags event) in
  let failed := extractMinimalEventData now event "payment_error" in
  let paid := extractMinimalEventData now event "payment_success" in
  let reasonTag :=
    match lastTag "paymentErrorReason" tags with
    | Some t => Js.orDefault (tag_value t) "Unknown"
    | None => "Unknown"
    end in
  reasonOf failed =
    (if Js.endsWith reasonTag "is not a valid card number" then invalidCardNumberKey
     else reasonTag)
  /\ Success.merchantOf paid =
     match firstTag "merchant_id" tags with
     | Some t => Js.orDefault (tag_value t) "Unknown"
     | None => "Unknown"
     end
  /\ userId failed = resolveUserId (default noUser (ev_user event))
  /\ userId paid = resolveUserId (default noUser (ev_user event)).
Proof.
  cbv zeta. unfold extractMinimalEventData. cbn [String.eqb Ascii.eqb Bool.eqb].
  set (base := mkMinimalEvent _ _ _ None None None None None).
  set (tags := match ev_tags event with Some l => l | None => [] end).
  change (default [] (ev_tags event)) with tags.
  pose proof (errorTags_fields tags base) as He. cbv zeta in He.
  destruct He as (_ & _ & Hr & _).
  split; [|split; [|split]].
  - unfold reasonOf. rewrite Hr.
    destruct (lastTag "paymentErrorReason" tags) as [t|]; cbn [paymentErrorReason base].
    + assert (E : Js.orDefault (Some (Js.orDefault (tag_value t) "Unknown")) "Unknown"
                  = Js.orDefault (tag_value t) "Unknown").
      { unfold Js.orDefault. destruct (tag_value t) as [[|c s]|]; reflexivity. }
      now rewrite E.
    + reflexivity.
  - rewrite successTags_first. unfold Success.merchantOf.
    destruct (firstTag "merchant_id" tags) as [t|]; cbn [merchant_id setMerchant base].
    + unfold Js.orDefault. destruct (tag_value t) as [[|c s]|]; reflexivity.
    + reflexivity.
  - rewrite userId_errorTags. reflexivity.
  - rewrite userId_successTags. reflexivity.
Qed.

End EventToRow.

(* ===================================================================== *)
(** ** The migration of the old cache *)
(* ===================================================================== *)

(** [migrate_cache_to_chunks.js]: the events of the old cache file are
    sorted by date into chunks of seven days, in the directory that the
    fetcher and the reader use.  The embedding starts from the events
    parsed from the cache file and ends before the file is renamed. *)
Module Migrate.
Import Date Store Extract.

Definition PAYMENT_ERROR_ISSUE_ID : string := "6722248692".
Definition CHUNK_DAYS : Z := 7.

(** The tag loop: it stops at the first [paymentErrorReason] tag. *)
Fixpoint reasonTag (tags : list Tag) (m : MinimalEvent) : MinimalEvent :=
  match tags with
  | [] => m
  | tag :: rest =>
      if String.eqb (tag_key tag) "paymentErrorReason" then
        setReason (Js.orDefault (tag_value tag) "Unknown") m
      else reasonTag rest m
  end.

(** [extractMinimalEventData(event)] of the migration. *)
Definition extractMinimalEventData (now : string) (event : RawEvent) : MinimalEvent :=
  let user := match ev_user event with Some u => u | None => noUser end in
  let userId := resolveUserId user in
  let minimalEvent :=
    mkMinimalEvent
      (Js.orDefault (Js.or (ev_dateCreated event) (ev_dateReceived event)) now)
      (Js.or (ev_id event) (ev_eventID event))
      userId None None None None None in
  let tags := match ev_tags event with Some l => l | None => [] end in
  reasonTag tags minimalEvent.

(** [eventsByDate]: an object created by [{}] whose properties are
    arrays of events, in the order of their creation. *)
Abbreviation ByDate := (list (string * list MinimalEvent)).

Fixpoint getOwn (o : ByDate) (k : string) : option (list MinimalEvent) :=
  match o with
  | [] => None
  | (k', l) :: rest => if String.eqb k' k then Some l else getOwn rest k
  end.

Fixpoint setOwn (o : ByDate) (k : string) (l : list MinimalEvent) : ByDate :=
  match o with
  | [] => [(k, l)]
  | (k', l') :: rest =>
      if String.eqb k' k then (k, l) :: rest else (k', l') :: setOwn rest k l
  end.

(** The keys in the order of [for (const date in eventsByDate)]: array
    indices by ascending index, then the other names in the order of
    their creation. *)
Definition forInKeys (o : ByDate) : list string := entryOrder (map fst o).

(** A [Date] that may be invalid, and [a < b] on two of them. *)
Definition before (a b : option Date.t) : bool :=
  match a, b with
  | Some x, Some y => x <? y
  | _, _ => false
  end.

(** [getDateRanges(startDate, endDate, chunkDays)]: the function of
    [fetch_payment_data.js], copied into the migration. *)
Definition getDateRanges (fuel : nat) (startDate endDate : option Date.t)
    (chunkDays : Z) : option (list DateRange) :=
  Bounded.getDateRanges fuel startDate endDate chunkDays.

(** The variables of the first loop; [minDate] and [maxDate] are [None]
    while they are [null]. *)
Record Scan := mkScan {
  eventsByDate : ByDate;
  minDate : option (option Date.t);
  maxDate : option (option Date.t)
}.

Section Run.

(** [new Date(s)]: its time value, [None] for an invalid date; and the
    clock. *)
Variable Date_parse : string -> option Date.t.
Variable now : string.

(** The loop over the events of the cache.  [None]: a [TypeError] is
    thrown, which happens when the date of an event names a property of
    [Object.prototype], whose value has no [push]. *)
Fixpoint scan (events : list RawEvent) (st : Scan) : option Scan :=
  match events with
  | [] => Some st
  | event :: rest =>
      let minimalEvent := extractMinimalEventData now event in
      let eventDate := Js.beforeT (timestamp minimalEvent) in
      let pushed :=
        match getOwn (eventsByDate st) eventDate with
        | Some l => Some (setOwn (eventsByDate st) eventDate (l ++ [minimalEvent]))
        | None =>
            if Aggregate.inherited eventDate then None
            else Some (setOwn (eventsByDate st) eventDate [minimalEvent])
        end in
      match pushed with
      | None => None
      | Some byDate =>
          let date := Date_parse (timestamp minimalEvent) in
          let minDate :=
            match minDate st with
            | None => date
            | Some m => if before date m then date else m
            end in
          let maxDate :=
            match maxDate st with
            | None => date
            | Some m => if before m date then date else m
            end in
          scan rest (mkScan byDate (Some minDate) (Some maxDate))
      end
  end.

(** The events of the dates within a window, in the order of the
    [for ... in] loop. *)
Definition chunkEventsOf (byDate : ByDate) (range : DateRange) : list MinimalEvent :=
  flat_map
    (fun date =>
       if Js.ge date (r_start range) && Js.le date (r_end range)
       then default [] (getOwn byDate date) else [])
    (forInKeys byDate).

(** The loop over the windows: a chunk is written for every window that
    has events. *)
Fixpoint saveChunks (fs : FS) (chunkDir : string) (byDate : ByDate)
    (dateRanges : list DateRange) : FS :=
  match dateRanges with
  | [] => fs
  | range :: rest =>
      let chunkEvents := chunkEventsOf byDate range in
      let fs :=
        if (0 <? List.length chunkEvents)%nat then
          let chunkData :=
            mkChunkData now PAYMENT_ERROR_ISSUE_ID "Payment Error"
              (r_start range) (r_end range) (List.length chunkEvents) chunkEvents in
          <[chunkDir :=
              writeFile (chunkName (r_start range) (r_end range)) (Chunk chunkData)
                (default [] (fs !! chunkDir))]> fs
        else fs in
      saveChunks fs chunkDir byDate rest
  end.

(** Steps 2 to 4 of [migratePaymentErrorCache], on the events of the
    cache.  [None]: an exception is thrown ([formatDate] of a [minDate]
    that is [null] or invalid is one, and so is [formatDate] of the end of
    a window past the last instant of a [Date]), or the planner has run
    out of [fuel]. *)
Definition migratePaymentErrorCache (fuel : nat) (fs : FS) (events : list RawEvent)
    : option FS :=
  match scan events (mkScan [] None None) with
  | None => None
  | Some st =>
      match minDate st, maxDate st with
      | Some (Some lo), Some (Some hi) =>
          match getDateRanges fuel (Some lo) (Some hi) CHUNK_DAYS with
          | None => None
          | Some dateRanges =>
              let chunkDir := getChunkDir PAYMENT_ERROR_ISSUE_ID "Payment Error" in
              Some (saveChunks (ensureDir fs chunkDir) chunkDir (eventsByDate st)
                      dateRanges)
          end
      | _, _ => None
      end
  end.

End Run.

End Migrate.

Section MigrateFacts.
Import Date Store StoreFacts Migrate.

Variable Date_parse : string -> option Date.t.
Variable now : string.

(** The date under which the migration files an event of the cache, and
    the time value it reads from it. *)
Definition dateKey (event : RawEvent) : string :=
  Js.beforeT (timestamp (extractMinimalEventData now event)).

Definition instant (event : RawEvent) : option Date.t :=
  Date_parse (timestamp (extractMinimalEventData now event)).

Lemma getOwn_setOwn (o : ByDate) k l k' :
  getOwn (setOwn o k l) k' = if String.eqb k k' then Some l else getOwn o k'.
Proof.
  induction o as [|[k0 l0] o IH]; simpl.
  - reflexivity.
  - destruct (String.eqb_spec k0 k) as [->|Hne]; simpl.
    + destruct (String.eqb k k'); reflexivity.
    + rewrite IH. destruct (String.eqb_spec k0 k') as [->|]; [|reflexivity].
      destruct (String.eqb_spec k k'); congruence.
Qed.

(** Every array of [eventsByDate] holds records made from events of the
    cache, under their date. *)
Definition filedFrom (cache : list RawEvent) (o : ByDate) : Prop :=
  forall k l, getOwn o k = Some l ->
    Forall (fun m => exists event, In event cache
                       /\ m = extractMinimalEventData now event
                       /\ dateKey event = k) l.

(** No own property has an inherited name. *)
Definition ownNames (o : ByDate) : Prop :=
  forall k l, getOwn o k = Some l -> Aggregate.inherited k = false.

Lemma scan_filed cache events : forall st st',
  scan Date_parse now events st = Some st' ->
  (forall event, In event events -> In event cache) ->
  filedFrom cache (eventsByDate st) -> filedFrom cache (eventsByDate st').
Proof.
  induction events as [|event events IH]; intros st st' H Hin Hf; simpl in H.
  - now injection H as <-.
  - assert (Hev : exists e, In e cache /\ extractMinimalEventData now event
                     = extractMinimalEventData now e
                     /\ dateKey e = dateKey event).
    { exists event. split; [apply Hin; now left|split; reflexivity]. }
    fold (dateKey event) in H.
    destruct (getOwn (eventsByDate st) (dateKey event)) as [l|] eqn:Eg.
    + eapply IH; [exact H|intros; apply Hin; now right|].
      cbn [eventsByDate]. intros k l'. rewrite getOwn_setOwn.
      destruct (String.eqb_spec (dateKey event) k) as [<-|Hne]; [|apply Hf].
      intros [= <-]. apply Forall_app. split; [now apply Hf|].
      constructor; [|constructor]. destruct Hev as (e & He1 & He2 & He3). eauto.
    + destruct (Aggregate.inherited (dateKey event)); [discriminate H|].
      eapply IH; [exact H|intros; apply Hin; now right|].
      cbn [eventsByDate]. intros k l'. rewrite getOwn_setOwn.
      destruct (String.eqb_spec (dateKey event) k) as [<-|Hne]; [|apply Hf].
      intros [= <-]. constructor; [|constructor].
      destruct Hev as (e & He1 & He2 & He3). eauto.
Qed.

(** The first loop throws exactly when the date of an event names an
    inherited property. *)
Lemma scan_throws events : forall st,
  ownNames (eventsByDate st) ->
  scan Date_parse now events st = None <->
  Exists (fun event => Aggregate.inherited (dateKey event) = true) events.
Proof.
  induction events as [|event events IH]; intros st Hown; simpl.
  - split; [discriminate|intros H; inversion H].
  - fold (dateKey event). rewrite List.Exists_cons.
    destruct (getOwn (eventsByDate st) (dateKey event)) as [l|] eqn:Eg.
    + rewrite IH.
      * pose proof (Hown _ _ Eg) as Hk. rewrite Hk. intuition congruence.
      * cbn [eventsByDate]. intros k l'. rewrite getOwn_setOwn.
        destruct (String.eqb_spec (dateKey event) k) as [<-|Hne]; [|apply Hown].
        intros _. exact (Hown _ _ Eg).
    + destruct (Aggregate.inherited (dateKey event)) eqn:Ei; [intuition|].
      rewrite IH; [intuition congruence|].
      cbn [eventsByDate]. intros k l'. rewrite getOwn_setOwn.
      destruct (String.eqb_spec (dateKey event) k) as [<-|Hne]; [|apply Hown].
      intros _. exact Ei.
Qed.

(** Once [minDate] and [maxDate] are valid dates they stay so: an
    invalid date is below and above nothing. *)
Definition bothValid (st : Scan) : Prop :=
  (exists lo, minDate st = Some (Some lo)) /\ (exists hi, maxDate st = Some (Some hi)).

Lemma scan_valid events : forall st st',
  scan Date_parse now events st = Some st' -> bothValid st -> bothValid st'.
Proof.
  induction events as [|event events IH]; intros st st' H Hv; simpl in H.
  - now injection H as <-.
  - match type of H with
    | match ?p with _ => _ end = _ => destruct p as [byDate|]; [|discriminate H]
    end.
    apply IH in H; [exact H|]. destruct Hv as [[lo ->] [hi ->]].
    unfold bothValid. cbn [minDate maxDate]. fold (instant event). split.
    + destruct (instant event) as [t|]; simpl; [destruct (t <? lo)|]; eauto.
    + destruct (instant event) as [t|]; simpl; [destruct (hi <? t)|]; eauto.
Qed.

(** An invalid first date stays in [minDate] to the end. *)
Lemma scan_invalid events : forall st st',
  scan Date_parse now events st = Some st' ->
  minDate st = Some None -> minDate st' = Some None.
Proof.
  induction events as [|event events IH]; intros st st' H Hm; simpl in H.
  - now injection H as <-.
  - match type of H with
    | match ?p with _ => _ end = _ => destruct p as [byDate|]; [|discriminate H]
    end.
    apply IH in H; [exact H|]. cbn [minDate]. rewrite Hm.
    unfold before. now destruct (Date_parse _).
Qed.

(** The earliest and the latest of an instant and those of the events
    after it. *)
Definition earliest (t0 : Date.t) (events : list RawEvent) : Date.t :=
  fold_left Z.min (omap instant events) t0.

Definition latest (t0 : Date.t) (events : list RawEvent) : Date.t :=
  fold_left Z.max (omap instant events) t0.

(** From a first valid date on, [minDate] and [maxDate] are the earliest
    and the latest of the valid dates. *)
Lemma scan_extremes events : forall st st' lo hi,
  scan Date_parse now events st = Some st' ->
  minDate st = Some (Some lo) -> maxDate st = Some (Some hi) ->
  minDate st' = Some (Some (earliest lo events))
  /\ maxDate st' = Some (Some (latest hi events)).
Proof.
  unfold earliest, latest.
  induction events as [|event events IH]; intros st st' lo hi H Hlo Hhi; simpl in H.
  - injection H as <-. now split.
  - match type of H with
    | match ?p with _ => _ end = _ => destruct p as [byDate|]; [|discriminate H]
    end.
    fold (instant event) in H. rewrite Hlo, Hhi in H. cbn [omap list_omap].
    destruct (instant event) as [t|] eqn:Et; cbn [before] in H.
    + cbn [fold_left].
      eapply IH; [exact H| |]; cbn [minDate maxDate].
      * destruct (Z.ltb_spec t lo); do 2 f_equal; lia.
      * destruct (Z.ltb_spec hi t); do 2 f_equal; lia.
    + eapply IH; [exact H|reflexivity|reflexivity].
Qed.

Lemma fold_valid (f : Z -> Z -> Z) (l : list Z) :
  (forall a b, f a b = a \/ f a b = b) ->
  forall t0,
  Bounded.validTime t0 = true -> Forall (fun t => Bounded.validTime t = true) l ->
  Bounded.validTime (fold_left f l t0) = true.
Proof.
  intros Hf. induction l as [|t l IH]; intros t0 H0 Hall; [exact H0|].
  inversion Hall as [|? ? Ht Hrest]; subst. simpl. apply IH; [|exact Hrest].
  destruct (Hf t0 t) as [-> | ->]; assumption.
Qed.

Lemma extremes_valid (l : list Z) t0 :
  Bounded.validTime t0 = true -> Forall (fun t => Bounded.validTime t = true) l ->
  Bounded.validTime (fold_left Z.min l t0) = true
  /\ Bounded.validTime (fold_left Z.max l t0) = true.
Proof.
  intros H0 Hall. split; apply fold_valid; try assumption; intros a b.
  - destruct (Z.min_spec a b) as [[_ ->]|[_ ->]]; auto.
  - destruct (Z.max_spec a b) as [[_ ->]|[_ ->]]; auto.
Qed.

Lemma chunkEventsOf_In byDate range m :
  In m (chunkEventsOf byDate range) ->
  exists date l,
    getOwn byDate date = Some l /\ In m l
    /\ Js.ge date (r_start range) = true /\ Js.le date (r_end range) = true.
Proof.
  unfold chunkEventsOf. intros H. apply in_flat_map in H.
  destruct H as (date & _ & H).
  destruct (Js.ge date (r_start range)) eqn:E1; [|destruct H].
  destruct (Js.le date (r_end range)) eqn:E2; [|destruct H].
  simpl in H. destruct (getOwn byDate date) as [l|] eqn:Eg; [|destruct H].
  exists date, l. now repeat split.
Qed.

(** What the loop over the windows writes. *)
Lemma saveChunks_chunkFile chunkDir byDate dateRanges : forall fs dir name c,
  chunkFile (saveChunks now fs chunkDir byDate dateRanges) dir name c ->
  chunkFile fs dir name c
  \/ (dir = chunkDir
      /\ exists range,
           In range dateRanges /\ name = chunkName (r_start range) (r_end range)
           /\ chunkEventsOf byDate range <> []
           /\ c = mkChunkData now PAYMENT_ERROR_ISSUE_ID "Payment Error"
                    (r_start range) (r_end range)
                    (List.length (chunkEventsOf byDate range))
                    (chunkEventsOf byDate range)).
Proof.
  induction dateRanges as [|range rest IH]; intros fs dir name c H; simpl in H.
  - now left.
  - apply IH in H. destruct H as [H|(-> & r & Hr & Hrest)].
    2: { right. split; [reflexivity|]. exists r. split; [now right|exact Hrest]. }
    destruct (chunkEventsOf byDate range) as [|m ms] eqn:E; [now left|].
    cbn [List.length Nat.ltb Nat.leb] in H.
    destruct H as (d & Hd & Hread).
    destruct (String.eqb_spec dir chunkDir) as [->|Hne].
    + rewrite lookup_insert_eq in Hd. injection Hd as <-.
      destruct (String.eqb_spec name (chunkName (r_start range) (r_end range)))
        as [->|Hn].
      * rewrite readFile_writeFile in Hread. injection Hread as <-.
        right. split; [reflexivity|]. exists range. rewrite E.
        split; [now left|]. split; [reflexivity|]. split; [discriminate|reflexivity].
      * rewrite readFile_writeFile_other in Hread by assumption. left.
        destruct (fs !! chunkDir) as [d0|] eqn:E0; [|discriminate Hread].
        now exists d0.
    + rewrite lookup_insert_ne in Hd by congruence. left. now exists d.
Qed.

Lemma ensureDir_chunkFile fs chunkDir dir name c :
  chunkFile (ensureDir fs chunkDir) dir name c -> chunkFile fs dir name c.
Proof.
  intros (d & Hd & Hread).
  destruct (String.eqb_spec chunkDir dir) as [->|Hne].
  - rewrite ensureDir_lookup in Hd. injection Hd as <-.
    destruct (fs !! dir) as [d0|] eqn:E; [now exists d0|discriminate Hread].
  - rewrite ensureDir_lookup_other in Hd by assumption. now exists d.
Qed.

End MigrateFacts.

Section MigrateClaims.
Import Date Store StoreFacts Migrate PlannerFacts.

Variable Date_parse : string -> option Date.t.
Variable now : string.

(** X27: every chunk that the migration writes lies in the directory of
    the payment error issue under the file name of the window it
    records; it has at least one event and records their number; and
    each of its events is the record of an event of the cache whose date,
    the timestamp up to its [T], lies within the window, so that the
    reader keeps it when the window is read. *)
Theorem migrated_chunks_hold_their_days
    (fuel : nat) (fs fs' : FS) (cache : list RawEvent) :
  migratePaymentErrorCache Date_parse now fuel fs cache = Some fs' ->
  forall dir name c,
    chunkFile fs' dir name c ->
    chunkFile fs dir name c
    \/ (dir = getChunkDir PAYMENT_ERROR_ISSUE_ID "Payment Error"
        /\ name = chunkName (dateRangeStart c) (dateRangeEnd c)
        /\ issueId c = PAYMENT_ERROR_ISSUE_ID
        /\ events c <> [] /\ totalEvents c = List.length (events c)
        /\ Forall (fun m =>
                     Reader.inRange (dateRangeStart c) (dateRangeEnd c) m = true
                     /\ exists event, In event cache
                                      /\ m = extractMinimalEventData now event)
                  (events c)).
Proof.
  unfold migratePaymentErrorCache. intros H dir name c Hc.
  destruct (scan Date_parse now cache _) as [st|] eqn:Es; [|discriminate H].
  destruct (minDate st) as [[lo|]|]; try discriminate H.
  destruct (maxDate st) as [[hi|]|]; try discriminate H.
  destruct (getDateRanges fuel (Some lo) (Some hi) CHUNK_DAYS) as [dateRanges|];
    [|discriminate H].
  injection H as <-. apply saveChunks_chunkFile in Hc.
  destruct Hc as [Hc|(-> & range & _ & -> & Hne & ->)];
    [left; eapply ensureDir_chunkFile; eauto|].
  right. cbn [dateRangeStart dateRangeEnd issueId events totalEvents].
  repeat (split; [first [reflexivity|assumption]|]).
  apply List.Forall_forall. intros m Hm. apply chunkEventsOf_In in Hm.
  destruct Hm as (date & l & Hg & Hin & Hge & Hle).
  assert (Hf : filedFrom now cache (eventsByDate st)).
  { eapply scan_filed; [exact Es|auto|]. intros k l' Hk. discriminate Hk. }
  specialize (Hf _ _ Hg). rewrite List.Forall_forall in Hf.
  destruct (Hf m Hin) as (event & He & -> & Hk). split; [|eauto].
  unfold Reader.inRange. unfold dateKey in Hk. rewrite Hk. now rewrite Hge, Hle.
Qed.

Lemma scan_one_instant t events : forall st,
  Forall (fun event => instant Date_parse now event = Some t
                       /\ Aggregate.inherited (dateKey now event) = false) events ->
  ownNames (eventsByDate st) ->
  (minDate st = None /\ maxDate st = None)
  \/ (minDate st = Some (Some t) /\ maxDate st = Some (Some t)) ->
  exists st',
    scan Date_parse now events st = Some st'
    /\ (events <> [] -> minDate st' = Some (Some t) /\ maxDate st' = Some (Some t)).
Proof.
  induction events as [|event events IH]; intros st Hall Hown Hst.
  - exists st. split; [reflexivity|]. now intros [].
  - inversion Hall as [|? ? [Ht Hi] Hrest]; subst. cbn [scan].
    fold (dateKey now event). fold (instant Date_parse now event). rewrite Ht.
    set (pushed := match getOwn (eventsByDate st) (dateKey now event) with
                   | Some l => Some (setOwn (eventsByDate st) (dateKey now event)
                                       (l ++ [extractMinimalEventData now event]))
                   | None => if Aggregate.inherited (dateKey now event) then None
                             else Some (setOwn (eventsByDate st) (dateKey now event)
                                          [extractMinimalEventData now event])
                   end).
    assert (Hp : exists byDate, pushed = Some byDate /\ ownNames byDate).
    { subst pushed. destruct (getOwn (eventsByDate st) (dateKey now event)) as [l|] eqn:Eg.
      - eexists. split; [reflexivity|]. intros k l'. rewrite getOwn_setOwn.
        destruct (String.eqb_spec (dateKey now event) k) as [<-|]; [|apply Hown].
        intros _. exact Hi.
      - rewrite Hi. eexists. split; [reflexivity|]. intros k l'. rewrite getOwn_setOwn.
        destruct (String.eqb_spec (dateKey now event) k) as [<-|]; [|apply Hown].
        intros _. exact Hi. }
    destruct Hp as (byDate & -> & Hown').
    set (st1 := mkScan byDate _ _).
    assert (H1 : minDate st1 = Some (Some t) /\ maxDate st1 = Some (Some t)).
    { subst st1. cbn [minDate maxDate].
      destruct Hst as [[-> ->]|[-> ->]]; [now split|].
      unfold before. now rewrite Z.ltb_irrefl. }
    destruct (IH st1 Hrest Hown' (or_intror H1)) as (st' & Hs & Hm).
    exists st'. split; [exact Hs|]. intros _.
    destruct events as [|e events]; [|apply Hm; discriminate].
    simpl in Hs. now injection Hs as <-.
Qed.

(** X28: a cache whose events all carry one instant is migrated to
    nothing.  The first and the last date are then the same, the planner
    returns no window, and no chunk is written for any of the events:
    the store is left with the directory of the issue and nothing new in
    it. *)
Theorem cache_of_one_instant_migrates_to_nothing
    (fuel : nat) (fs : FS) (cache : list RawEvent) (t : Date.t) :
  cache <> [] ->
  Forall (fun event => instant Date_parse now event = Some t
                       /\ Aggregate.inherited (dateKey now event) = false) cache ->
  migratePaymentErrorCache Date_parse now (S fuel) fs cache =
  Some (ensureDir fs (getChunkDir PAYMENT_ERROR_ISSUE_ID "Payment Error")).
Proof.
  intros Hne Hall. unfold migratePaymentErrorCache.
  destruct (scan_one_instant t cache (mkScan [] None None) Hall)
    as (st & -> & Hm); [intros k l Hk; discriminate Hk|now left|].
  destruct (Hm Hne) as [-> ->].
  unfold getDateRanges, Bounded.getDateRanges. simpl. now rewrite Z.ltb_irrefl.
Qed.

(** The first step of the loop over the events of a cache whose first
    event is dated. *)
Lemma scan_dated first rest t0 st :
  instant Date_parse now first = Some t0 ->
  scan Date_parse now (first :: rest) (mkScan [] None None) = Some st ->
  minDate st = Some (Some (earliest Date_parse now t0 rest))
  /\ maxDate st = Some (Some (latest Date_parse now t0 rest)).
Proof.
  intros Et Es. cbn [scan] in Es. fold (dateKey now first) in Es.
  fold (instant Date_parse now first) in Es. rewrite Et in Es.
  cbn [eventsByDate getOwn minDate maxDate] in Es.
  destruct (Aggregate.inherited (dateKey now first)); [discriminate Es|].
  eapply scan_extremes; [exact Es|reflexivity|reflexivity].
Qed.

(** X29: with a [Date.parse] that gives time values in the range of a
    [Date], the migration throws, or does not end, exactly when the cache
    has no event, or the timestamp of its first event is no date, or the
    date of one of its events is the name of a property of
    [Object.prototype], or the plan from the earliest to the latest date
    of the cache overshoots the range of a [Date]: its last window of
    seven days would end after the last instant of a [Date].  In every
    other case it returns, given enough iterations for the planner. *)
Theorem migration_needs_a_dated_first_event (fs : FS) (cache : list RawEvent) :
  (forall s t, Date_parse s = Some t -> Bounded.validTime t = true) ->
  ((forall fuel, migratePaymentErrorCache Date_parse now fuel fs cache = None) <->
   cache = []
   \/ (exists first rest, cache = first :: rest /\ instant Date_parse now first = None)
   \/ Exists (fun event => Aggregate.inherited (dateKey now event) = true) cache
   \/ (exists first rest t0,
         cache = first :: rest /\ instant Date_parse now first = Some t0
         /\ overshoots (earliest Date_parse now t0 rest) (latest Date_parse now t0 rest)
              CHUNK_DAYS)).
Proof.
  intros Hparse.
  assert (Hempty : ownNames (eventsByDate (mkScan [] None None)))
    by (intros k l Hk; discriminate Hk).
  assert (Hd : 0 < CHUNK_DAYS) by (unfold CHUNK_DAYS; lia).
  assert (Hvalid : forall t0 rest, Bounded.validTime t0 = true ->
            Bounded.validTime (earliest Date_parse now t0 rest) = true
            /\ Bounded.validTime (latest Date_parse now t0 rest) = true).
  { intros t0 rest H0. apply extremes_valid; [exact H0|].
    apply List.Forall_forall. intros t Ht. apply In_omap in Ht.
    destruct Ht as (event & _ & Ht). exact (Hparse _ _ Ht). }
  split.
  - intros Hnone.
    destruct cache as [|first rest]; [now left|]. right.
    destruct (instant Date_parse now first) as [t0|] eqn:Et; [|left; eauto].
    right.
    destruct (scan Date_parse now (first :: rest) (mkScan [] None None)) as [st|] eqn:Es;
      [|left; now apply (scan_throws Date_parse now _ _ Hempty)].
    right. exists first, rest, t0. split; [reflexivity|]. split; [exact Et|].
    destruct (scan_dated first rest t0 st Et Es) as [Hlo Hhi].
    destruct (Hvalid t0 rest (Hparse _ _ Et)) as [Hvlo Hvhi].
    set (lo := earliest Date_parse now t0 rest) in *.
    set (hi := latest Date_parse now t0 rest) in *.
    apply overshootsb_spec.
    destruct (overshootsb lo hi CHUNK_DAYS) eqn:Eo; [reflexivity|exfalso].
    set (n := Z.to_nat ((hi - lo) / msPerDay + 1)).
    destruct (windowsFrom_terminates n lo hi CHUNK_DAYS Hd) as [ws Hws].
    { subst n. unfold msPerDay.
      pose proof (Z.mul_succ_div_gt (hi - lo) 86400000 ltac:(lia)).
      destruct (Z.le_gt_cases 0 (hi - lo)) as [Hpos|Hneg].
      - assert (0 <= (hi - lo) / 86400000) by (apply Z.div_pos; lia). lia.
      - lia. }
    specialize (Hnone (S n)). unfold migratePaymentErrorCache in Hnone.
    rewrite Es, Hlo, Hhi in Hnone.
    unfold getDateRanges, Bounded.getDateRanges in Hnone.
    rewrite (bounded_planner (S n) lo hi CHUNK_DAYS Hd Hvlo Hvhi), Eo in Hnone.
    rewrite getDateRangesFrom_windows, Hws in Hnone. discriminate Hnone.
  - intros [->|[(first & rest & -> & Hbad)|[Hex|(first & rest & t0 & -> & Et & Hover)]]] fuel;
      unfold migratePaymentErrorCache.
    + reflexivity.
    + destruct (scan Date_parse now (first :: rest) _) as [st|] eqn:Es; [|reflexivity].
      cbn [scan] in Es. fold (dateKey now first) in Es.
      fold (instant Date_parse now first) in Es. rewrite Hbad in Es.
      cbn [eventsByDate getOwn minDate maxDate] in Es.
      destruct (Aggregate.inherited (dateKey now first)); [discriminate Es|].
      apply scan_invalid in Es; [|reflexivity]. now rewrite Es.
    + apply (scan_throws Date_parse now _ _ Hempty) in Hex. now rewrite Hex.
    + destruct (scan Date_parse now (first :: rest) _) as [st|] eqn:Es; [|reflexivity].
      destruct (scan_dated first rest t0 st Et Es) as [-> ->].
      destruct (Hvalid t0 rest (Hparse _ _ Et)) as [Hvlo Hvhi].
      unfold getDateRanges, Bounded.getDateRanges.
      rewrite (bounded_planner fuel _ _ CHUNK_DAYS Hd Hvlo Hvhi).
      apply overshootsb_spec in Hover. now rewrite Hover.
Qed.

End MigrateClaims.

Section MigrateRuns.
Import Date Store StoreFacts Migrate Examples.

(** A cache of three events over nine days. *)
Definition oldCache : list RawEvent :=
  [ rawEvent "a1" (Some "2025-09-10T08:15:00Z") (mkUser (Some "u1") None None)
      "Insufficient Funds";
    rawEvent "a5" (Some "2025-09-18T09:00:00Z") (mkUser (Some "u2") None None)
      "Do Not Honor";
    rawEvent "a4" (Some "2025-09-16T23:59:59Z") (mkUser None None (Some "1.2.3.4"))
      "Insufficient Funds" ].

Definition migratedStore : FS :=
  saveChunk "2025-10-09T06:00:00.000Z"
    (saveChunk "2025-10-09T06:00:00.000Z" ∅ PAYMENT_ERROR_ISSUE_ID "Payment Error"
       "2025-09-10" "2025-09-16" keptEvents)
    PAYMENT_ERROR_ISSUE_ID "Payment Error" "2025-09-17" "2025-09-18"
    [ mkMinimalEvent "2025-09-18T09:00:00Z" (Some "a5") "u2" (Some "Do Not Honor")
        None None None None ].

Example migration_of_the_old_cache :
  migratePaymentErrorCache parseTimestamp "2025-10-09T06:00:00.000Z" 4 ∅ oldCache
  = Some migratedStore.
Proof. reflexivity. Qed.

Lemma migrated_chunks_hold_their_days_witness :
  migratePaymentErrorCache parseTimestamp "2025-10-09T06:00:00.000Z" 4 ∅ oldCache
  = Some migratedStore
  /\ forall dir name c,
       chunkFile migratedStore dir name c ->
       chunkFile ∅ dir name c
       \/ (dir = getChunkDir PAYMENT_ERROR_ISSUE_ID "Payment Error"
           /\ name = chunkName (dateRangeStart c) (dateRangeEnd c)
           /\ issueId c = PAYMENT_ERROR_ISSUE_ID
           /\ events c <> [] /\ totalEvents c = List.length (events c)
           /\ Forall (fun m =>
                        Reader.inRange (dateRangeStart c) (dateRangeEnd c) m = true
                        /\ exists event,
                             In event oldCache
                             /\ m = extractMinimalEventData
                                      "2025-10-09T06:00:00.000Z" event)
                     (events c)).
Proof.
  assert (H : migratePaymentErrorCache parseTimestamp "2025-10-09T06:00:00.000Z" 4 ∅
                oldCache = Some migratedStore) by reflexivity.
  split; [exact H|].
  exact (migrated_chunks_hold_their_days parseTimestamp "2025-10-09T06:00:00.000Z"
           4 ∅ migratedStore oldCache H).
Defined.

(** A cache of two events of one instant. *)
Definition oneInstant : list RawEvent :=
  [ rawEvent "a1" (Some "2025-09-10T08:15:00Z") (mkUser (Some "u1") None None)
      "Insufficient Funds";
    rawEvent "a2" (Some "2025-09-10T08:15:00Z") (mkUser (Some "u2") None None)
      "Do Not Honor" ].

Lemma cache_of_one_instant_migrates_to_nothing_witness :
  migratePaymentErrorCache parseTimestamp "2025-10-09T06:00:00.000Z" 4 ∅ oneInstant
  = Some (ensureDir ∅ (getChunkDir PAYMENT_ERROR_ISSUE_ID "Payment Error")).
Proof.
  apply (cache_of_one_instant_migrates_to_nothing parseTimestamp
           "2025-10-09T06:00:00.000Z" 3 ∅ oneInstant
           (midnight 2025 9 10 + 8 * 3600000 + 15 * 60000)).
  - discriminate.
  - repeat constructor.
Defined.

(** A [Date.parse] that knows the last two days of a [Date]. *)
Definition lastDays (s : string) : option Date.t :=
  if String.eqb s "+275760-09-12T00:00:00.000Z" then Some (99999999 * msPerDay)
  else if String.eqb s "+275760-09-13T00:00:00.000Z" then Some (100000000 * msPerDay)
  else None.

(** A cache of two events, on the last two days of a [Date]: the window
    of seven days from the first would end after the last. *)
Definition lastCache : list RawEvent :=
  [ rawEvent "z1" (Some "+275760-09-12T00:00:00.000Z") (mkUser (Some "u1") None None)
      "Insufficient Funds";
    rawEvent "z2" (Some "+275760-09-13T00:00:00.000Z") (mkUser (Some "u2") None None)
      "Do Not Honor" ].

Lemma migration_needs_a_dated_first_event_witness :
  (forall s t, lastDays s = Some t -> Bounded.validTime t = true)
  /\ (forall fuel,
        migratePaymentErrorCache lastDays "2025-10-09T06:00:00.000Z" fuel ∅ lastCache
        = None).
Proof.
  assert (H : forall s t, lastDays s = Some t -> Bounded.validTime t = true).
  { intros s t. unfold lastDays.
    destruct (String.eqb s "+275760-09-12T00:00:00.000Z"); [now intros [= <-]|].
    destruct (String.eqb s "+275760-09-13T00:00:00.000Z"); [now intros [= <-]|].
    discriminate. }
  split; [exact H|].
  apply (proj2 (migration_needs_a_dated_first_event lastDays
                  "2025-10-09T06:00:00.000Z" ∅ lastCache H)).
  right. right. right.
  exists (rawEvent "z1" (Some "+275760-09-12T00:00:00.000Z")
            (mkUser (Some "u1") None None) "Insufficient Funds"),
         [ rawEvent "z2" (Some "+275760-09-13T00:00:00.000Z")
             (mkUser (Some "u2") None None) "Do Not Honor" ],
         (99999999 * msPerDay).
  split; [reflexivity|]. split; [reflexivity|]. split; reflexivity.
Defined.

(** The newest day of a cache can be left out: with a first event on
    2025-09-01 at ten and a last one on 2025-09-08 at nine, the only
    window ends on 2025-09-07. *)
Example the_newest_day_is_left_out :
  let cache :=
    [ rawEvent "b1" (Some "2025-09-01T10:00:00Z") (mkUser (Some "u1") None None)
        "Insufficient Funds";
      rawEvent "b2" (Some "2025-09-08T09:00:00Z") (mkUser (Some "u2") None None)
        "Do Not Honor" ] in
  migratePaymentErrorCache parseTimestamp "2025-10-09T06:00:00.000Z" 4 ∅ cache
  = Some (saveChunk "2025-10-09T06:00:00.000Z" ∅ PAYMENT_ERROR_ISSUE_ID "Payment Error"
            "2025-09-01" "2025-09-07"
            [ mkMinimalEvent "2025-09-01T10:00:00Z" (Some "b1") "u1"
                (Some "Insufficient Funds") None None None None ]).
Proof. reflexivity. Qed.

End MigrateRuns.
